(** * uhttpd static file serving (file.c): a shallow embedding

    The request-serving core of uhttpd: path canonicalisation and lookup
    below the document root, the conditional-request checks, the directory
    lister and the streaming write callback.  C strings are lists of
    characters read up to the first NUL; libc and the parts of uhttpd that
    live in other translation units are fields of a [Platform] instance. *)

From Stdlib Require Import Ascii String List ZArith Lia Bool Arith Sorted.
Import ListNotations.

Set Implicit Arguments.

(** ** C strings *)

Module CStr.

Definition cstring := list ascii.

Definition NUL : ascii := Ascii.zero.

Definition lit (s : string) : cstring := list_ascii_of_string s.

Definition is_nul (c : ascii) : bool := Ascii.eqb c NUL.

(** A buffer read as a string: the characters before the first NUL. *)
Fixpoint cstr (buf : list ascii) : cstring :=
  match buf with
  | [] => []
  | c :: rest => if is_nul c then [] else c :: cstr rest
  end.

Definition strlen (buf : list ascii) : nat := length (cstr buf).

(** [buf[i]]; a buffer of [n] characters holds its terminator at index [n]. *)
Definition char_at (buf : list ascii) (i : nat) : ascii := nth i buf NUL.

Fixpoint list_eqb (a b : list ascii) : bool :=
  match a, b with
  | [], [] => true
  | x :: a', y :: b' => Ascii.eqb x y && list_eqb a' b'
  | _, _ => false
  end.

(** [strcmp(a, b) == 0] *)
Definition strcmp_eq (a b : list ascii) : bool := list_eqb (cstr a) (cstr b).

(** [strncmp(a, b, n) == 0] *)
Definition strncmp_eq (a b : list ascii) (n : nat) : bool :=
  list_eqb (firstn n (cstr a)) (firstn n (cstr b)).

(** [snprintf(buf, size, "%s", s)]: at most [size - 1] characters. *)
Definition snprintf_s (size : nat) (s : list ascii) : cstring :=
  firstn (size - 1) (cstr s).

(** [strchr(s, c)] as an offset. *)
Fixpoint strchr (s : list ascii) (c : ascii) : option nat :=
  match s with
  | [] => None
  | x :: rest =>
      if is_nul x then None
      else if Ascii.eqb x c then Some 0
      else option_map S (strchr rest c)
  end.

Definition nonul (s : list ascii) : Prop := Forall (fun c => c <> NUL) s.

End CStr.
Import CStr.

Definition slash : ascii := "/"%char.
Definition dot : ascii := "."%char.

(** ** Configuration and stat records *)

Record config := {
  no_symlinks : bool;
  docroot : cstring;
  no_dirlists : bool;
  error_handler : option cstring
}.

Record stat_t := {
  st_mode : Z;
  st_ino : Z;
  st_size : Z;
  st_mtime : Z
}.

Definition S_IFREG : Z := 32768.  (* 0100000 *)
Definition S_IFDIR : Z := 16384.  (* 0040000 *)
Definition S_IROTH : Z := 4.
Definition S_IXOTH : Z := 1.
Definition DT_DIR : Z := 4.

Definition has_bit (mode mask : Z) : bool := negb (Z.land mode mask =? 0)%Z.

(** ** What the server sends and does *)

(** An argument of a printf-style call. *)
Inductive printf_arg :=
| ArgStr (s : cstring)      (* under %s *)
| ArgInt (n : Z)            (* under %i *)
| ArgKbyte (size : Z).      (* [size / 1024.0] under %.02f *)

Definition CRLF : cstring := [ascii_of_nat 13; ascii_of_nat 10].

(** The text a format made of [%s] directives produces. *)
Fixpoint render (fmt : cstring) (args : list printf_arg) : option cstring :=
  match fmt with
  | [] => Some []
  | c :: rest =>
      if Ascii.eqb c "%"%char then
        match rest, args with
        | d :: rest', ArgStr s :: args' =>
            if Ascii.eqb d "s"%char
            then option_map (app (cstr s)) (render rest' args')
            else None
        | _, _ => None
        end
      else option_map (cons c) (render rest args)
  end.

Inductive event :=
| HttpHeader (code : Z) (summary : string)   (* uh_http_header(cl, code, summary) *)
| UstreamPrintf (fmt : cstring) (args : list printf_arg)  (* ustream_printf(cl->us, fmt, ...) *)
| ChunkPrintf (fmt : cstring) (args : list printf_arg)    (* uh_chunk_printf(cl, fmt, ...) *)
| ChunkWrite (len : Z)                       (* uh_chunk_write(cl, uh_buf, len) *)
| RequestDone                                (* uh_request_done(cl) *)
| CloseFd (fd : Z)                           (* close(fd) *)
| ClientError (code : Z) (summary : string) (url : option cstring).

(** ** Resolved paths, directory entries, reads *)

(** [struct path_info]; pointer fields hold the string they point to, [None]
    for NULL. *)
Record path_info := {
  root : option cstring;
  phys : option cstring;
  name : option cstring;
  info : option cstring;
  query : option cstring;
  auth : option cstring;
  redirected : bool;
  pstat : stat_t
}.

(** [struct dirent], as far as it is read. *)
Record dirent := {
  d_name : cstring;
  d_type : Z
}.

(** One [read(fd, uh_buf, sizeof(uh_buf))]: its return value, [errno] after
    it, and [cl->us->w.data_bytes] once the [uh_chunk_write] that follows it
    (if any) has returned. *)
Record read_step := {
  rd_ret : Z;
  rd_errno : Z;
  rd_pending : Z
}.

Definition EINTR : Z := 4.

Inductive http_method := UH_HTTP_MSG_GET | UH_HTTP_MSG_POST | UH_HTTP_MSG_HEAD.

(** Everything file.c takes from libc, the kernel and uhttpd's other
    translation units. *)
Class Platform := {
  (** [PATH_MAX] of limits.h *)
  PATH_MAX : nat;
  (** [sizeof(uh_buf)], declared in uhttpd.h *)
  UH_BUF_SIZE : nat;
  (** [sizeof(char * )] *)
  PTR_SIZE : nat;
  conf : config;
  (** [realpath(path, resolved)]: whether it returned non-NULL, and the
      bytes it left in [resolved]. *)
  realpath : cstring -> bool * list ascii;
  (** [stat(path, &s)]: [None] when it fails. *)
  stat : cstring -> option stat_t;
  (** [uh_urldecode(buf, blen, src, slen)] of utils.c, given [blen] and the
      [slen] bytes of [src]: the decoded bytes, or [None] for a negative
      return value. *)
  uh_urldecode : nat -> list ascii -> option (list ascii);
  (** [strptime(date, "%a, %d %b %Y %H:%M:%S %Z", &t)] followed by
      [timegm(&t)]; [None] when [strptime] returns NULL. *)
  strptime_timegm : cstring -> option Z;
  (** [gmtime(&ts)] followed by
      [strftime(buf, len, "%a, %d %b %Y %H:%M:%S GMT", t)] *)
  strftime_gmtime : Z -> cstring;
  (** [time(NULL)] *)
  time_now : Z;
  (** [uh_mime_types] of mimetypes.h: extension and type, up to the entry
      whose [extn] is NULL. *)
  uh_mime_types : list (cstring * cstring);
  (** [open(path, O_RDONLY)] *)
  open_rdonly : cstring -> Z;
  (** [scandir(path, &files, NULL, dirent_cmp)]: the entries in the order
      [dirent_cmp] gives them, [None] for a negative count. *)
  scandir : cstring -> option (list dirent);
  (** [uh_auth_check] of auth.c: its result and what it sends. *)
  uh_auth_check : path_info -> bool * list event
}.

(** ** The client and the monad of request handling *)

Inductive file_hdr :=
| HDR_AUTHORIZATION
| HDR_IF_MODIFIED_SINCE
| HDR_IF_UNMODIFIED_SINCE
| HDR_IF_MATCH
| HDR_IF_NONE_MATCH
| HDR_IF_RANGE.

Definition file_hdr_eqb (a b : file_hdr) : bool :=
  match a, b with
  | HDR_AUTHORIZATION, HDR_AUTHORIZATION
  | HDR_IF_MODIFIED_SINCE, HDR_IF_MODIFIED_SINCE
  | HDR_IF_UNMODIFIED_SINCE, HDR_IF_UNMODIFIED_SINCE
  | HDR_IF_MATCH, HDR_IF_MATCH
  | HDR_IF_NONE_MATCH, HDR_IF_NONE_MATCH
  | HDR_IF_RANGE, HDR_IF_RANGE => true
  | _, _ => false
  end.

(** [cl->dispatch.file.hdr]: the buffer of each header that is present. *)
Definition hdr_table := file_hdr -> option (list ascii).

Definition no_headers : hdr_table := fun _ => None.

Definition set_hdr (tb : hdr_table) (idx : file_hdr) (v : list ascii) : hdr_table :=
  fun j => if file_hdr_eqb idx j then Some v else tb j.

(** The parts of [struct client] that file.c reads and writes, and the
    events sent so far. *)
Record client := {
  method : http_method;
  hdr : hdr_table;
  sent : list event;
  (** [cl->us->w.data_bytes] *)
  data_bytes : Z;
  (** [cl->dispatch.file.fd], once [file_write_cb] is installed *)
  file_fd : option Z;
  (** what the coming calls of [read] will return *)
  reads : list read_step
}.

Definition with_hdr (cl : client) (tb : hdr_table) : client :=
  {| method := method cl; hdr := tb; sent := sent cl;
     data_bytes := data_bytes cl; file_fd := file_fd cl; reads := reads cl |}.

Definition with_sent (cl : client) (evs : list event) : client :=
  {| method := method cl; hdr := hdr cl; sent := evs;
     data_bytes := data_bytes cl; file_fd := file_fd cl; reads := reads cl |}.

Definition with_transfer (cl : client) (pending : Z) (fd : option Z)
  (rds : list read_step) : client :=
  {| method := method cl; hdr := hdr cl; sent := sent cl;
     data_bytes := pending; file_fd := fd; reads := rds |}.

(** State over [client]; [None] when a loop has used up its fuel or the
    recorded reads, or the code calls through a NULL pointer. *)
Definition M (A : Type) : Type := client -> option (A * client).

Definition ret {A} (a : A) : M A := fun cl => Some (a, cl).

Definition bind {A B} (m : M A) (f : A -> M B) : M B :=
  fun cl => match m cl with
            | Some (a, cl') => f a cl'
            | None => None
            end.

Definition out_of_fuel {A} : M A := fun _ => None.

Declare Scope m_scope.
Delimit Scope m_scope with M.
Notation "x <- m ;; k" := (bind m (fun x => k))
  (at level 61, m at next level, right associativity) : m_scope.
Notation "m ;;; k" := (bind m (fun _ => k))
  (at level 61, right associativity) : m_scope.
Open Scope m_scope.

Definition emit (e : event) : M unit :=
  fun cl => Some (tt, with_sent cl (sent cl ++ [e])).

Definition emit_all (evs : list event) : M unit :=
  fun cl => Some (tt, with_sent cl (sent cl ++ evs)).

Definition get_method : M http_method := fun cl => Some (method cl, cl).

(** [uh_file_header] *)
Definition uh_file_header (idx : file_hdr) : M (option (list ascii)) :=
  fun cl => Some (hdr cl idx, cl).

(** A header buffer written in place. *)
Definition store_header (idx : file_hdr) (v : list ascii) : M unit :=
  fun cl => Some (tt, with_hdr cl (set_hdr (hdr cl) idx v)).

(** [!a || !b], evaluated left to right. *)
Definition or_not (a : M bool) (rest : M bool) : M bool :=
  ok <- a ;; if ok then rest else ret true.

(** ** canonpath *)

Section Canonpath.
Context {P : Platform}.

(** [while ((path_res > path_resolved) && ( *--path_res != '/'));]
    on the output written so far, kept in reverse. *)
Fixpoint pop_segment (res : list ascii) : list ascii :=
  match res with
  | [] => []
  | c :: r => if Ascii.eqb c slash then r else pop_segment r
  end.

Definition slash_or_nul (c : ascii) : bool := Ascii.eqb c slash || is_nul c.

(** The normalising loop.  [cpy] is the input from [path_cpy] on, [off] is
    [path_cpy - path], [res] the output so far in reverse. *)
Fixpoint canon_loop (off : nat) (cpy : list ascii) (res : list ascii)
  {struct cpy} : list ascii :=
  match cpy with
  | [] => res
  | c0 :: t1 =>
      if is_nul c0 || negb (off <? PATH_MAX - 2) then res
      else if negb (Ascii.eqb c0 slash) then canon_loop (S off) t1 (c0 :: res)
      else
        match t1 with
        | [] => canon_loop (S off) t1 (c0 :: res)
        | c1 :: t2 =>
            if Ascii.eqb c1 slash then canon_loop (S off) t1 res
            else if Ascii.eqb c1 dot then
              if slash_or_nul (char_at t2 0) then canon_loop (off + 2) t2 res
              else
                match t2 with
                | [] => canon_loop (S off) t1 (c0 :: res)
                | c2 :: t3 =>
                    if Ascii.eqb c2 dot && slash_or_nul (char_at t3 0)
                    then canon_loop (off + 3) t3 (pop_segment res)
                    else canon_loop (S off) t1 (c0 :: res)
                end
            else canon_loop (S off) t1 (c0 :: res)
        end
  end.

(** Remove a trailing slash unless the result is the root; an empty
    result becomes the root. *)
Definition canon_finish (res : list ascii) : cstring :=
  match res with
  | [] => [slash]
  | c :: r =>
      match r with
      | [] => rev res
      | _ :: _ => if Ascii.eqb c slash then rev r else rev res
      end
  end.

Definition canon_rewrite (path : cstring) : cstring :=
  canon_finish (canon_loop 0 path []).

(** The return value (non-NULL or not) and the contents of [path_resolved]. *)
Definition canonpath (path : cstring) : bool * list ascii :=
  if no_symlinks conf then realpath path
  else (true, canon_rewrite path).

End Canonpath.

(** ** uh_path_lookup *)

(** What a call leaves behind: the events sent, the static buffer
    [path_phys], and the returned pointer. *)
Record lookup_result := {
  lr_events : list event;
  lr_path_phys : cstring;
  lr_ret : option path_info
}.

(** [uh_index_add] *)
Definition uh_index_add (filename : cstring) (index_files : list cstring)
  : list cstring := index_files ++ [filename].

Section PathLookup.
Context {P : Platform}.

Definition question : ascii := "?"%char.

(** [uh_buf] once the path part of the url is decoded behind the document
    root, and [p.query]; [None] where the code returns NULL.  ([blen] is
    computed in [size_t]; a document root that does not fit [uh_buf] has
    already overflowed it in [strcpy].) *)
Definition decode_url (url : cstring) : option (list ascii * option cstring) :=
  let droot := cstr (docroot conf) in
  let blen := UH_BUF_SIZE - length droot - 1 in
  match strchr url question with
  | Some k =>
      let q := if is_nul (char_at url (S k)) then None
               else Some (cstr (skipn (S k) url)) in
      if 0 <? k then
        match uh_urldecode blen (firstn k url) with
        | None => None
        | Some d => Some (droot ++ d, q)
        end
      else Some (droot, q)
  | None =>
      match uh_urldecode blen (cstr url) with
      | None => None
      | Some d => Some (droot ++ d, None)
      end
  end.

(** [slash = len && uh_buf[len - 1] == '/'] *)
Definition ends_with_slash (buf : list ascii) : bool :=
  let len := strlen buf in
  negb (len =? 0) && Ascii.eqb (char_at buf (len - 1)) slash.

(** [for (i = len; i >= 0; i--)]: the first [i], counting down, at which
    [uh_buf[i]] is NUL or a slash. *)
Fixpoint find_cut (buf : list ascii) (i : nat) : option nat :=
  let ch := char_at buf i in
  if negb (is_nul ch) && negb (Ascii.eqb ch slash) then
    match i with
    | 0 => None
    | S j => find_cut buf j
    end
  else Some i.

(** [path_phys] and [path_info] after the loop. *)
Definition canon_stage (buf : list ascii) : cstring * cstring :=
  let len := Nat.min (strlen buf) (PATH_MAX - 1) in
  match find_cut buf len with
  | None => ([], [])
  | Some i =>
      (cstr (snd (canonpath (firstn i buf))),
       snprintf_s PATH_MAX (skipn i buf))
  end.

(** The check "whether found path is within docroot". *)
Definition within_docroot (path_phys : cstring) : bool :=
  let droot := cstr (docroot conf) in
  let docroot_len := length droot in
  strncmp_eq path_phys droot docroot_len &&
  (is_nul (char_at path_phys docroot_len) ||
   Ascii.eqb (char_at path_phys docroot_len) slash).

(** "ensure trailing slash".  [stat] has succeeded on [path_phys], which is
    therefore not empty; for an empty one [pathptr[-1]] is read as NUL. *)
Definition ensure_trailing_slash (path_phys : cstring) : cstring :=
  if Ascii.eqb (last path_phys NUL) slash then path_phys
  else path_phys ++ [slash].

(** "try to locate index file": the final [path_phys] and the stat record
    of the index file found.  [len] is an [int] compared with a [size_t]. *)
Fixpoint try_index (dir : cstring) (len : Z) (index_files : list cstring)
  : cstring * option stat_t :=
  match index_files with
  | [] => (dir, None)
  | idx :: rest =>
      if (0 <=? len)%Z && (len <? Z.of_nat (strlen idx))%Z
      then try_index dir len rest
      else
        let cand := dir ++ cstr idx in
        match stat cand with
        | Some s =>
            if has_bit (st_mode s) S_IFREG then (cand, Some s)
            else try_index dir len rest
        | None => try_index dir len rest
        end
  end.

(** The [ustream_printf] of the redirect. *)
Definition location_header (path_phys : cstring) (q : option cstring) : event :=
  UstreamPrintf (lit "Location: %s%s%s" ++ CRLF ++ CRLF)
    [ArgStr (skipn (length (cstr (docroot conf))) path_phys);
     ArgStr (match q with Some _ => lit "?" | None => [] end);
     ArgStr (match q with Some qs => qs | None => [] end)].

Definition lookup_null (path_phys : cstring) : lookup_result :=
  {| lr_events := []; lr_path_phys := path_phys; lr_ret := None |}.

Definition uh_path_lookup (index_files : list cstring) (url : option cstring)
  : lookup_result :=
  match url with
  | None => lookup_null []
  | Some url =>
  match decode_url url with
  | None => lookup_null []
  | Some (uh_buf, q) =>
  let droot := cstr (docroot conf) in
  let docroot_len := length droot in
  let has_slash := ends_with_slash uh_buf in
  let '(path_phys, path_info) := canon_stage uh_buf in
  if negb (within_docroot path_phys) then lookup_null path_phys
  else
  match stat path_phys with
  | None => lookup_null path_phys
  | Some s =>
  if has_bit (st_mode s) S_IFREG then
    {| lr_events := [];
       lr_path_phys := path_phys;
       lr_ret := Some {| root := Some droot;
                         phys := Some path_phys;
                         name := Some (skipn docroot_len path_phys);
                         info := match path_info with
                                 | [] => None
                                 | _ :: _ => Some path_info
                                 end;
                         query := q; auth := None;
                         redirected := false; pstat := s |} |}
  else if negb (has_bit (st_mode s) S_IFDIR) then lookup_null path_phys
  else
  match path_info with
  | _ :: _ => lookup_null path_phys
  | [] =>
  let path_phys := ensure_trailing_slash path_phys in
  if negb has_slash then
    {| lr_events := [HttpHeader 302 "Found";
                     location_header path_phys q;
                     RequestDone];
       lr_path_phys := path_phys;
       lr_ret := Some {| root := None; phys := None; name := None;
                         info := None; query := q; auth := None;
                         redirected := true; pstat := s |} |}
  else
    let len := (Z.of_nat PATH_MAX - Z.of_nat (length path_phys) - 1)%Z in
    let '(path_phys, found) := try_index path_phys len index_files in
    {| lr_events := [];
       lr_path_phys := path_phys;
       lr_ret := Some {| root := Some droot;
                         phys := Some path_phys;
                         name := Some (skipn docroot_len path_phys);
                         info := None; query := q; auth := None;
                         redirected := false;
                         pstat := match found with
                                  | Some s' => s'
                                  | None => s
                                  end |} |}
  end
  end
  end
  end.

End PathLookup.

(** ** Entity tags, dates and the conditional checks *)

Section Preconditions.
Context {P : Platform}.

Definition dquote : ascii := ascii_of_nat 34.

Definition hex_digit (n : Z) : ascii :=
  nth (Z.to_nat n) (lit "0123456789abcdef") "0"%char.

Fixpoint hex_digits (fuel : nat) (n : Z) (acc : list ascii) : list ascii :=
  match fuel with
  | 0 => acc
  | S f =>
      let acc' := hex_digit (n mod 16) :: acc in
      if (n / 16 =? 0)%Z then acc' else hex_digits f (n / 16) acc'
  end.

(** [(unsigned int) v], 32 bits wide *)
Definition to_uint (v : Z) : Z := (v mod 4294967296)%Z.

(** [%x] of an [unsigned int] *)
Definition fmt_x (n : Z) : cstring := hex_digits 8 n [].

(** The text the format produces: a double quote, the three fields under
    [%x] with dashes between them, a double quote. *)
Definition tag_text (s : stat_t) : cstring :=
  [dquote] ++ fmt_x (to_uint (st_ino s)) ++ lit "-"
           ++ fmt_x (to_uint (st_size s)) ++ lit "-"
           ++ fmt_x (to_uint (st_mtime s)) ++ [dquote].

(** [uh_file_mktag]: [snprintf(buf, sizeof(buf), ...)] where [buf] is a
    [char *] parameter, so that the size is that of a pointer. *)
Definition uh_file_mktag (s : stat_t) : cstring :=
  firstn (PTR_SIZE - 1) (tag_text s).

(** [uh_file_date2unix] *)
Definition uh_file_date2unix (date : cstring) : Z :=
  match strptime_timegm (cstr date) with
  | Some t => t
  | None => 0
  end.

(** [uh_file_unix2date] *)
Definition uh_file_unix2date (ts : Z) : cstring := strftime_gmtime ts.

Definition uh_file_response_ok_hdrs (s : option stat_t) : M unit :=
  match s with
  | Some s =>
      emit (UstreamPrintf (lit "ETag: %s" ++ CRLF) [ArgStr (uh_file_mktag s)]) ;;;
      emit (UstreamPrintf (lit "Last-Modified: %s" ++ CRLF)
              [ArgStr (uh_file_unix2date (st_mtime s))])
  | None => ret tt
  end ;;;
  emit (UstreamPrintf (lit "Date: %s" ++ CRLF) [ArgStr (uh_file_unix2date time_now)]).

Definition uh_file_response_200 (s : option stat_t) : M unit :=
  emit (HttpHeader 200 "OK") ;;; uh_file_response_ok_hdrs s.

Definition uh_file_response_304 (s : option stat_t) : M unit :=
  emit (HttpHeader 304 "Not Modified") ;;; uh_file_response_ok_hdrs s.

Definition uh_file_response_412 : M unit :=
  emit (HttpHeader 412 "Precondition Failed").

(** [hdr[i] = c] *)
Fixpoint set_at (buf : list ascii) (i : nat) (c : ascii) : list ascii :=
  match buf, i with
  | [], _ => []
  | _ :: rest, 0 => c :: rest
  | x :: rest, S j => x :: set_at rest j c
  end.

Definition is_separator (c : ascii) : bool :=
  Ascii.eqb c " "%char || Ascii.eqb c ","%char.

(** The token loop shared by [uh_file_if_match] and
    [uh_file_if_none_match]: [for (i = 0; i < strlen(hdr); i++)] with [p] an
    offset into [hdr].  Returns whether a token matched and the buffer as
    the loop leaves it. *)
Fixpoint match_loop (fuel : nat) (tag : cstring) (hdr : list ascii) (i p : nat)
  : option (bool * list ascii) :=
  match fuel with
  | 0 => None
  | S f =>
      if i <? strlen hdr then
        if is_separator (char_at hdr i) then
          let hdr' := set_at hdr i NUL in
          match_loop f tag hdr' (S (S i)) (S i)
        else if strcmp_eq (skipn p hdr) (lit "*") || strcmp_eq (skipn p hdr) tag
        then Some (true, hdr)
        else match_loop f tag hdr (S i) p
      else Some (false, hdr)
  end.

Definition run_match_loop (idx : file_hdr) (tag : cstring) (h : list ascii)
  : M bool :=
  match match_loop (S (length h)) tag h 0 0 with
  | None => out_of_fuel
  | Some (found, h') => store_header idx h' ;;; ret found
  end.

Definition uh_file_if_match (s : stat_t) : M bool :=
  let tag := uh_file_mktag s in
  h <- uh_file_header HDR_IF_MATCH ;;
  match h with
  | None => ret true
  | Some h =>
      found <- run_match_loop HDR_IF_MATCH tag h ;;
      if found then ret true
      else uh_file_response_412 ;;; ret false
  end.

Definition uh_file_if_modified_since (s : stat_t) : M bool :=
  h <- uh_file_header HDR_IF_MODIFIED_SINCE ;;
  match h with
  | None => ret true
  | Some h =>
      if (uh_file_date2unix h >=? st_mtime s)%Z
      then uh_file_response_304 (Some s) ;;; ret false
      else ret true
  end.

Definition uh_file_if_none_match (s : stat_t) : M bool :=
  let tag := uh_file_mktag s in
  h <- uh_file_header HDR_IF_NONE_MATCH ;;
  match h with
  | None => ret true
  | Some h =>
      found <- run_match_loop HDR_IF_NONE_MATCH tag h ;;
      if found then
        m <- get_method ;;
        match m with
        | UH_HTTP_MSG_GET | UH_HTTP_MSG_HEAD => uh_file_response_304 (Some s)
        | _ => uh_file_response_412
        end ;;; ret false
      else ret true
  end.

Definition uh_file_if_range (s : stat_t) : M bool :=
  h <- uh_file_header HDR_IF_RANGE ;;
  match h with
  | Some _ => uh_file_response_412 ;;; ret false
  | None => ret true
  end.

Definition uh_file_if_unmodified_since (s : stat_t) : M bool :=
  h <- uh_file_header HDR_IF_UNMODIFIED_SINCE ;;
  match h with
  | Some h =>
      if (uh_file_date2unix h <=? st_mtime s)%Z
      then uh_file_response_412 ;;; ret false
      else ret true
  | None => ret true
  end.

End Preconditions.

(** ** MIME types, directory listings and file bodies *)

Section Responder.
Context {P : Platform}.

Definition tolower (c : ascii) : ascii :=
  let n := nat_of_ascii c in
  if (65 <=? n) && (n <=? 90) then ascii_of_nat (n + 32) else c.

(** [strcasecmp(a, b) == 0] *)
Definition strcasecmp_eq (a b : list ascii) : bool :=
  list_eqb (map tolower (cstr a)) (map tolower (cstr b)).

(** [while (e >= path)] with [e = path + i], counting down. *)
Fixpoint extn_scan (path extn : cstring) (i : nat) : bool :=
  let c := char_at path i in
  if (Ascii.eqb c dot || Ascii.eqb c slash) &&
     strcasecmp_eq (skipn (S i) path) extn
  then true
  else match i with
       | 0 => false
       | S j => extn_scan path extn j
       end.

Fixpoint mime_scan (path : cstring) (table : list (cstring * cstring)) : cstring :=
  match table with
  | [] => lit "application/octet-stream"
  | (extn, mime) :: rest =>
      let found := match strlen path with
                   | 0 => false
                   | S k => extn_scan (cstr path) extn k
                   end in
      if found then mime else mime_scan path rest
  end.

Definition uh_file_mime_lookup (path : cstring) : cstring :=
  mime_scan path uh_mime_types.

(** The locals of [list_entries] that outlive an iteration. *)
Record list_locals := {
  suffix : cstring;
  mode : Z;
  type : cstring
}.

Definition list_locals_init : list_locals :=
  {| suffix := lit "/"; mode := S_IXOTH; type := lit "directory" |}.

Definition entry_format : cstring :=
  lit "<li><strong><a href='%s%s%s'>%s</a>%s</strong><br /><small>modified: %s<br />%s - %.02f kbyte<br /><br /></small></li>".

(** [name[0] == '.' && name[1] == 0] *)
Definition is_self_entry (name : cstring) : bool :=
  Ascii.eqb (char_at name 0) dot && is_nul (char_at name 1).

Definition entry_line (path name : cstring) (l : list_locals) (s : stat_t) : event :=
  ChunkPrintf entry_format
    [ArgStr path; ArgStr name; ArgStr (suffix l);
     ArgStr name; ArgStr (suffix l);
     ArgStr (uh_file_unix2date (st_mtime s));
     ArgStr (type l); ArgKbyte (st_size s)].

(** The loop of [list_entries], from entry [i] on. *)
Fixpoint list_entries_from (files : list dirent) (path local_path : cstring)
  (l : list_locals) : list event :=
  match files with
  | [] => []
  | f :: rest =>
      let name := d_name f in
      let dir := has_bit (d_type f) DT_DIR in
      if is_self_entry name then list_entries_from rest path local_path l
      else
        let full := cstr local_path ++ cstr name in
        match stat full with
        | None => list_entries_from rest path local_path l
        | Some s =>
            let l' := if dir then l
                      else {| suffix := []; mode := S_IROTH;
                              type := uh_file_mime_lookup full |} in
            if negb (has_bit (st_mode s) (mode l'))
            then list_entries_from rest path local_path l'
            else entry_line path name l' s
                   :: list_entries_from rest path local_path l'
        end
  end.

Definition list_entries (files : list dirent) (path local_path : cstring)
  : list event :=
  list_entries_from files path local_path list_locals_init.

Definition or_empty (s : option cstring) : cstring :=
  match s with
  | Some v => v
  | None => []
  end.

Definition uh_file_dirlist (pi : path_info) : M unit :=
  uh_file_response_200 None ;;;
  emit (UstreamPrintf (lit "Content-Type: text/html" ++ CRLF ++ CRLF) []) ;;;
  emit (ChunkPrintf
          (lit "<html><head><title>Index of %s</title></head><body><h1>Index of %s</h1><hr /><ol>")
          [ArgStr (or_empty (name pi)); ArgStr (or_empty (name pi))]) ;;;
  match scandir (or_empty (phys pi)) with
  | Some (f :: files) =>
      emit_all (list_entries (f :: files) (or_empty (name pi)) (or_empty (phys pi)))
  | _ => ret tt
  end ;;;
  emit (ChunkPrintf (lit "</ol><hr /></body></html>") []) ;;;
  emit RequestDone.

(** The [while] loop of [file_write_cb]: the events it sends, and the client
    fields it leaves, or [None] when the recorded reads run out. *)
Fixpoint write_loop (rds : list read_step) (pending : Z)
  : option (list event * Z * list read_step) :=
  if (pending <? 256)%Z then
    match rds with
    | [] => None
    | rd :: rest =>
        let r := rd_ret rd in
        if (r <? 0)%Z && (rd_errno rd =? EINTR)%Z then write_loop rest pending
        else if (r =? 0)%Z then Some ([RequestDone], pending, rest)
        else
          match write_loop rest (rd_pending rd) with
          | Some (evs, pending', rest') => Some (ChunkWrite r :: evs, pending', rest')
          | None => None
          end
    end
  else Some ([], pending, rds).

Definition file_write_cb : M unit :=
  fun cl =>
    match write_loop (reads cl) (data_bytes cl) with
    | None => None
    | Some (evs, pending, rest) =>
        Some (tt, with_transfer (with_sent cl (sent cl ++ evs))
                    pending (file_fd cl) rest)
    end.

Definition install_write_cb (fd : Z) : M unit :=
  fun cl => Some (tt, with_transfer cl (data_bytes cl) (Some fd) (reads cl)).

(** "test preconditions": the condition of the [if] in [uh_file_data]. *)
Definition preconditions_fail (s : stat_t) : M bool :=
  or_not (uh_file_if_modified_since s)
 (or_not (uh_file_if_match s)
 (or_not (uh_file_if_range s)
 (or_not (uh_file_if_unmodified_since s)
 (or_not (uh_file_if_none_match s) (ret false))))).

(** "write status" and "send body": [uh_file_data] past the preconditions. *)
Definition send_file (pi : path_info) (fd : Z) : M unit :=
  let s := pstat pi in
  uh_file_response_200 (Some s) ;;;
  emit (UstreamPrintf (lit "Content-Type: %s" ++ CRLF)
          [ArgStr (uh_file_mime_lookup (or_empty (name pi)))]) ;;;
  emit (UstreamPrintf (lit "Content-Length: %i" ++ CRLF ++ CRLF)
          [ArgInt (st_size s)]) ;;;
  m <- get_method ;;
  match m with
  | UH_HTTP_MSG_HEAD => emit RequestDone ;;; emit (CloseFd fd)
  | _ => install_write_cb fd ;;; file_write_cb
  end.

Definition uh_file_data (pi : path_info) (fd : Z) : M unit :=
  failed <- preconditions_fail (pstat pi) ;;
  if failed then emit RequestDone ;;; emit (CloseFd fd)
  else send_file pi fd.

Definition set_headers (tb : hdr_table) : M unit :=
  fun cl => Some (tt, with_hdr cl tb).

Definition uh_file_request (url : option cstring) (pi : path_info)
  (tb : hdr_table) : M unit :=
  let forbidden := emit (ClientError 403 "Forbidden" url) in
  let s := pstat pi in
  if negb (has_bit (st_mode s) S_IROTH) then forbidden
  else if has_bit (st_mode s) S_IFREG then
    let fd := open_rdonly (or_empty (phys pi)) in
    if (fd <? 0)%Z then forbidden
    else
      set_headers tb ;;;
      uh_file_data pi fd ;;;
      set_headers no_headers
  else if has_bit (st_mode s) S_IFDIR then
    if no_dirlists conf then forbidden
    else uh_file_dirlist pi
  else forbidden.

End Responder.

(** [dirent_cmp], the comparator given to [scandir]; [alphasort] is libc's. *)
Definition dirent_cmp (alphasort : dirent -> dirent -> Z) (a b : dirent) : Z :=
  let dir_a := has_bit (d_type a) DT_DIR in
  let dir_b := has_bit (d_type b) DT_DIR in
  if negb (Bool.eqb dir_a dir_b) then (Z.b2z dir_b - Z.b2z dir_a)%Z
  else alphasort a b.

(** ** Dispatch *)

(** [struct dispatch_handler]; a NULL function pointer is [None]. *)
Record dispatch_handler := {
  check_url : option (cstring -> bool);
  check_path : option (path_info -> option cstring -> bool);
  handle_request : option cstring -> option path_info -> M unit
}.

(** [uh_dispatch_add] *)
Definition uh_dispatch_add (d : dispatch_handler)
  (dispatch_handlers : list dispatch_handler) : list dispatch_handler :=
  dispatch_handlers ++ [d].

(** [dispatch_find]; the outer [None] is a call through a NULL pointer. *)
Fixpoint dispatch_find (handlers : list dispatch_handler) (url : option cstring)
  (pi : option path_info) : option (option dispatch_handler) :=
  match handlers with
  | [] => Some None
  | d :: rest =>
      match pi with
      | Some p =>
          match check_url d, check_path d with
          | Some _, _ => dispatch_find rest url pi
          | None, Some chk =>
              if chk p url then Some (Some d) else dispatch_find rest url pi
          | None, None => None
          end
      | None =>
          match check_path d, check_url d, url with
          | Some _, _, _ => dispatch_find rest url pi
          | None, Some chk, Some u =>
              if chk u then Some (Some d) else dispatch_find rest url pi
          | None, _, _ => None
          end
      end
  end.

Section Requests.
Context {P : Platform}.
Variable index_files : list cstring.
Variable dispatch_handlers : list dispatch_handler.

Definition with_auth (pi : path_info) (a : option cstring) : path_info :=
  {| root := root pi; phys := phys pi; name := name pi; info := info pi;
     query := query pi; auth := a; redirected := redirected pi;
     pstat := pstat pi |}.

(** [__handle_file_request]; [tb] is what [blobmsg_parse] finds in the
    request headers. *)
Definition __handle_file_request (tb : hdr_table) (url : option cstring) : M bool :=
  let r := uh_path_lookup index_files url in
  emit_all (lr_events r) ;;;
  match lr_ret r with
  | None => ret false
  | Some pi =>
      if redirected pi then ret true
      else
        let pi := match tb HDR_AUTHORIZATION with
                  | Some a => with_auth pi (Some (cstr a))
                  | None => pi
                  end in
        let '(ok, evs) := uh_auth_check pi in
        emit_all evs ;;;
        if negb ok then ret true
        else
          match dispatch_find dispatch_handlers url (Some pi) with
          | None => out_of_fuel
          | Some (Some d) => handle_request d url (Some pi) ;;; ret true
          | Some None => uh_file_request url pi tb ;;; ret true
          end
  end.

(** [uh_handle_request] *)
Definition uh_handle_request (tb : hdr_table) (url : cstring) : M unit :=
  match dispatch_find dispatch_handlers (Some url) None with
  | None => out_of_fuel
  | Some (Some d) => handle_request d (Some url) None
  | Some None =>
      served <- __handle_file_request tb (Some url) ;;
      if served then ret tt
      else
        served <- __handle_file_request tb (error_handler conf) ;;
        if served then ret tt
        else emit (ClientError 404 "Not Found" (Some url))
  end.

End Requests.

(** ** A small site to run the code on

    A percent-decoder, an RFC 1123 clock and a document root with a few
    entries, bundled as a [Platform] for LP64 Linux. *)

Module Demo.

Definition hex_value (c : ascii) : option nat :=
  let n := nat_of_ascii c in
  if (48 <=? n) && (n <=? 57) then Some (n - 48)
  else if (65 <=? n) && (n <=? 70) then Some (n - 55)
  else if (97 <=? n) && (n <=? 102) then Some (n - 87)
  else None.

(** Modelled from the spec: [uh_urldecode] lives in utils.c, outside
    file.c.  It percent-decodes the path; "decoding failure (invalid escape,
    embedded NUL)" gives no result. *)
Fixpoint percent_decode (src : list ascii) : option (list ascii) :=
  match src with
  | [] => Some []
  | c :: rest =>
      if Ascii.eqb c "%"%char then
        match rest with
        | h :: l :: rest' =>
            match hex_value h, hex_value l with
            | Some a, Some b =>
                if (16 * a + b =? 0)%nat then None
                else option_map (cons (ascii_of_nat (16 * a + b)))
                                (percent_decode rest')
            | _, _ => None
            end
        | _ => None
        end
      else if is_nul c then None
      else option_map (cons c) (percent_decode rest)
  end.

(** Modelled from the spec: the decoder with the "explicit maximum-length
    rejection" of a result that does not fit [blen] bytes. *)
Definition urldecode (blen : nat) (src : list ascii) : option (list ascii) :=
  match percent_decode src with
  | Some d => if length d <=? blen then Some d else None
  | None => None
  end.

(** *** Dates *)

Definition digit_value (c : ascii) : option Z :=
  let n := nat_of_ascii c in
  if (48 <=? n) && (n <=? 57) then Some (Z.of_nat (n - 48)) else None.

Fixpoint number (digits : list ascii) (acc : Z) : option Z :=
  match digits with
  | [] => Some acc
  | c :: rest =>
      match digit_value c with
      | Some d => number rest (10 * acc + d)
      | None => None
      end
  end.

Definition month_names : list string :=
  ["Jan"; "Feb"; "Mar"; "Apr"; "May"; "Jun";
   "Jul"; "Aug"; "Sep"; "Oct"; "Nov"; "Dec"]%string.

Definition day_names : list string :=
  ["Sun"; "Mon"; "Tue"; "Wed"; "Thu"; "Fri"; "Sat"]%string.

Fixpoint index_of (s : cstring) (names : list string) (i : Z) : option Z :=
  match names with
  | [] => None
  | n :: rest => if list_eqb s (lit n) then Some i else index_of s rest (i + 1)
  end.

(** Days from 1970-01-01 to the given civil date. *)
Definition days_from_civil (y m d : Z) : Z :=
  let y' := if (m <=? 2)%Z then (y - 1)%Z else y in
  let era := (y' / 400)%Z in
  let yoe := (y' - era * 400)%Z in
  let mp := if (2 <? m)%Z then (m - 3)%Z else (m + 9)%Z in
  let doy := ((153 * mp + 2) / 5 + d - 1)%Z in
  let doe := (yoe * 365 + yoe / 4 - yoe / 100 + doy)%Z in
  (era * 146097 + doe - 719468)%Z.

Definition slice (s : list ascii) (from len : nat) : list ascii :=
  firstn len (skipn from s).

(** A strict reader of "Sun, 06 Nov 1994 08:49:37 GMT". *)
Definition parse_rfc1123 (date : cstring) : option Z :=
  if negb (length date =? 29)%nat then None
  else if negb (list_eqb (slice date 3 2) (lit ", ") &&
                list_eqb (slice date 7 1) (lit " ") &&
                list_eqb (slice date 11 1) (lit " ") &&
                list_eqb (slice date 16 1) (lit " ") &&
                list_eqb (slice date 19 1) (lit ":") &&
                list_eqb (slice date 22 1) (lit ":") &&
                list_eqb (slice date 25 4) (lit " GMT")) then None
  else
    match index_of (slice date 0 3) day_names 0,
          number (slice date 5 2) 0,
          index_of (slice date 8 3) month_names 1,
          number (slice date 12 4) 0,
          number (slice date 17 2) 0,
          number (slice date 20 2) 0,
          number (slice date 23 2) 0 with
    | Some _, Some d, Some m, Some y, Some hh, Some mm, Some ss =>
        Some (days_from_civil y m d * 86400 + hh * 3600 + mm * 60 + ss)%Z
    | _, _, _, _, _, _, _ => None
    end.

Definition digit_char (d : Z) : ascii := ascii_of_nat (48 + Z.to_nat d).

Definition two_digits (n : Z) : cstring :=
  [digit_char (n / 10 mod 10); digit_char (n mod 10)].

Definition four_digits (n : Z) : cstring :=
  two_digits (n / 100) ++ two_digits n.

(** The civil date of a day count, as (year, month, day). *)
Definition civil_from_days (days : Z) : Z * Z * Z :=
  let z := (days + 719468)%Z in
  let era := (z / 146097)%Z in
  let doe := (z - era * 146097)%Z in
  let yoe := ((doe - doe / 1460 + doe / 36524 - doe / 146096) / 365)%Z in
  let doy := (doe - (365 * yoe + yoe / 4 - yoe / 100))%Z in
  let mp := ((5 * doy + 2) / 153)%Z in
  let d := (doy - (153 * mp + 2) / 5 + 1)%Z in
  let m := if (mp <? 10)%Z then (mp + 3)%Z else (mp - 9)%Z in
  let y := (yoe + era * 400)%Z in
  (if (m <=? 2)%Z then (y + 1)%Z else y, m, d).

Definition format_rfc1123 (ts : Z) : cstring :=
  let days := (ts / 86400)%Z in
  let secs := (ts mod 86400)%Z in
  let '(y, m, d) := civil_from_days days in
  lit (nth (Z.to_nat ((days + 4) mod 7)) day_names EmptyString) ++ lit ", " ++
  two_digits d ++ lit " " ++
  lit (nth (Z.to_nat (m - 1)) month_names EmptyString) ++ lit " " ++
  four_digits y ++ lit " " ++
  two_digits (secs / 3600) ++ lit ":" ++
  two_digits (secs / 60 mod 60) ++ lit ":" ++
  two_digits (secs mod 60) ++ lit " GMT".

(** *** Files *)

Definition dir_mode : Z := 16877.      (* 040755 *)
Definition closed_dir_mode : Z := 16872. (* 040750 *)
Definition file_mode : Z := 33188.     (* 0100644 *)

Definition entry (mode ino size mtime : Z) : stat_t :=
  {| st_mode := mode; st_ino := ino; st_size := size; st_mtime := mtime |}.

Definition www : stat_t := entry dir_mode 2 4096 784111777.
Definition docs : stat_t := entry dir_mode 19088743 4096 784111777.
Definition guide : stat_t := entry file_mode 19088744 1 784111777.
Definition notes : stat_t := entry file_mode 19088745 2 784111777.
Definition index_html : stat_t := entry file_mode 5 612 784111777.
Definition vault : stat_t := entry closed_dir_mode 7 4096 784111777.

Definition files : list (string * stat_t) :=
  [ ("/www", www); ("/www/", www);
    ("/www/index.html", index_html);
    ("/www/docs", docs); ("/www/docs/", docs);
    ("/www/docs/.", docs); ("/www/docs/..", www);
    ("/www/docs/guide.txt", guide);
    ("/www/docs/notes.txt", notes);
    ("/www/docs/vault", vault); ("/www/docs/vault/", vault) ]%string.

Fixpoint lookup (path : cstring) (fs : list (string * stat_t)) : option stat_t :=
  match fs with
  | [] => None
  | (p, s) :: rest => if list_eqb path (lit p) then Some s else lookup path rest
  end.

(** The entries of [/www/docs] after [.] and [..]. *)
Definition docs_entries : list dirent :=
  [ {| d_name := lit "vault"; d_type := DT_DIR |};
    {| d_name := lit "guide.txt"; d_type := 8 |};
    {| d_name := lit "notes.txt"; d_type := 8 |} ].

Definition listing (path : cstring) : option (list dirent) :=
  if list_eqb path (lit "/www/docs/") then
    Some ({| d_name := lit "."; d_type := DT_DIR |}
          :: {| d_name := lit ".."; d_type := DT_DIR |}
          :: docs_entries)
  else None.

Definition site (symlink_free : bool) (ptr_size : nat) (droot : string)
  (files : list (string * stat_t)) : Platform :=
  {| PATH_MAX := 4096;
     UH_BUF_SIZE := 4096;
     PTR_SIZE := ptr_size;
     conf := {| no_symlinks := symlink_free; docroot := lit droot;
                no_dirlists := false; error_handler := None |};
     realpath := fun p => match lookup p files with
                          | Some _ => (true, p)
                          | None => (false, [])
                          end;
     stat := fun p => lookup p files;
     uh_urldecode := urldecode;
     strptime_timegm := parse_rfc1123;
     strftime_gmtime := format_rfc1123;
     time_now := 1000000000;
     uh_mime_types := [(lit "txt", lit "text/plain");
                       (lit "html", lit "text/html")];
     open_rdonly := fun p => match lookup p files with
                             | Some _ => 3%Z
                             | None => (-1)%Z
                             end;
     scandir := listing;
     uh_auth_check := fun _ => (true, []) |}.

(** The default configuration on a 64-bit machine, and on a 32-bit one. *)
Definition lp64 : Platform := site false 8 "/www" files.
Definition ilp32 : Platform := site false 4 "/www" files.






(** The same site behind an authorization check that refuses everyone. *)
Definition guarded : Platform :=
  {| PATH_MAX := 4096;
     UH_BUF_SIZE := 4096;
     PTR_SIZE := 8;
     conf := @conf lp64;
     realpath := @realpath lp64;
     stat := @stat lp64;
     uh_urldecode := urldecode;
     strptime_timegm := parse_rfc1123;
     strftime_gmtime := format_rfc1123;
     time_now := 1000000000;
     uh_mime_types := @uh_mime_types lp64;
     open_rdonly := @open_rdonly lp64;
     scandir := listing;
     uh_auth_check := fun _ => (false, [HttpHeader 401 "Authorization Required"]) |}.

Definition index_names : list cstring := uh_index_add (lit "index.html") [].

(** What [uh_path_lookup] returns for [/docs/guide.txt] under [/www]. *)
Definition guide_info : path_info :=
  {| root := Some (lit "/www");
     phys := Some (lit "/www/docs/guide.txt");
     name := Some (lit "/docs/guide.txt");
     info := None; query := None; auth := None;
     redirected := false; pstat := guide |}.

(** What [uh_path_lookup] returns for [/docs/vault/], a directory that
    others may not read. *)
Definition vault_info : path_info :=
  {| root := Some (lit "/www");
     phys := Some (lit "/www/docs/vault/");
     name := Some (lit "/docs/vault/");
     info := None; query := None; auth := None;
     redirected := false; pstat := vault |}.

(** Request headers: If-Range next to If-Match, and next to an
    If-Modified-Since that names the modification time of the files. *)
Definition range_and_match : hdr_table :=
  set_hdr (set_hdr no_headers HDR_IF_RANGE (lit "Sun, 06 Nov 1994 08:49:37 GMT"))
          HDR_IF_MATCH (lit "*").

Definition range_and_since : hdr_table :=
  set_hdr (set_hdr no_headers HDR_IF_RANGE (lit "Sun, 06 Nov 1994 08:49:37 GMT"))
          HDR_IF_MODIFIED_SINCE (lit "Sun, 06 Nov 1994 08:49:37 GMT").

(** The same file after one more byte was written to it. *)
Definition guide_grown : stat_t := entry file_mode 19088744 2 784111778.

(** A failed read that was not interrupted (EIO), then end of file. *)
Definition failed_read : read_step :=
  {| rd_ret := -1; rd_errno := 5; rd_pending := 0 |}.

Definition end_of_file : read_step :=
  {| rd_ret := 0; rd_errno := 0; rd_pending := 0 |}.

Definition parent_entry : dirent := {| d_name := lit ".."; d_type := DT_DIR |}.

(** A read of 100 bytes that leaves 100 bytes queued, and a read that a
    signal interrupted. *)
Definition data_read : read_step :=
  {| rd_ret := 100; rd_errno := 0; rd_pending := 100 |}.

Definition interrupted_read : read_step :=
  {| rd_ret := -1; rd_errno := EINTR; rd_pending := 0 |}.

(** [strcmp] on two strings. *)
Fixpoint strcmp (a b : cstring) : Z :=
  match a, b with
  | [], [] => 0
  | [], _ :: _ => -1
  | _ :: _, [] => 1
  | x :: a', y :: b' =>
      if Ascii.eqb x y then strcmp a' b'
      else (Z.of_nat (nat_of_ascii x) - Z.of_nat (nat_of_ascii y))%Z
  end.

(** [alphasort] in the C locale, where [strcoll] is [strcmp]. *)
Definition alphasort (a b : dirent) : Z :=
  strcmp (cstr (d_name a)) (cstr (d_name b)).

(** The client that a run leaves. *)
Definition after {A : Type} (m : M A) (cl : client) : client :=
  match m cl with
  | Some (_, cl') => cl'
  | None => cl
  end.

Definition unmodified_since_yesterday : hdr_table :=
  set_hdr no_headers HDR_IF_UNMODIFIED_SINCE (lit "yesterday").

Definition match_any_of_two : hdr_table :=
  set_hdr no_headers HDR_IF_MATCH (lit "abc, *").

(** A canonical path of [PATH_MAX - 1] characters. *)
Definition long_path : cstring := slash :: repeat "a"%char 4094.

Definition request (m : http_method) (tb : hdr_table) (rds : list read_step)
  : client :=
  {| method := m; hdr := tb; sent := []; data_bytes := 0;
     file_fd := None; reads := rds |}.

End Demo.

(** ** The vocabulary of the specification *)

Module Spec.

(** The segments of a path: what lies between its separators. *)
Fixpoint split_slash (p : cstring) : list cstring :=
  match p with
  | [] => [[]]
  | c :: rest =>
      if Ascii.eqb c slash then [] :: split_slash rest
      else match split_slash rest with
           | s :: ss => (c :: s) :: ss
           | [] => [[c]]
           end
  end.

Definition join_slash (ss : list cstring) : cstring :=
  match ss with
  | [] => []
  | s :: rest => s ++ concat (map (cons slash) rest)
  end.

(** Neither empty (a repeated or trailing separator) nor [.] nor [..]. *)
Definition good_segment (s : cstring) : bool :=
  negb (list_eqb s []) && negb (list_eqb s (lit ".")) &&
  negb (list_eqb s (lit "..")).

Definition nonul_b (p : cstring) : bool := forallb (fun c => negb (is_nul c)) p.

(** "Already canonical": no [.] or [..] segments, no repeated separators,
    no trailing separator except the root itself. *)
Definition is_canonical (p : cstring) : bool :=
  nonul_b p &&
  (list_eqb p (lit "/") ||
   match split_slash p with
   | first :: rest =>
       (list_eqb first [] || good_segment first) &&
       forallb good_segment rest && negb (list_eqb p [])
   | [] => false
   end).

(** A character that is neither a separator nor the terminator. *)
Definition plain (c : ascii) : Prop := c <> slash /\ c <> NUL.

(** A segment that canonpath copies as it is. *)
Definition proper (s : cstring) : Prop :=
  Forall plain s /\ good_segment s = true.


(** The document root as the code reads it. *)
Definition droot {P : Platform} : cstring := cstr (docroot conf).


(** A header value with a comma or space in it. *)
Definition has_separator (h : list ascii) : Prop :=
  exists c, In c (cstr h) /\ is_separator c = true.

Definition separator_free (t : list ascii) : Prop :=
  Forall (fun c => is_separator c = false) (cstr t).

(** A comma/space-separated token list. *)
Fixpoint tokens_from (h : cstring) (cur : cstring) : list cstring :=
  match h with
  | [] => match cur with [] => [] | _ :: _ => [rev cur] end
  | c :: rest =>
      if is_separator c then
        match cur with
        | [] => tokens_from rest []
        | _ :: _ => rev cur :: tokens_from rest []
        end
      else tokens_from rest (c :: cur)
  end.

Definition tokens (h : cstring) : list cstring := tokens_from (cstr h) [].

(** Some member is the wildcard or the entity tag. *)
Definition member_matches (h tag : cstring) : bool :=
  existsb (fun t => list_eqb t (lit "*") || list_eqb t tag) (tokens h).

(** The status codes among the events sent. *)
Fixpoint status_codes (evs : list event) : list Z :=
  match evs with
  | [] => []
  | HttpHeader code _ :: rest => code :: status_codes rest
  | _ :: rest => status_codes rest
  end.

(** What a check sends when, run on its own for the request [cl], it
    fails; [None] when it passes. *)
Definition failure_of (check : M bool) (cl : client) : option (list event) :=
  match check (with_sent cl []) with
  | Some (false, cl') => Some (sent cl')
  | _ => None
  end.

(** The response of the first check, in the order of the list, that fails. *)
Fixpoint first_failure (checks : list (M bool)) (cl : client)
  : option (list event) :=
  match checks with
  | [] => None
  | check :: rest =>
      match failure_of check cl with
      | Some evs => Some evs
      | None => first_failure rest cl
      end
  end.

(** "Evaluated in this fixed order": If-Modified-Since, If-Match, If-Range,
    If-Unmodified-Since, If-None-Match. *)
Definition checks_in_order {P : Platform} (s : stat_t) : list (M bool) :=
  [uh_file_if_modified_since s; uh_file_if_match s; uh_file_if_range s;
   uh_file_if_unmodified_since s; uh_file_if_none_match s].

(** [!a || !b || ...] over a list of checks. *)
Fixpoint any_fails (checks : list (M bool)) : M bool :=
  match checks with
  | [] => ret false
  | check :: rest => or_not check (any_fails rest)
  end.

(** What [uh_file_response_ok_hdrs] sends. *)
Definition ok_hdrs_events {P : Platform} (s : option stat_t) : list event :=
  match s with
  | Some s =>
      [UstreamPrintf (lit "ETag: %s" ++ CRLF) [ArgStr (uh_file_mktag s)];
       UstreamPrintf (lit "Last-Modified: %s" ++ CRLF)
         [ArgStr (uh_file_unix2date (st_mtime s))]]
  | None => []
  end ++
  [UstreamPrintf (lit "Date: %s" ++ CRLF) [ArgStr (uh_file_unix2date time_now)]].

Definition events_304 {P : Platform} (s : stat_t) : list event :=
  HttpHeader 304 "Not Modified" :: ok_hdrs_events (Some s).

Definition events_412 : list event := [HttpHeader 412 "Precondition Failed"].

(** A check that reads one header and the method only: its verdict and what
    it sends are the same for any two requests that agree on them, and it
    leaves the other headers alone. *)
Definition local_check (idx : file_hdr) (check : M bool) : Prop :=
  forall cl, exists (ok : bool) (evs : list event),
    (ok = true -> evs = []) /\
    (ok = false -> status_codes evs = [304%Z] \/ status_codes evs = [412%Z]) /\
    forall cl2,
      hdr cl2 idx = hdr cl idx -> method cl2 = method cl ->
      exists tb2,
        (forall j, j <> idx -> tb2 j = hdr cl2 j) /\
        check cl2 = Some (ok, with_sent (with_hdr cl2 tb2) (sent cl2 ++ evs)).

(** The locals of [list_entries] once it has been through entry [f]. *)
Definition locals_after {P : Platform} (local_path : cstring) (l : list_locals)
  (f : dirent) : list_locals :=
  if is_self_entry (d_name f) then l
  else
    match stat (cstr local_path ++ cstr (d_name f)) with
    | None => l
    | Some _ =>
        if has_bit (d_type f) DT_DIR then l
        else {| suffix := []; mode := S_IROTH;
                type := uh_file_mime_lookup (cstr local_path ++ cstr (d_name f)) |}
    end.

(** The line, if any, that [list_entries] prints for entry [f], reached
    with the locals [l]: none for the entry named [.], none when [stat]
    fails or the permission bit is missing. *)
Definition line_of {P : Platform} (path local_path : cstring) (l : list_locals)
  (f : dirent) : list event :=
  if list_eqb (cstr (d_name f)) (lit ".") then []
  else
    match stat (cstr local_path ++ cstr (d_name f)) with
    | None => []
    | Some s =>
        let l' := locals_after local_path l f in
        if has_bit (st_mode s) (mode l')
        then [entry_line path (d_name f) l' s]
        else []
    end.


(** The text a format produces up to its first directive that is not
    [%s]. *)
Fixpoint rendered_head (fmt : cstring) (args : list printf_arg) : cstring :=
  match fmt with
  | [] => []
  | c :: rest =>
      if Ascii.eqb c "%"%char then
        match rest, args with
        | d :: rest', ArgStr s :: args' =>
            if Ascii.eqb d "s"%char then cstr s ++ rendered_head rest' args'
            else []
        | _, _ => []
        end
      else c :: rendered_head rest args
  end.

(** "An ordinary linked entry": a list item whose anchor leads to the
    listing's path followed by the entry's name and suffix, and shows the
    name; then the suffix, the date of modification and the type, up to
    where the size follows. *)
Definition linked_entry (path name suffix date type : cstring) : cstring :=
  lit "<li><strong><a href='" ++ path ++ name ++ suffix ++ lit "'>" ++
  name ++ lit "</a>" ++ suffix ++
  lit "</strong><br /><small>modified: " ++ date ++ lit "<br />" ++
  type ++ lit " - ".

(** The checks of [uh_file_data] with the header each one reads. *)
Definition indexed_checks {P : Platform} (s : stat_t) : list (file_hdr * M bool) :=
  [(HDR_IF_MODIFIED_SINCE, uh_file_if_modified_since s);
   (HDR_IF_MATCH, uh_file_if_match s);
   (HDR_IF_RANGE, uh_file_if_range s);
   (HDR_IF_UNMODIFIED_SINCE, uh_file_if_unmodified_since s);
   (HDR_IF_NONE_MATCH, uh_file_if_none_match s)].

(** A request that differs from [cl] at most in header buffers that the
    token loop has cut. *)
Definition same_request (cl cl0 : client) : Prop :=
  method cl0 = method cl /\ sent cl0 = sent cl /\
  data_bytes cl0 = data_bytes cl /\ file_fd cl0 = file_fd cl /\
  reads cl0 = reads cl.

(** *** Vocabulary of the further properties *)

(** Path normalisation on segments: empty and [.] segments are dropped, a
    [..] drops the segment kept last.  [kept] holds the segments kept so
    far, the last one first. *)
Fixpoint normalize (segs : list cstring) (kept : list cstring) : list cstring :=
  match segs with
  | [] => kept
  | s :: rest =>
      if list_eqb s [] || list_eqb s (lit ".") then normalize rest kept
      else if list_eqb s (lit "..") then normalize rest (tl kept)
      else normalize rest (s :: kept)
  end.

(** The absolute path of the kept segments; the root when there is none. *)
Definition path_of (kept : list cstring) : cstring :=
  match kept with
  | [] => [slash]
  | _ :: _ => concat (map (cons slash) (rev kept))
  end.

(** What the loop of canonpath has written for the segments kept so far,
    in reverse. *)
Definition written (kept : list cstring) : list ascii :=
  rev (concat (map (cons slash) (rev kept))).

(** The lengths handed to [uh_chunk_write]. *)
Fixpoint chunk_lengths (evs : list event) : list Z :=
  match evs with
  | [] => []
  | ChunkWrite len :: rest => len :: chunk_lengths rest
  | _ :: rest => chunk_lengths rest
  end.

(** A read that the loop of [file_write_cb] repeats. *)
Definition interrupted (rd : read_step) : bool :=
  (rd_ret rd <? 0)%Z && (rd_errno rd =? EINTR)%Z.

(** A status line or a header line. *)
Definition is_header_event (e : event) : bool :=
  match e with
  | HttpHeader _ _ | UstreamPrintf _ _ => true
  | _ => false
  end.

(** What [file_write_cb] sends: chunks of the body and the end of the
    request. *)
Definition is_body_event (e : event) : bool :=
  match e with
  | ChunkWrite _ | RequestDone => true
  | _ => false
  end.

(** A character after which [uh_file_mime_lookup] looks for an extension. *)
Definition starts_extension (c : ascii) : bool :=
  Ascii.eqb c dot || Ascii.eqb c slash.

(** The table entry that [ext] selects: the first one whose extension is
    [ext], letter case aside. *)
Definition type_of_extension (ext : cstring) (table : list (cstring * cstring))
  : cstring :=
  match find (fun e => strcasecmp_eq ext (fst e)) table with
  | Some e => snd e
  | None => lit "application/octet-stream"
  end.

(** What [uh_file_dirlist] sends. *)
Definition dirlist_events {P : Platform} (pi : path_info) : list event :=
  HttpHeader 200 "OK" :: ok_hdrs_events None ++
  [UstreamPrintf (lit "Content-Type: text/html" ++ CRLF ++ CRLF) [];
   ChunkPrintf
     (lit "<html><head><title>Index of %s</title></head><body><h1>Index of %s</h1><hr /><ol>")
     [ArgStr (or_empty (name pi)); ArgStr (or_empty (name pi))]] ++
  match scandir (or_empty (phys pi)) with
  | Some (f :: files) =>
      list_entries (f :: files) (or_empty (name pi)) (or_empty (phys pi))
  | _ => []
  end ++
  [ChunkPrintf (lit "</ol><hr /></body></html>") []; RequestDone].

Definition is_client_error (e : event) : bool :=
  match e with
  | ClientError _ _ _ => true
  | _ => false
  end.

(** What [uh_file_request] asks of a resolved path before it serves it,
    in bits of [st_mode]: S_IROTH set, and either S_IFREG set and [open]
    succeeding, or S_IFREG not set, S_IFDIR set and listings not turned
    off. *)
Definition servable {P : Platform} (pi : path_info) : bool :=
  let m := st_mode (pstat pi) in
  has_bit m S_IROTH &&
  (if has_bit m S_IFREG then negb (open_rdonly (or_empty (phys pi)) <? 0)%Z
   else has_bit m S_IFDIR && negb (no_dirlists conf)).

(** [d_type & DT_DIR] *)
Definition is_dir (f : dirent) : bool := has_bit (d_type f) DT_DIR.

(** The header value, read as one string, is the wildcard or the tag.
    [strlen(hdr)] is the loop bound, so an empty value is never compared. *)
Definition whole_value_matches (tag : cstring) (h : list ascii) : bool :=
  negb (strlen h =? 0) && (strcmp_eq h (lit "*") || strcmp_eq h tag).

(** What [send_file] sends ahead of the body. *)
Definition file_head_events {P : Platform} (pi : path_info) : list event :=
  HttpHeader 200 "OK" :: ok_hdrs_events (Some (pstat pi)) ++
  [UstreamPrintf (lit "Content-Type: %s" ++ CRLF)
     [ArgStr (uh_file_mime_lookup (or_empty (name pi)))];
   UstreamPrintf (lit "Content-Length: %i" ++ CRLF ++ CRLF)
     [ArgInt (st_size (pstat pi))]].

(** A check that returns, leaves all of the client but a header buffer and
    the stream alone, and sends header lines only. *)
Definition tidy_check (check : M bool) : Prop :=
  forall cl, exists (ok : bool) (tb : hdr_table) (evs : list event),
    check cl = Some (ok, with_sent (with_hdr cl tb) (sent cl ++ evs)) /\
    forallb is_header_event evs = true.



(** An index file name that [try_index] passes over: too long for what is
    left of [path_phys], or [stat] fails on it, or its mode lacks the
    S_IFREG bit. *)
Definition index_skipped {P : Platform} (dir : cstring) (len : Z) (idx : cstring)
  : Prop :=
  ((0 <= len)%Z /\ (len < Z.of_nat (strlen idx))%Z) \/
  match stat (dir ++ cstr idx) with
  | Some s => has_bit (st_mode s) S_IFREG = false
  | None => True
  end.

End Spec.
Import Spec.

(** * Properties *)

(** ** The code on a few requests *)

Example canonpath_collapses_dot_dot :
  @canon_rewrite Demo.lp64 (lit "/www/docs/../index.html") = lit "/www/index.html".
Proof. vm_compute. reflexivity. Qed.

Example canonpath_skips_repeated_and_trailing_slashes :
  @canon_rewrite Demo.lp64 (lit "/www//docs/./") = lit "/www/docs".
Proof. vm_compute. reflexivity. Qed.

Example canonpath_stops_at_the_root :
  @canon_rewrite Demo.lp64 (lit "/www/../../..") = lit "/".
Proof. vm_compute. reflexivity. Qed.

Example canonpath_keeps_dotted_names :
  @canon_rewrite Demo.lp64 (lit "/www/.hidden/...") = lit "/www/.hidden/...".
Proof. vm_compute. reflexivity. Qed.

Example lookup_of_a_file :
  lr_ret (@uh_path_lookup Demo.lp64 Demo.index_names (Some (lit "/docs/guide.txt")))
  = Some Demo.guide_info.
Proof. vm_compute. reflexivity. Qed.

Example lookup_with_encoded_separator :
  lr_ret (@uh_path_lookup Demo.lp64 Demo.index_names (Some (lit "/docs%2Fguide.txt")))
  = Some Demo.guide_info.
Proof. vm_compute. reflexivity. Qed.

Example lookup_refuses_traversal :
  lr_ret (@uh_path_lookup Demo.lp64 Demo.index_names (Some (lit "/../etc/passwd")))
  = None.
Proof. vm_compute. reflexivity. Qed.

Example lookup_refuses_encoded_traversal :
  lr_ret (@uh_path_lookup Demo.lp64 Demo.index_names
            (Some (lit "/docs/%2e%2e/%2e%2e/etc/passwd")))
  = None.
Proof. vm_compute. reflexivity. Qed.

Example lookup_refuses_bad_escape :
  lr_ret (@uh_path_lookup Demo.lp64 Demo.index_names (Some (lit "/docs/%zz")))
  = None.
Proof. vm_compute. reflexivity. Qed.

Example lookup_finds_the_index_file :
  option_map phys
    (lr_ret (@uh_path_lookup Demo.lp64 Demo.index_names (Some (lit "/"))))
  = Some (Some (lit "/www/index.html")).
Proof. vm_compute. reflexivity. Qed.

Example rfc1123_date_of_the_rfc :
  Demo.parse_rfc1123 (lit "Sun, 06 Nov 1994 08:49:37 GMT") = Some 784111777%Z /\
  Demo.format_rfc1123 784111777 = lit "Sun, 06 Nov 1994 08:49:37 GMT".
Proof. split; vm_compute; reflexivity. Qed.

Example listing_of_docs :
  @list_entries Demo.lp64
    ({| d_name := lit "."; d_type := DT_DIR |} :: Demo.parent_entry
     :: Demo.docs_entries)
    (lit "/docs/") (lit "/www/docs/")
  = [@entry_line Demo.lp64 (lit "/docs/") (lit "..") list_locals_init Demo.www;
     @entry_line Demo.lp64 (lit "/docs/") (lit "guide.txt")
       {| suffix := []; mode := S_IROTH; type := lit "text/plain" |} Demo.guide;
     @entry_line Demo.lp64 (lit "/docs/") (lit "notes.txt")
       {| suffix := []; mode := S_IROTH; type := lit "text/plain" |} Demo.notes].
Proof. vm_compute. reflexivity. Qed.

Example get_streams_the_file :
  option_map (fun r => status_codes (sent (snd r)))
    (@uh_file_data Demo.lp64 Demo.guide_info 3
       (Demo.request UH_HTTP_MSG_GET no_headers [Demo.end_of_file]))
  = Some [200%Z].
Proof. vm_compute. reflexivity. Qed.

(** ** C strings *)

Lemma list_eqb_eq (a b : list ascii) : list_eqb a b = true <-> a = b.
Proof.
  revert b; induction a as [|x a IH]; intros [|y b]; simpl; split;
    try congruence; try reflexivity.
  - intros H. apply andb_true_iff in H as [Hx Hab].
    apply Ascii.eqb_eq in Hx. apply IH in Hab. congruence.
  - intros H. injection H as -> ->. rewrite Ascii.eqb_refl. simpl.
    now apply IH.
Qed.

Lemma list_eqb_refl (a : list ascii) : list_eqb a a = true.
Proof. now apply list_eqb_eq. Qed.

Lemma list_eqb_neq (a b : list ascii) : list_eqb a b = false <-> a <> b.
Proof.
  split.
  - intros H E. apply list_eqb_eq in E. congruence.
  - intros H. destruct (list_eqb a b) eqn:E; [|reflexivity].
    apply list_eqb_eq in E. contradiction.
Qed.

Lemma is_nul_false (c : ascii) : c <> NUL -> is_nul c = false.
Proof. intros H. unfold is_nul. now apply Ascii.eqb_neq. Qed.

Lemma cstr_nonul (s : list ascii) : nonul s -> cstr s = s.
Proof.
  induction 1 as [|c s Hc _ IH]; simpl; [reflexivity|].
  rewrite (is_nul_false Hc). now rewrite IH.
Qed.

Lemma cstr_is_nonul (s : list ascii) : nonul (cstr s).
Proof.
  induction s as [|c s IH]; simpl; [constructor|].
  destruct (is_nul c) eqn:E; constructor; [|exact IH].
  intros ->. unfold is_nul in E. now rewrite Ascii.eqb_refl in E.
Qed.


Lemma nonul_b_spec (p : cstring) : nonul_b p = true -> nonul p.
Proof.
  unfold nonul_b, nonul. rewrite forallb_forall, Forall_forall.
  intros H c Hc ->. specialize (H _ Hc). discriminate.
Qed.

(** ** canonpath on canonical paths *)

Section CanonpathFacts.
Context {P : Platform}.

Lemma canon_loop_copy (seg rest : list ascii) :
  Forall plain seg ->
  forall off res,
    off + length seg <= PATH_MAX - 2 ->
    canon_loop off (seg ++ rest) res
    = canon_loop (off + length seg) rest (rev seg ++ res).
Proof.
  induction 1 as [|c seg [Hs Hn] _ IH]; intros off res Hlen; simpl in *.
  - now rewrite Nat.add_0_r.
  - rewrite (is_nul_false Hn).
    assert (Hlt : (off <? PATH_MAX - 2) = true) by (apply Nat.ltb_lt; lia).
    rewrite Hlt. simpl.
    apply Ascii.eqb_neq in Hs. rewrite Hs. simpl.
    rewrite IH by lia. rewrite <- app_assoc. simpl.
    f_equal. lia.
Qed.

Lemma slash_or_nul_plain (c : ascii) : plain c -> slash_or_nul c = false.
Proof.
  intros [Hs Hn]. unfold slash_or_nul.
  apply Ascii.eqb_neq in Hs. rewrite Hs. simpl. now apply is_nul_false.
Qed.

(** A separator in front of a proper segment is copied. *)
Lemma canon_loop_keeps_slash (seg rest : list ascii) (off : nat) (res : list ascii) :
  Forall plain seg ->
  good_segment seg = true ->
  off < PATH_MAX - 2 ->
  canon_loop off (slash :: seg ++ rest) res
  = canon_loop (S off) (seg ++ rest) (slash :: res).
Proof.
  intros Hplain Hgood Hoff.
  unfold good_segment in Hgood.
  apply andb_true_iff in Hgood as [Hgood Hdd].
  apply andb_true_iff in Hgood as [Hne Hd].
  apply negb_true_iff, list_eqb_neq in Hne, Hd, Hdd.
  apply Nat.ltb_lt in Hoff.
  destruct seg as [|c1 s1]; [contradiction|].
  inversion Hplain as [|? ? [Hs1 Hn1] Hp1]; subst.
  cbn [canon_loop app]. rewrite Hoff.
  change (is_nul slash) with false. cbn [orb negb].
  rewrite Ascii.eqb_refl. cbn [negb].
  apply Ascii.eqb_neq in Hs1. rewrite Hs1.
  destruct (Ascii.eqb c1 dot) eqn:Ec1; [|reflexivity].
  apply Ascii.eqb_eq in Ec1. subst c1.
  destruct s1 as [|c2 s2]; [now contradiction Hd|].
  inversion Hp1 as [|? ? Hc2 Hp2]; subst.
  cbn [app char_at nth]. rewrite (slash_or_nul_plain Hc2).
  destruct (Ascii.eqb c2 dot) eqn:Ec2; [|reflexivity].
  apply Ascii.eqb_eq in Ec2. subst c2.
  destruct s2 as [|c3 s3]; [now contradiction Hdd|].
  inversion Hp2 as [|? ? Hc3 _]; subst.
  cbn [app char_at nth]. rewrite (slash_or_nul_plain Hc3). reflexivity.
Qed.

Lemma canon_loop_segments (ss : list cstring) :
  Forall proper ss ->
  forall off res,
    off + length (concat (map (cons slash) ss)) <= PATH_MAX - 2 ->
    canon_loop off (concat (map (cons slash) ss)) res
    = rev (concat (map (cons slash) ss)) ++ res.
Proof.
  induction 1 as [|s ss [Hplain Hgood] _ IH]; intros off res Hlen.
  - reflexivity.
  - cbn [map concat] in *. rewrite <- app_comm_cons in *.
    cbn [length] in Hlen. rewrite length_app in Hlen.
    rewrite canon_loop_keeps_slash by (assumption || lia).
    rewrite canon_loop_copy by (assumption || lia).
    rewrite IH by lia.
    cbn [rev]. rewrite rev_app_distr. now rewrite <- !app_assoc.
Qed.

End CanonpathFacts.

Lemma split_slash_cons (p : cstring) :
  exists s ss, split_slash p = s :: ss.
Proof.
  induction p as [|c p [s [ss IH]]]; simpl; eauto.
  destruct (Ascii.eqb c slash); rewrite ?IH; eauto.
Qed.

Lemma join_split_slash (p : cstring) : join_slash (split_slash p) = p.
Proof.
  induction p as [|c p IH]; [reflexivity|].
  simpl. destruct (split_slash_cons p) as [s [ss E]].
  rewrite E in *. simpl in IH.
  destruct (Ascii.eqb c slash) eqn:Ec; simpl.
  - apply Ascii.eqb_eq in Ec. now rewrite IH, Ec.
  - now rewrite IH.
Qed.

Lemma split_slash_plain (p : cstring) :
  nonul p -> Forall (Forall plain) (split_slash p).
Proof.
  induction 1 as [|c p Hc _ IH]; simpl.
  - repeat constructor.
  - destruct (split_slash_cons p) as [s [ss E]]. rewrite E in *.
    inversion IH; subst.
    destruct (Ascii.eqb c slash) eqn:Ec.
    + repeat constructor; assumption.
    + apply Ascii.eqb_neq in Ec. repeat constructor; assumption.
Qed.

Lemma last_app_nonempty (a b : list ascii) (d : ascii) :
  b <> [] -> last (a ++ b) d = last b d.
Proof.
  intros Hb. induction a as [|x a IH]; [reflexivity|].
  simpl. rewrite IH. destruct (a ++ b) eqn:E; [|reflexivity].
  apply app_eq_nil in E as [_ ->]. contradiction.
Qed.

Lemma last_plain (s : cstring) : Forall plain s -> s <> [] -> last s NUL <> slash.
Proof.
  intros Hs Hne.
  destruct (exists_last Hne) as [q [c ->]].
  rewrite last_last. apply Forall_app in Hs as [_ Hc].
  inversion Hc as [|? ? [Hc' _] _]; subst. exact Hc'.
Qed.

Lemma good_segment_nonempty (s : cstring) : good_segment s = true -> s <> [].
Proof. destruct s; [discriminate | discriminate]. Qed.

Lemma last_segments (ss : list cstring) :
  Forall proper ss -> ss <> [] ->
  forall pre, last (pre ++ concat (map (cons slash) ss)) NUL <> slash.
Proof.
  intros Hss Hne pre.
  destruct (exists_last Hne) as [rest [s ->]].
  apply Forall_app in Hss as [_ Hs].
  inversion Hs as [|? ? [Hplain Hgood] _]; subst.
  rewrite map_app, concat_app. cbn [map concat]. rewrite app_nil_r.
  rewrite !app_assoc.
  change (slash :: s) with ([slash] ++ s). rewrite app_assoc.
  rewrite last_app_nonempty by now apply good_segment_nonempty.
  apply last_plain; [assumption | now apply good_segment_nonempty].
Qed.

Lemma canon_finish_rev (p : cstring) :
  p <> [] -> (length p = 1 \/ last p NUL <> slash) ->
  canon_finish (rev p) = p.
Proof.
  intros Hne Hlast.
  destruct (exists_last Hne) as [q [c ->]].
  rewrite rev_app_distr. cbn [rev app canon_finish].
  destruct (rev q) as [|x r] eqn:Eq.
  - apply (f_equal (@rev ascii)) in Eq. rewrite rev_involutive in Eq.
    now subst q.
  - assert (Hc : c <> slash).
    { destruct Hlast as [Hlen | Hl].
      - rewrite length_app in Hlen. cbn in Hlen.
        assert (length (rev q) = 0) by (rewrite length_rev; lia).
        rewrite Eq in *. discriminate.
      - now rewrite last_last in Hl. }
    apply Ascii.eqb_neq in Hc. rewrite Hc.
    rewrite <- Eq. cbn [rev]. now rewrite rev_involutive.
Qed.

Section CanonpathIdempotence.
Context {P : Platform}.

(** The string-rewrite pass leaves a canonical path that the loop reads to
    its end as it is. *)
Lemma canon_rewrite_canonical (p : cstring) :
  is_canonical p = true ->
  length p <= PATH_MAX - 2 ->
  canon_rewrite p = p.
Proof.
  intros Hcan Hlen. unfold is_canonical in Hcan.
  apply andb_true_iff in Hcan as [Hnn Hcan].
  apply nonul_b_spec in Hnn.
  pose proof (split_slash_plain Hnn) as Hplain.
  pose proof (join_split_slash p) as Hjoin.
  destruct (list_eqb p (lit "/")) eqn:Eroot.
  - apply list_eqb_eq in Eroot. subst p. cbn in Hlen.
    unfold canon_rewrite. cbn [lit list_ascii_of_string canon_loop].
    assert (Hlt : (0 <? PATH_MAX - 2) = true) by (apply Nat.ltb_lt; lia).
    rewrite Hlt. reflexivity.
  - cbn [orb] in Hcan.
    destruct (split_slash p) as [|first rest] eqn:E; [discriminate|].
    apply andb_true_iff in Hcan as [Hcan Hne].
    apply andb_true_iff in Hcan as [Hfirst Hrest].
    apply negb_true_iff, list_eqb_neq in Hne.
    apply Forall_cons_iff in Hplain as [Hpf Hpr].
    assert (Hproper : Forall proper rest).
    { rewrite forallb_forall in Hrest. rewrite Forall_forall in *.
      intros s Hs. split; auto. }
    cbn [join_slash] in Hjoin.
    unfold canon_rewrite. rewrite <- Hjoin at 1.
    rewrite <- Hjoin, length_app in Hlen.
    rewrite canon_loop_copy by (assumption || (cbn; lia)).
    rewrite canon_loop_segments by (assumption || (cbn; lia)).
    rewrite app_nil_r, <- rev_app_distr, Hjoin.
    apply canon_finish_rev; [assumption|]. right.
    destruct rest as [|s rest].
    + cbn [map concat] in Hjoin. rewrite app_nil_r in Hjoin. subst first.
      now apply last_plain.
    + rewrite <- Hjoin. now apply last_segments.
Qed.

End CanonpathIdempotence.

(** C8, as amended: in default (string-rewrite) mode, canonpath returns
    every already-canonical path (no [.] or [..] segments, no repeated
    separators, no trailing separator except the root itself) of at most
    [PATH_MAX - 2] characters unchanged. *)
Theorem canonpath_canonical_unchanged :
  forall (P : Platform) (p : cstring),
    no_symlinks conf = false ->
    is_canonical p = true ->
    length p <= PATH_MAX - 2 ->
    canonpath p = (true, p).
Proof.
  intros P p Hmode Hcan Hlen. unfold canonpath. rewrite Hmode.
  now rewrite canon_rewrite_canonical.
Qed.

Lemma canonpath_canonical_unchanged_witness :
  no_symlinks (@conf Demo.lp64) = false /\
  is_canonical (lit "/www/docs/guide.txt") = true /\
  length (lit "/www/docs/guide.txt") <= @PATH_MAX Demo.lp64 - 2 /\
  @canonpath Demo.lp64 (lit "/www/docs/guide.txt")
  = (true, lit "/www/docs/guide.txt").
Proof.
  split; [reflexivity|]. split; [reflexivity|].
  split; [apply Nat.leb_le; vm_compute; reflexivity|].
  apply (@canonpath_canonical_unchanged Demo.lp64).
  - reflexivity.
  - reflexivity.
  - apply Nat.leb_le. vm_compute. reflexivity.
Defined.

(** C8 as stated fails: a canonical path of [PATH_MAX - 1] characters comes
    back one character shorter. *)
Lemma canonpath_cuts_long_canonical_path :
  is_canonical Demo.long_path = true /\
  length Demo.long_path = @PATH_MAX Demo.lp64 - 1 /\
  @canonpath Demo.lp64 Demo.long_path <> (true, Demo.long_path).
Proof.
  split; [vm_compute; reflexivity|].
  split; [vm_compute; reflexivity|].
  assert (Hdiff : list_eqb (snd (@canonpath Demo.lp64 Demo.long_path))
                           Demo.long_path = false)
    by (vm_compute; reflexivity).
  intros H. apply (f_equal snd) in H.
  change (snd (true, Demo.long_path)) with Demo.long_path in H.
  apply list_eqb_eq in H. rewrite H in Hdiff.
  exact (Bool.diff_true_false Hdiff).
Qed.

(** ** uh_path_lookup stays below the document root *)



Section Containment.
Context {P : Platform}.



Lemma ensure_trailing_slash_last (p : cstring) :
  last (ensure_trailing_slash p) NUL = slash.
Proof.
  unfold ensure_trailing_slash.
  destruct (Ascii.eqb (last p NUL) slash) eqn:E.
  - now apply Ascii.eqb_eq.
  - apply last_last.
Qed.



Lemma canon_stage_nonul (uh_buf : list ascii) : nonul (fst (canon_stage uh_buf)).
Proof.
  unfold canon_stage.
  destruct (find_cut uh_buf _); cbn [fst]; [apply cstr_is_nonul | constructor].
Qed.


End Containment.

(** ** The redirect for a directory requested without trailing slash *)

Lemma nonul_app (a b : list ascii) : nonul a -> nonul b -> nonul (a ++ b).
Proof. unfold nonul. intros. now apply Forall_app. Qed.

Lemma nonul_skipn (n : nat) (l : list ascii) : nonul l -> nonul (skipn n l).
Proof.
  unfold nonul. intros H. rewrite <- (firstn_skipn n l) in H.
  now apply Forall_app in H.
Qed.

Lemma last_is_nth (l : list ascii) (d : ascii) : last l d = nth (length l - 1) l d.
Proof.
  induction l as [|x l IH]; [reflexivity|].
  destruct l as [|y l]; [reflexivity|].
  change (last (x :: y :: l) d) with (last (y :: l) d). rewrite IH.
  cbn [length]. rewrite !Nat.sub_succ, !Nat.sub_0_r. reflexivity.
Qed.

Lemma render_location (a b c : cstring) :
  nonul a -> nonul b -> nonul c ->
  render (lit "Location: %s%s%s" ++ CRLF ++ CRLF) [ArgStr a; ArgStr b; ArgStr c]
  = Some (lit "Location: " ++ a ++ b ++ c ++ CRLF ++ CRLF).
Proof.
  intros Ha Hb Hc. cbn. rewrite (cstr_nonul Ha), (cstr_nonul Hb), (cstr_nonul Hc).
  reflexivity.
Qed.

Section Redirect.
Context {P : Platform}.

Lemma decode_url_shape (url : cstring) (uh_buf : list ascii) (q : option cstring) :
  decode_url url = Some (uh_buf, q) ->
  (exists d, uh_buf = droot ++ d) /\
  match q with Some v => nonul v | None => True end.
Proof.
  unfold decode_url. fold droot.
  destruct (strchr url question) as [k|].
  - destruct (0 <? k).
    + destruct (uh_urldecode _ _) as [d|]; [|discriminate].
      intros H. injection H as <- <-. split; [now exists d|].
      destruct (is_nul _); [exact I | apply cstr_is_nonul].
    + intros H. injection H as <- <-. split.
      * exists []. now rewrite app_nil_r.
      * destruct (is_nul _); [exact I | apply cstr_is_nonul].
  - destruct (uh_urldecode _ _) as [d|]; [|discriminate].
    intros H. injection H as <- <-. split; [now exists d | exact I].
Qed.

Lemma uh_path_lookup_redirects (index_files : list cstring) (url : cstring)
  (uh_buf : list ascii) (q : option cstring) (path_phys : cstring) (s : stat_t) :
  decode_url url = Some (uh_buf, q) ->
  canon_stage uh_buf = (path_phys, []) ->
  within_docroot path_phys = true ->
  stat path_phys = Some s ->
  has_bit (st_mode s) S_IFREG = false ->
  has_bit (st_mode s) S_IFDIR = true ->
  ends_with_slash uh_buf = false ->
  uh_path_lookup index_files (Some url)
  = {| lr_events := [HttpHeader 302 "Found";
                     location_header (ensure_trailing_slash path_phys) q;
                     RequestDone];
       lr_path_phys := ensure_trailing_slash path_phys;
       lr_ret := Some {| root := None; phys := None; name := None;
                         info := None; query := q; auth := None;
                         redirected := true; pstat := s |} |}.
Proof.
  intros Hdec Hcanon Hin Hstat Hreg Hdir Hslash.
  unfold uh_path_lookup.
  rewrite Hdec, Hcanon, Hin. cbn [negb].
  rewrite Hstat, Hreg, Hdir, Hslash. reflexivity.
Qed.

(** A canonical request path that fits the loop of canonpath is its own
    physical path. *)
Lemma canon_stage_canonical (uh_buf : list ascii) :
  no_symlinks conf = false ->
  is_canonical uh_buf = true ->
  length uh_buf <= PATH_MAX - 2 ->
  canon_stage uh_buf = (uh_buf, []).
Proof.
  intros Hmode Hcan Hlen.
  assert (Hnn : nonul uh_buf).
  { unfold is_canonical in Hcan. apply andb_true_iff in Hcan as [Hnn _].
    now apply nonul_b_spec. }
  unfold canon_stage, strlen. rewrite (cstr_nonul Hnn).
  rewrite Nat.min_l by lia.
  assert (Hcut : find_cut uh_buf (length uh_buf) = Some (length uh_buf)).
  { destruct (length uh_buf) eqn:E; cbn [find_cut]; unfold char_at;
      rewrite nth_overflow by lia; reflexivity. }
  rewrite Hcut, firstn_all, skipn_all.
  unfold canonpath. rewrite Hmode. cbn [snd].
  rewrite (canon_rewrite_canonical _ Hcan Hlen), (cstr_nonul Hnn).
  unfold snprintf_s. now destruct (PATH_MAX - 1).
Qed.

Lemma no_trailing_slash (uh_buf : cstring) :
  nonul uh_buf ->
  ends_with_slash uh_buf = false ->
  uh_buf <> [] ->
  ensure_trailing_slash uh_buf = uh_buf ++ [slash].
Proof.
  intros Hnn Hslash Hne. unfold ends_with_slash, strlen in Hslash.
  rewrite (cstr_nonul Hnn) in Hslash.
  unfold ensure_trailing_slash. rewrite last_is_nth.
  destruct uh_buf as [|c rest]; [contradiction|].
  cbn [length Nat.eqb negb andb] in Hslash. unfold char_at in Hslash.
  cbn [length]. now rewrite Hslash.
Qed.

End Redirect.

(** The redirect in general: whenever no URL handler takes the request, the
    url decodes, and the canonical path (within the document root, no path
    info left) is a directory while the decoded path behind the document
    root lacks a trailing separator, the server sends exactly one 302 status
    line, one [Location] header and ends the request.  The header names the
    canonical physical path with the document root stripped and a trailing
    separator ensured, then, for a non-empty query string, [?] and that
    string verbatim.  In default mode, for a request path that is already
    canonical, that is the decoded request path plus one separator. *)
Theorem directory_redirect :
  forall (P : Platform) (index_files : list cstring)
         (handlers : list dispatch_handler) (tb : hdr_table) (url : cstring)
         (cl : client) (uh_buf : list ascii) (q : option cstring)
         (path_phys : cstring) (s : stat_t),
    dispatch_find handlers (Some url) None = Some None ->
    decode_url url = Some (uh_buf, q) ->
    canon_stage uh_buf = (path_phys, []) ->
    within_docroot path_phys = true ->
    stat path_phys = Some s ->
    has_bit (st_mode s) S_IFREG = false ->
    has_bit (st_mode s) S_IFDIR = true ->
    ends_with_slash uh_buf = false ->
    let target := skipn (length droot) (ensure_trailing_slash path_phys) in
    let qs := match q with Some v => lit "?" ++ v | None => [] end in
    (exists fmt args,
        uh_handle_request index_files handlers tb url cl
        = Some (tt, with_sent cl (sent cl ++ [HttpHeader 302 "Found";
                                              UstreamPrintf fmt args;
                                              RequestDone])) /\
        render fmt args = Some (lit "Location: " ++ target ++ qs ++ CRLF ++ CRLF)) /\
    (no_symlinks conf = false ->
     is_canonical uh_buf = true ->
     length uh_buf <= PATH_MAX - 2 ->
     target = skipn (length droot) uh_buf ++ [slash]).
Proof.
  intros P index_files handlers tb url cl uh_buf q path_phys s
         Hdisp Hdec Hcanon Hin Hstat Hreg Hdir Hslash target qs.
  destruct (decode_url_shape _ Hdec) as [[d Hd] Hq].
  split.
  - eexists. eexists. split.
    + unfold uh_handle_request. rewrite Hdisp.
      unfold __handle_file_request.
      rewrite (uh_path_lookup_redirects index_files _ Hdec Hcanon Hin Hstat
                 Hreg Hdir Hslash).
      unfold bind, emit_all, ret, location_header. cbn. reflexivity.
    + pose proof (canon_stage_nonul uh_buf) as Hnn. rewrite Hcanon in Hnn.
      cbn [fst] in Hnn.
      assert (Htarget : nonul target).
      { apply nonul_skipn. unfold ensure_trailing_slash.
        destruct (Ascii.eqb _ _); [assumption|].
        apply nonul_app; [assumption|]. repeat constructor. discriminate. }
      subst qs. destruct q as [v|].
      * rewrite render_location; [now rewrite <- !app_assoc | assumption | | assumption].
        repeat constructor. discriminate.
      * rewrite render_location; [reflexivity | assumption | constructor | constructor].
  - intros Hmode Hcan Hlen.
    rewrite (canon_stage_canonical _ Hmode Hcan Hlen) in Hcanon.
    injection Hcanon as <-.
    assert (Hnn : nonul uh_buf).
    { unfold is_canonical in Hcan. apply andb_true_iff in Hcan as [Hnn _].
      now apply nonul_b_spec. }
    assert (Hne : uh_buf <> []).
    { intros ->. vm_compute in Hcan. discriminate. }
    subst target. rewrite (no_trailing_slash Hnn Hslash Hne).
    rewrite skipn_app.
    replace (length droot - length uh_buf) with 0; [reflexivity|].
    subst uh_buf. rewrite length_app. lia.
Qed.

Lemma directory_redirect_witness :
  @decode_url Demo.lp64 (lit "/docs?x=1")
  = Some (lit "/www/docs", Some (lit "x=1")) /\
  @canon_stage Demo.lp64 (lit "/www/docs") = (lit "/www/docs", []) /\
  @stat Demo.lp64 (lit "/www/docs") = Some Demo.docs /\
  @ends_with_slash (lit "/www/docs") = false /\
  exists fmt args,
    @uh_handle_request Demo.lp64 Demo.index_names [] no_headers (lit "/docs?x=1")
      (Demo.request UH_HTTP_MSG_GET no_headers [])
    = Some (tt, with_sent (Demo.request UH_HTTP_MSG_GET no_headers [])
                  [HttpHeader 302 "Found"; UstreamPrintf fmt args; RequestDone]) /\
    render fmt args = Some (lit "Location: /docs/?x=1" ++ CRLF ++ CRLF).
Proof.
  split; [vm_compute; reflexivity|].
  split; [vm_compute; reflexivity|].
  split; [vm_compute; reflexivity|].
  split; [vm_compute; reflexivity|].
  destruct (@directory_redirect Demo.lp64 Demo.index_names [] no_headers
              (lit "/docs?x=1") (Demo.request UH_HTTP_MSG_GET no_headers [])
              (lit "/www/docs") (Some (lit "x=1")) (lit "/www/docs") Demo.docs)
    as [H _]; try (vm_compute; reflexivity).
  exact H.
Defined.

(** C5, the code where the claim fails: for [/docs/../docs?x=1], which
    resolves to the directory [/www/docs] and lacks a trailing separator,
    the server sends one 302 whose [Location] is [/docs/?x=1], the canonical
    path, and not the request path with a separator appended,
    [/docs/../docs/?x=1]. *)
Lemma redirect_names_canonical_path :
  @decode_url Demo.lp64 (lit "/docs/../docs?x=1")
  = Some (lit "/www/docs/../docs", Some (lit "x=1")) /\
  exists fmt args,
    lr_events (@uh_path_lookup Demo.lp64 Demo.index_names
                 (Some (lit "/docs/../docs?x=1")))
    = [HttpHeader 302 "Found"; UstreamPrintf fmt args; RequestDone] /\
    render fmt args = Some (lit "Location: /docs/?x=1" ++ CRLF ++ CRLF) /\
    render fmt args <> Some (lit "Location: /docs/../docs/?x=1" ++ CRLF ++ CRLF).
Proof.
  split; [vm_compute; reflexivity|].
  eexists. eexists. split; [vm_compute; reflexivity|].
  split; [vm_compute; reflexivity|].
  vm_compute. discriminate.
Qed.

(** ** The conditional checks *)

Lemma set_at_length (buf : list ascii) (i : nat) (c : ascii) :
  length (set_at buf i c) = length buf.
Proof.
  revert i; induction buf as [|x buf IH]; intros [|i]; simpl; auto.
Qed.

Lemma strlen_le_length (buf : list ascii) : strlen buf <= length buf.
Proof.
  unfold strlen. induction buf as [|x buf IH]; simpl; [lia|].
  destruct (is_nul x); simpl; lia.
Qed.

(** The token loop ends: with fuel beyond the characters left it returns. *)
Lemma match_loop_returns (tag : cstring) (fuel : nat) :
  forall (h : list ascii) (i p : nat),
    length h - i < fuel ->
    exists r, match_loop fuel tag h i p = Some r.
Proof.
  induction fuel as [|fuel IH]; intros h i p Hfuel; [lia|].
  cbn [match_loop].
  destruct (i <? strlen h) eqn:Hi; [|eauto].
  apply Nat.ltb_lt in Hi. pose proof (strlen_le_length h).
  destruct (is_separator (char_at h i)).
  - apply IH. rewrite set_at_length. lia.
  - destruct (_ || _); [eauto|]. apply IH. lia.
Qed.

Lemma run_match_loop_returns (idx : file_hdr) (tag : cstring) (h : list ascii)
  (cl : client) :
  exists found h',
    match_loop (S (length h)) tag h 0 0 = Some (found, h') /\
    run_match_loop idx tag h cl
    = Some (found, with_hdr cl (set_hdr (hdr cl) idx h')).
Proof.
  destruct (@match_loop_returns tag (S (length h)) h 0 0) as [[found h'] E]; [lia|].
  exists found, h'. split; [assumption|].
  unfold run_match_loop. rewrite E. reflexivity.
Qed.

Lemma client_eta (cl : client) :
  with_sent (with_hdr cl (hdr cl)) (sent cl ++ []) = cl.
Proof. destruct cl. cbn. now rewrite app_nil_r. Qed.

Section Checks.
Context {P : Platform}.

Lemma uh_file_response_ok_hdrs_run (s : option stat_t) (cl : client) :
  uh_file_response_ok_hdrs s cl
  = Some (tt, with_sent cl (sent cl ++ ok_hdrs_events s)).
Proof.
  unfold uh_file_response_ok_hdrs, bind, emit, ret.
  destruct s as [s|]; cbn; [|reflexivity].
  now rewrite <- !app_assoc.
Qed.

Lemma uh_file_response_304_run (s : stat_t) (cl : client) :
  uh_file_response_304 (Some s) cl
  = Some (tt, with_sent cl (sent cl ++ events_304 s)).
Proof.
  unfold uh_file_response_304, bind. cbn [emit].
  rewrite uh_file_response_ok_hdrs_run. cbn. now rewrite <- !app_assoc.
Qed.

Lemma uh_file_response_412_run (cl : client) :
  uh_file_response_412 cl = Some (tt, with_sent cl (sent cl ++ events_412)).
Proof. reflexivity. Qed.

Ltac verdict :=
  split; [first [reflexivity | discriminate] |
  split; [first [discriminate | (intros _; left; reflexivity)
                | (intros _; right; reflexivity)] |]].

Ltac passes cl2 :=
  exists (hdr cl2); split; [reflexivity | now rewrite client_eta].

Ltac fails_with cl2 :=
  exists (hdr cl2); split; [reflexivity | destruct cl2; reflexivity].

Lemma if_modified_since_local (s : stat_t) :
  local_check HDR_IF_MODIFIED_SINCE (uh_file_if_modified_since s).
Proof.
  intros cl. unfold uh_file_if_modified_since, bind, uh_file_header.
  destruct (hdr cl HDR_IF_MODIFIED_SINCE) as [h|].
  - destruct (uh_file_date2unix h >=? st_mtime s)%Z eqn:E.
    + exists false, (events_304 s). verdict.
      intros cl2 -> _. rewrite E, uh_file_response_304_run. fails_with cl2.
    + exists true, []. verdict.
      intros cl2 -> _. rewrite E. passes cl2.
  - exists true, []. verdict. intros cl2 -> _. passes cl2.
Qed.

Lemma if_range_local (s : stat_t) :
  local_check HDR_IF_RANGE (uh_file_if_range s).
Proof.
  intros cl. unfold uh_file_if_range, bind, uh_file_header.
  destruct (hdr cl HDR_IF_RANGE) as [h|].
  - exists false, events_412. verdict.
    intros cl2 -> _. fails_with cl2.
  - exists true, []. verdict. intros cl2 -> _. passes cl2.
Qed.

Lemma if_unmodified_since_local (s : stat_t) :
  local_check HDR_IF_UNMODIFIED_SINCE (uh_file_if_unmodified_since s).
Proof.
  intros cl. unfold uh_file_if_unmodified_since, bind, uh_file_header.
  destruct (hdr cl HDR_IF_UNMODIFIED_SINCE) as [h|].
  - destruct (uh_file_date2unix h <=? st_mtime s)%Z eqn:E.
    + exists false, events_412. verdict.
      intros cl2 -> _. rewrite E. fails_with cl2.
    + exists true, []. verdict.
      intros cl2 -> _. rewrite E. passes cl2.
  - exists true, []. verdict. intros cl2 -> _. passes cl2.
Qed.

Lemma set_hdr_other (tb : hdr_table) (idx j : file_hdr) (v : list ascii) :
  j <> idx -> set_hdr tb idx v j = tb j.
Proof.
  intros H. unfold set_hdr. destruct idx, j; try reflexivity; contradiction.
Qed.

Lemma if_match_local (s : stat_t) :
  local_check HDR_IF_MATCH (uh_file_if_match s).
Proof.
  intros cl. unfold uh_file_if_match, bind, uh_file_header.
  destruct (hdr cl HDR_IF_MATCH) as [h|].
  - destruct (run_match_loop_returns HDR_IF_MATCH (uh_file_mktag s) h cl)
      as [found [h' [Hloop _]]].
    destruct found.
    + exists true, []. verdict. intros cl2 -> _.
      destruct (run_match_loop_returns HDR_IF_MATCH (uh_file_mktag s) h cl2)
        as [found2 [h2 [Hloop2 ->]]].
      rewrite Hloop in Hloop2. injection Hloop2 as <- <-.
      exists (set_hdr (hdr cl2) HDR_IF_MATCH h'). split.
      * intros j Hj. now apply set_hdr_other.
      * destruct cl2. cbn. now rewrite app_nil_r.
    + exists false, events_412. verdict. intros cl2 -> _.
      destruct (run_match_loop_returns HDR_IF_MATCH (uh_file_mktag s) h cl2)
        as [found2 [h2 [Hloop2 ->]]].
      rewrite Hloop in Hloop2. injection Hloop2 as <- <-.
      exists (set_hdr (hdr cl2) HDR_IF_MATCH h'). split.
      * intros j Hj. now apply set_hdr_other.
      * destruct cl2. reflexivity.
  - exists true, []. verdict. intros cl2 -> _. passes cl2.
Qed.

Lemma if_none_match_local (s : stat_t) :
  local_check HDR_IF_NONE_MATCH (uh_file_if_none_match s).
Proof.
  intros cl. unfold uh_file_if_none_match, bind, uh_file_header.
  destruct (hdr cl HDR_IF_NONE_MATCH) as [h|].
  - destruct (run_match_loop_returns HDR_IF_NONE_MATCH (uh_file_mktag s) h cl)
      as [found [h' [Hloop _]]].
    destruct found.
    + exists false,
        (match method cl with
         | UH_HTTP_MSG_GET | UH_HTTP_MSG_HEAD => events_304 s
         | _ => events_412
         end).
      split; [discriminate|]. split.
      { intros _. destruct (method cl); [left | right | left]; reflexivity. }
      intros cl2 -> Hm.
      destruct (run_match_loop_returns HDR_IF_NONE_MATCH (uh_file_mktag s) h cl2)
        as [found2 [h2 [Hloop2 ->]]].
      rewrite Hloop in Hloop2. injection Hloop2 as <- <-.
      exists (set_hdr (hdr cl2) HDR_IF_NONE_MATCH h'). split.
      * intros j Hj. now apply set_hdr_other.
      * unfold get_method. cbn [method with_hdr]. rewrite <- Hm.
        destruct (method cl2).
        -- rewrite uh_file_response_304_run. destruct cl2. reflexivity.
        -- destruct cl2. reflexivity.
        -- rewrite uh_file_response_304_run. destruct cl2. reflexivity.
    + exists true, []. verdict. intros cl2 -> _.
      destruct (run_match_loop_returns HDR_IF_NONE_MATCH (uh_file_mktag s) h cl2)
        as [found2 [h2 [Hloop2 ->]]].
      rewrite Hloop in Hloop2. injection Hloop2 as <- <-.
      exists (set_hdr (hdr cl2) HDR_IF_NONE_MATCH h'). split.
      * intros j Hj. now apply set_hdr_other.
      * destruct cl2. cbn. now rewrite app_nil_r.
  - exists true, []. verdict. intros cl2 -> _. passes cl2.
Qed.

End Checks.

(** *** Checks in sequence *)

Lemma same_request_refl (cl : client) : same_request cl cl.
Proof. repeat split. Qed.

(** Running local checks on distinct headers one after the other gives what
    the first failing one gives on its own. *)
Lemma any_fails_first_failure (checks : list (file_hdr * M bool)) :
  NoDup (map fst checks) ->
  Forall (fun c => local_check (fst c) (snd c)) checks ->
  forall cl cur,
    method cur = method cl ->
    (forall c, In c checks -> hdr cur (fst c) = hdr cl (fst c)) ->
    match first_failure (map snd checks) cl with
    | Some evs =>
        (status_codes evs = [304%Z] \/ status_codes evs = [412%Z]) /\
        exists cur',
          any_fails (map snd checks) cur = Some (true, cur') /\
          sent cur' = sent cur ++ evs
    | None =>
        exists cur',
          any_fails (map snd checks) cur = Some (false, cur') /\
          same_request cur cur'
    end.
Proof.
  induction checks as [|[idx check] rest IH]; intros Hnodup Hlocal cl cur Hm Hhdr.
  - cbn. exists cur. split; [reflexivity | apply same_request_refl].
  - cbn [map fst snd] in *.
    apply NoDup_cons_iff in Hnodup as [Hfresh Hnodup].
    apply Forall_cons_iff in Hlocal as [Hcheck Hlocal]. cbn [fst snd] in Hcheck.
    destruct (Hcheck (with_sent cl [])) as [ok [evs [Hok [Hstatus Hrun]]]].
    destruct (Hrun (with_sent cl []) eq_refl eq_refl) as [tb0 [_ Halone]].
    destruct (Hrun cur) as [tb1 [Htb1 Hcur]].
    { exact (Hhdr (idx, check) (or_introl eq_refl)). }
    { exact Hm. }
    cbn [first_failure any_fails]. unfold failure_of, or_not, bind.
    rewrite Halone, Hcur.
    destruct ok.
    + rewrite (Hok eq_refl) in *.
      specialize (IH Hnodup Hlocal cl
                    (with_sent (with_hdr cur tb1) (sent cur ++ []))).
      destruct (first_failure (map snd rest) cl) as [evs'|].
      * destruct IH as [Hcodes [cur' [Hrest Hsent]]].
        { exact Hm. }
        { intros c Hc. cbn [hdr with_sent with_hdr].
          rewrite Htb1.
          - apply Hhdr. now right.
          - intros E. apply Hfresh. rewrite <- E. now apply in_map. }
        split; [exact Hcodes|].
        exists cur'. split; [exact Hrest|].
        rewrite Hsent. cbn. now rewrite app_nil_r.
      * destruct IH as [cur' [Hrest Hsame]].
        { exact Hm. }
        { intros c Hc. cbn [hdr with_sent with_hdr].
          rewrite Htb1.
          - apply Hhdr. now right.
          - intros E. apply Hfresh. rewrite <- E. now apply in_map. }
        exists cur'. split; [exact Hrest|].
        destruct Hsame as (H1 & H2 & H3 & H4 & H5). cbn in *.
        rewrite app_nil_r in H2. repeat split; assumption.
    + cbn [sent with_sent app]. split; [now apply Hstatus|].
      eexists. split; [reflexivity|]. reflexivity.
Qed.

Section FileData.
Context {P : Platform}.

Lemma indexed_checks_local (s : stat_t) :
  Forall (fun c => local_check (fst c) (snd c)) (indexed_checks s).
Proof.
  repeat constructor; cbn [fst snd].
  - apply if_modified_since_local.
  - apply if_match_local.
  - apply if_range_local.
  - apply if_unmodified_since_local.
  - apply if_none_match_local.
Qed.

Lemma indexed_checks_distinct (s : stat_t) : NoDup (map fst (indexed_checks s)).
Proof.
  cbn. repeat constructor; cbn; intuition discriminate.
Qed.

(** Whatever [send_file] sends starts with the 200 status line. *)
Lemma send_file_starts_200 (pi : path_info) (fd : Z) (cl : client) (r : unit * client) :
  send_file pi fd cl = Some r ->
  exists rest, sent (snd r) = sent cl ++ HttpHeader 200 "OK" :: rest.
Proof.
  unfold send_file, uh_file_response_200, bind.
  cbn [emit]. rewrite uh_file_response_ok_hdrs_run.
  cbn [emit get_method method with_sent sent].
  destruct (method cl).
  - unfold install_write_cb, file_write_cb.
    cbn [reads data_bytes with_transfer with_sent sent file_fd].
    destruct (write_loop (reads cl) (data_bytes cl)) as [[[evs pend] rest]|];
      [|discriminate].
    intros H. injection H as <-. cbn [snd sent with_transfer with_sent].
    rewrite <- !app_assoc. cbn [app]. eauto.
  - unfold install_write_cb, file_write_cb.
    cbn [reads data_bytes with_transfer with_sent sent file_fd].
    destruct (write_loop (reads cl) (data_bytes cl)) as [[[evs pend] rest]|];
      [|discriminate].
    intros H. injection H as <-. cbn [snd sent with_transfer with_sent].
    rewrite <- !app_assoc. cbn [app]. eauto.
  - intros H. injection H as <-. cbn [snd sent with_transfer with_sent].
    rewrite <- !app_assoc. cbn [app]. eauto.
Qed.

(** The loop of [file_write_cb] returns when the reads to come include an
    end of file. *)
Lemma write_loop_reaches_eof (rds : list read_step) :
  Exists (fun rd => rd_ret rd = 0%Z) rds ->
  forall pending, exists r, write_loop rds pending = Some r.
Proof.
  induction 1 as [rd rds Hz | rd rds _ IH]; intros pending;
    cbn [write_loop]; destruct (pending <? 256)%Z; eauto.
  - rewrite Hz. cbn. eauto.
  - destruct ((rd_ret rd <? 0)%Z && (rd_errno rd =? EINTR)%Z); [apply IH|].
    destruct (rd_ret rd =? 0)%Z; [eauto|].
    destruct (IH (rd_pending rd)) as [[[evs pending'] rest] ->]. eauto.
Qed.

(** [send_file] returns for a HEAD request, when the stream is full, and
    when the reads to come include an end of file. *)
Lemma send_file_returns (pi : path_info) (fd : Z) (cl : client) :
  method cl = UH_HTTP_MSG_HEAD \/ (256 <= data_bytes cl)%Z \/
  Exists (fun rd => rd_ret rd = 0%Z) (reads cl) ->
  exists r, send_file pi fd cl = Some r.
Proof.
  intros Hcond.
  assert (Hloop : method cl = UH_HTTP_MSG_HEAD \/
                  exists w, write_loop (reads cl) (data_bytes cl) = Some w).
  { destruct Hcond as [Hhead | [Hfull | Heof]]; [now left | right | right].
    - destruct (reads cl) as [|rd rds]; cbn [write_loop];
        apply Z.ltb_ge in Hfull; rewrite Hfull; eauto.
    - now apply write_loop_reaches_eof. }
  unfold send_file, uh_file_response_200, bind.
  cbn [emit]. rewrite uh_file_response_ok_hdrs_run.
  cbn [emit get_method method with_sent sent].
  destruct Hloop as [-> | [[[evs pend] rest] Hw]]; [unfold emit; now eauto|].
  destruct (method cl); [| |unfold emit; now eauto];
    unfold install_write_cb, file_write_cb;
    cbn [reads data_bytes with_transfer with_sent sent file_fd];
    rewrite Hw; eauto.
Qed.

End FileData.

(** [uh_file_data] against the first failing check. *)
Lemma uh_file_data_by_first_failure (P : Platform) (pi : path_info) (fd : Z)
  (cl : client) :
  match first_failure (checks_in_order (pstat pi)) cl with
  | Some evs =>
      (status_codes evs = [304%Z] \/ status_codes evs = [412%Z]) /\
      exists cl',
        uh_file_data pi fd cl = Some (tt, cl') /\
        sent cl' = sent cl ++ evs ++ [RequestDone; CloseFd fd]
  | None =>
      exists cl0,
        same_request cl cl0 /\ uh_file_data pi fd cl = send_file pi fd cl0
  end.
Proof.
  pose proof (any_fails_first_failure (indexed_checks_distinct (pstat pi))
                (indexed_checks_local (pstat pi)) cl cl eq_refl
                (fun _ _ => eq_refl)) as H.
  change (map snd (indexed_checks (pstat pi))) with (checks_in_order (pstat pi)) in H.
  change (any_fails (checks_in_order (pstat pi)))
    with (preconditions_fail (pstat pi)) in H.
  destruct (first_failure (checks_in_order (pstat pi)) cl) as [evs|].
  - destruct H as [Hcodes [cur' [Hrun Hsent]]]. split; [exact Hcodes|].
    unfold uh_file_data, bind. rewrite Hrun.
    eexists. split; [reflexivity|].
    cbn. rewrite Hsent. now rewrite <- !app_assoc.
  - destruct H as [cur' [Hrun Hsame]].
    exists cur'. split; [assumption|].
    unfold uh_file_data, bind. now rewrite Hrun.
Qed.

(** C6: the precondition checks of uh_file_data run in the fixed order
    If-Modified-Since, If-Match, If-Range, If-Unmodified-Since,
    If-None-Match.  The first check that fails on the request decides the
    response: uh_file_data sends what that check sends, a single 304 or 412
    status, and ends the request without running a later check.  Only when
    every check passes does it go on to [send_file], and then the request
    does get its 200: for a HEAD request, with a full stream, and whenever
    the reads to come include the end of the file, uh_file_data returns and
    what it has sent starts with the 200 status line; and whatever
    [send_file] returns starts with it. *)
Theorem preconditions_in_fixed_order :
  forall (P : Platform) (pi : path_info) (fd : Z) (cl : client),
    match first_failure (checks_in_order (pstat pi)) cl with
    | Some evs =>
        (status_codes evs = [304%Z] \/ status_codes evs = [412%Z]) /\
        exists cl',
          uh_file_data pi fd cl = Some (tt, cl') /\
          sent cl' = sent cl ++ evs ++ [RequestDone; CloseFd fd]
    | None =>
        (exists cl0,
            same_request cl cl0 /\
            uh_file_data pi fd cl = send_file pi fd cl0 /\
            forall r, send_file pi fd cl0 = Some r ->
                      exists rest, sent (snd r) = sent cl ++ HttpHeader 200 "OK" :: rest) /\
        (method cl = UH_HTTP_MSG_HEAD \/ (256 <= data_bytes cl)%Z \/
         Exists (fun rd => rd_ret rd = 0%Z) (reads cl) ->
         exists r rest,
           uh_file_data pi fd cl = Some r /\
           sent (snd r) = sent cl ++ HttpHeader 200 "OK" :: rest)
    end.
Proof.
  intros P pi fd cl.
  pose proof (uh_file_data_by_first_failure P pi fd cl) as H.
  destruct (first_failure (checks_in_order (pstat pi)) cl) as [evs|].
  - exact H.
  - destruct H as [cl0 [Hsame Hrun]].
    assert (Hstart : forall r, send_file pi fd cl0 = Some r ->
              exists rest, sent (snd r) = sent cl ++ HttpHeader 200 "OK" :: rest).
    { intros r Hr. destruct (send_file_starts_200 _ _ _ Hr) as [rest Hrest].
      exists rest. destruct Hsame as (_ & <- & _). exact Hrest. }
    split.
    + exists cl0. split; [assumption|]. split; assumption.
    + intros Hcond.
      destruct (@send_file_returns P pi fd cl0) as [r Hr].
      { destruct Hsame as (-> & _ & -> & _ & ->). exact Hcond. }
      destruct (Hstart r Hr) as [rest Hrest].
      exists r, rest. split; [now rewrite Hrun | exact Hrest].
Qed.

Lemma preconditions_in_fixed_order_witness :
  exists r rest,
    @uh_file_data Demo.lp64 Demo.guide_info 3
      (Demo.request UH_HTTP_MSG_GET no_headers [Demo.data_read; Demo.end_of_file])
    = Some r /\
    sent (snd r) = HttpHeader 200 "OK" :: rest.
Proof.
  pose proof (@preconditions_in_fixed_order Demo.lp64 Demo.guide_info 3
                (Demo.request UH_HTTP_MSG_GET no_headers
                   [Demo.data_read; Demo.end_of_file])) as H.
  assert (Hnone : first_failure (@checks_in_order Demo.lp64 (pstat Demo.guide_info))
                    (Demo.request UH_HTTP_MSG_GET no_headers
                       [Demo.data_read; Demo.end_of_file]) = None)
    by (vm_compute; reflexivity).
  rewrite Hnone in H. destruct H as [_ Htotal].
  apply Htotal. right. right.
  apply Exists_cons_tl. apply Exists_cons_hd. reflexivity.
Defined.

(** *** If-Range *)

Section IfRange.
Context {P : Platform}.

Lemma failure_of_if_match (s : stat_t) (cl : client) :
  failure_of (uh_file_if_match s) cl = None \/
  failure_of (uh_file_if_match s) cl = Some events_412.
Proof.
  unfold failure_of, uh_file_if_match, bind, uh_file_header.
  cbn [hdr with_sent].
  destruct (hdr cl HDR_IF_MATCH) as [h|]; [|now left].
  destruct (run_match_loop_returns HDR_IF_MATCH (uh_file_mktag s) h
              (with_sent cl [])) as [found [h' [_ ->]]].
  destruct found; [now left | now right].
Qed.

Lemma failure_of_if_range (s : stat_t) (cl : client) (v : list ascii) :
  hdr cl HDR_IF_RANGE = Some v ->
  failure_of (uh_file_if_range s) cl = Some events_412.
Proof.
  intros H. unfold failure_of, uh_file_if_range, bind, uh_file_header.
  cbn [hdr with_sent]. now rewrite H.
Qed.

Lemma failure_of_if_modified_since (s : stat_t) (cl : client) :
  match hdr cl HDR_IF_MODIFIED_SINCE with
  | Some date => (uh_file_date2unix date <? st_mtime s)%Z = true
  | None => True
  end ->
  failure_of (uh_file_if_modified_since s) cl = None.
Proof.
  intros H. unfold failure_of, uh_file_if_modified_since, bind, uh_file_header.
  cbn [hdr with_sent].
  destruct (hdr cl HDR_IF_MODIFIED_SINCE) as [date|]; [|reflexivity].
  apply Z.ltb_lt in H.
  destruct (uh_file_date2unix date >=? st_mtime s)%Z eqn:E; [|reflexivity].
  apply Z.geb_le in E. lia.
Qed.

End IfRange.

(** C2, as amended: for a request on a resolved regular file that carries
    If-Range, the outcome is 412 Precondition Failed whenever the
    If-Modified-Since check - which runs first - passes, that is when that
    header is absent or its date lies before the modification time;
    whatever the other conditional headers are.  (When If-Modified-Since
    fails, the response is its 304.) *)
Theorem if_range_gives_412 :
  forall (P : Platform) (pi : path_info) (fd : Z) (cl : client) (v : list ascii),
    hdr cl HDR_IF_RANGE = Some v ->
    match hdr cl HDR_IF_MODIFIED_SINCE with
    | Some date => (uh_file_date2unix date <? st_mtime (pstat pi))%Z = true
    | None => True
    end ->
    exists cl',
      uh_file_data pi fd cl = Some (tt, cl') /\
      sent cl' = sent cl ++ [HttpHeader 412 "Precondition Failed";
                             RequestDone; CloseFd fd].
Proof.
  intros P pi fd cl v Hrange Hims.
  pose proof (uh_file_data_by_first_failure P pi fd cl) as H.
  cbn [first_failure checks_in_order] in H.
  rewrite (failure_of_if_modified_since _ _ Hims) in H.
  rewrite (failure_of_if_range _ _ Hrange) in H.
  destruct (failure_of_if_match (pstat pi) cl) as [E | E]; rewrite E in H;
    destruct H as [_ H]; exact H.
Qed.

Lemma if_range_gives_412_witness :
  hdr (Demo.request UH_HTTP_MSG_GET Demo.range_and_match []) HDR_IF_RANGE
  = Some (lit "Sun, 06 Nov 1994 08:49:37 GMT") /\
  exists cl',
    @uh_file_data Demo.lp64 Demo.guide_info 3
      (Demo.request UH_HTTP_MSG_GET Demo.range_and_match []) = Some (tt, cl') /\
    sent cl' = [HttpHeader 412 "Precondition Failed"; RequestDone; CloseFd 3].
Proof.
  split; [reflexivity|].
  apply (@if_range_gives_412 Demo.lp64 Demo.guide_info 3
           (Demo.request UH_HTTP_MSG_GET Demo.range_and_match [])
           (lit "Sun, 06 Nov 1994 08:49:37 GMT")).
  - reflexivity.
  - exact I.
Defined.

(** C2 as stated fails: with If-Range and an If-Modified-Since date that is
    not before the modification time, the response is 304. *)
Lemma if_range_after_not_modified_gives_304 :
  hdr (Demo.request UH_HTTP_MSG_GET Demo.range_and_since []) HDR_IF_RANGE
  = Some (lit "Sun, 06 Nov 1994 08:49:37 GMT") /\
  option_map (fun r => status_codes (sent (snd r)))
    (@uh_file_data Demo.lp64 Demo.guide_info 3
       (Demo.request UH_HTTP_MSG_GET Demo.range_and_since []))
  = Some [304%Z].
Proof. split; vm_compute; reflexivity. Qed.

(** *** Unparsable dates *)

(** C3, the code where the claim fails: an If-Unmodified-Since header whose
    value strptime rejects is read as time 0, and the check answers 412 for
    every file whose modification time is not negative, instead of
    treating the header as absent. *)
Theorem unparsable_if_unmodified_since_gives_412 :
  forall (P : Platform) (s : stat_t) (cl : client) (date : list ascii),
    hdr cl HDR_IF_UNMODIFIED_SINCE = Some date ->
    strptime_timegm (cstr date) = None ->
    (0 <= st_mtime s)%Z ->
    uh_file_if_unmodified_since s cl
    = Some (false, with_sent cl (sent cl ++ [HttpHeader 412 "Precondition Failed"])).
Proof.
  intros P s cl date Hhdr Hparse Hmtime.
  unfold uh_file_if_unmodified_since, bind, uh_file_header. rewrite Hhdr.
  unfold uh_file_date2unix. rewrite Hparse.
  apply Z.leb_le in Hmtime. rewrite Hmtime. reflexivity.
Qed.

Lemma unparsable_if_unmodified_since_gives_412_witness :
  @strptime_timegm Demo.lp64 (lit "yesterday") = None /\
  @uh_file_if_unmodified_since Demo.lp64 Demo.guide
    (Demo.request UH_HTTP_MSG_GET Demo.unmodified_since_yesterday [])
  = Some (false,
          with_sent (Demo.request UH_HTTP_MSG_GET Demo.unmodified_since_yesterday [])
            [HttpHeader 412 "Precondition Failed"]).
Proof.
  split; [reflexivity|].
  apply (@unparsable_if_unmodified_since_gives_412 Demo.lp64 Demo.guide
           (Demo.request UH_HTTP_MSG_GET Demo.unmodified_since_yesterday [])
           (lit "yesterday")).
  - reflexivity.
  - reflexivity.
  - vm_compute. discriminate.
Defined.

(** The sibling check does treat such a header as absent, for every file
    modified after the epoch. *)
Lemma unparsable_if_modified_since_passes (P : Platform) (s : stat_t)
  (cl : client) (date : list ascii) :
  hdr cl HDR_IF_MODIFIED_SINCE = Some date ->
  strptime_timegm (cstr date) = None ->
  (0 < st_mtime s)%Z ->
  uh_file_if_modified_since s cl = Some (true, cl).
Proof.
  intros Hhdr Hparse Hmtime.
  unfold uh_file_if_modified_since, bind, uh_file_header. rewrite Hhdr.
  unfold uh_file_date2unix. rewrite Hparse.
  destruct (0 >=? st_mtime s)%Z eqn:E; [|reflexivity].
  apply Z.geb_le in E. lia.
Qed.

(** *** If-Match *)

Lemma char_at_cstr (h : list ascii) (k : nat) :
  k < strlen h -> char_at (cstr h) k = char_at h k.
Proof.
  unfold strlen, char_at. revert k.
  induction h as [|c h IH]; intros k Hk; cbn in *; [lia|].
  destruct (is_nul c); cbn in *; [lia|].
  destruct k as [|k]; [reflexivity|]. apply IH. lia.
Qed.

Lemma strlen_set_at_nul (h : list ascii) (i : nat) :
  i < strlen h -> strlen (set_at h i NUL) = i.
Proof.
  unfold strlen. revert i.
  induction h as [|c h IH]; intros i Hi; cbn in *; [lia|].
  destruct (is_nul c) eqn:Ec; cbn in *; [lia|].
  destruct i as [|i]; cbn; [reflexivity|].
  rewrite Ec. cbn. f_equal. apply IH. lia.
Qed.

Lemma strcmp_separator (h t : list ascii) :
  has_separator h -> separator_free t -> strcmp_eq h t = false.
Proof.
  intros [c [Hin Hsep]] Hfree. unfold strcmp_eq.
  apply list_eqb_neq. intros E. rewrite E in Hin.
  unfold separator_free in Hfree. rewrite Forall_forall in Hfree.
  rewrite (Hfree _ Hin) in Hsep. discriminate.
Qed.

(** Once the header holds a separator, the loop never reports a match: the
    comparisons before the separator see the whole header, and cutting the
    header at the separator ends the loop. *)
Lemma match_loop_with_separator (tag : cstring) (fuel : nat) :
  forall (h : list ascii) (i : nat),
    length h - i < fuel ->
    strcmp_eq h (lit "*") = false ->
    strcmp_eq h tag = false ->
    (exists k, i <= k /\ k < strlen h /\ is_separator (char_at h k) = true) ->
    exists h', match_loop fuel tag h i 0 = Some (false, h').
Proof.
  induction fuel as [|fuel IH]; intros h i Hfuel Hstar Htag [k [Hik [Hk Hsep]]];
    [lia|].
  cbn [match_loop].
  assert (Hi : (i <? strlen h) = true) by (apply Nat.ltb_lt; lia).
  rewrite Hi. apply Nat.ltb_lt in Hi. pose proof (strlen_le_length h).
  destruct (is_separator (char_at h i)) eqn:Esep.
  - destruct fuel as [|fuel]; [lia|]. cbn [match_loop].
    rewrite (strlen_set_at_nul _ Hi).
    assert (Hout : (S (S i) <? i) = false) by (apply Nat.ltb_ge; lia).
    rewrite Hout. eauto.
  - cbn [skipn]. rewrite Hstar, Htag. cbn [orb].
    apply IH; try assumption; [lia|].
    exists k. repeat split; try assumption.
    destruct (Nat.eq_dec i k) as [-> | Hne]; [congruence | lia].
Qed.

Lemma has_separator_index (h : list ascii) :
  has_separator h ->
  exists k, 0 <= k /\ k < strlen h /\ is_separator (char_at h k) = true.
Proof.
  intros [c [Hin Hsep]].
  destruct (In_nth _ _ NUL Hin) as [k [Hk Hnth]].
  exists k. split; [lia|]. split; [exact Hk|].
  rewrite <- char_at_cstr by exact Hk. unfold char_at. now rewrite Hnth.
Qed.

(** The characters an entity tag is made of. *)
Lemma hex_digit_in (n : Z) : In (hex_digit n) (lit "0123456789abcdef").
Proof.
  unfold hex_digit.
  destruct (nth_in_or_default (Z.to_nat n) (lit "0123456789abcdef") "0"%char)
    as [Hin | ->]; [exact Hin | now left].
Qed.

Lemma hex_digits_in (fuel : nat) :
  forall n acc,
    Forall (fun c => In c (lit "0123456789abcdef")) acc ->
    Forall (fun c => In c (lit "0123456789abcdef")) (hex_digits fuel n acc).
Proof.
  induction fuel as [|fuel IH]; intros n acc Hacc; cbn [hex_digits];
    [assumption|].
  destruct (n / 16 =? 0)%Z.
  - constructor; [apply hex_digit_in | assumption].
  - apply IH. constructor; [apply hex_digit_in | assumption].
Qed.

Lemma Forall_take (A : Type) (Q : A -> Prop) (n : nat) (l : list A) :
  Forall Q l -> Forall Q (firstn n l).
Proof.
  intros H. rewrite <- (firstn_skipn n l) in H. now apply Forall_app in H.
Qed.

Lemma uh_file_mktag_chars (P : Platform) (s : stat_t) :
  Forall (fun c => In c (dquote :: lit "0123456789abcdef-")) (uh_file_mktag s).
Proof.
  assert (Hdigits : forall n,
             Forall (fun c => In c (dquote :: lit "0123456789abcdef-")) (fmt_x n)).
  { intros n. unfold fmt_x.
    pose proof (@hex_digits_in 8 n [] (Forall_nil _)) as H.
    rewrite Forall_forall in *. intros c Hc. specialize (H c Hc).
    right. change (lit "0123456789abcdef-") with (lit "0123456789abcdef" ++ lit "-").
    apply in_or_app. now left. }
  assert (Hquote : In dquote (dquote :: lit "0123456789abcdef-")) by now left.
  assert (Hdash : In "-"%char (dquote :: lit "0123456789abcdef-")).
  { right. change (lit "0123456789abcdef-") with (lit "0123456789abcdef" ++ lit "-").
    apply in_or_app. right. now left. }
  unfold uh_file_mktag. apply Forall_take. unfold tag_text.
  repeat (apply Forall_app; split); try apply Hdigits;
    (constructor; [assumption | constructor]).
Qed.

Lemma tag_char_cases (Q : ascii -> Prop) :
  Forall Q (dquote :: lit "0123456789abcdef-") ->
  forall (P : Platform) (s : stat_t), Forall Q (uh_file_mktag s).
Proof.
  intros HQ P s. pose proof (uh_file_mktag_chars P s) as H.
  rewrite Forall_forall in *. auto.
Qed.

Lemma uh_file_mktag_nonul (P : Platform) (s : stat_t) : nonul (uh_file_mktag s).
Proof.
  apply tag_char_cases. repeat constructor; discriminate.
Qed.

Lemma uh_file_mktag_no_separator (P : Platform) (s : stat_t) :
  separator_free (uh_file_mktag s).
Proof.
  unfold separator_free. rewrite (cstr_nonul (uh_file_mktag_nonul P s)).
  apply tag_char_cases. repeat constructor.
Qed.

(** A value with a comma or space in it is refused, whatever its members. *)
Lemma uh_file_if_match_with_separator (P : Platform) (s : stat_t) (cl : client)
  (h : list ascii) :
  hdr cl HDR_IF_MATCH = Some h ->
  has_separator h ->
  exists h',
    uh_file_if_match s cl
    = Some (false,
            with_sent (with_hdr cl (set_hdr (hdr cl) HDR_IF_MATCH h'))
              (sent cl ++ [HttpHeader 412 "Precondition Failed"])).
Proof.
  intros Hhdr Hsep.
  destruct (@match_loop_with_separator (uh_file_mktag s) (S (length h)) h 0)
    as [h' Hloop].
  - lia.
  - apply strcmp_separator; [assumption|]. repeat constructor.
  - apply strcmp_separator; [assumption | apply uh_file_mktag_no_separator].
  - now apply has_separator_index.
  - exists h'.
    unfold uh_file_if_match, bind, uh_file_header. rewrite Hhdr.
    unfold run_match_loop. rewrite Hloop. reflexivity.
Qed.

(** Without a separator the loop compares the one member there is. *)
Lemma match_loop_no_match (tag : cstring) (fuel : nat) :
  forall (h : list ascii) (i : nat),
    length h - i < fuel ->
    (i < strlen h ->
     strcmp_eq h (lit "*") = false /\ strcmp_eq h tag = false) ->
    (forall k, i <= k -> k < strlen h -> is_separator (char_at h k) = false) ->
    match_loop fuel tag h i 0 = Some (false, h).
Proof.
  induction fuel as [|fuel IH]; intros h i Hfuel Hcmp Hfree; [lia|].
  cbn [match_loop].
  destruct (i <? strlen h) eqn:Hi; [|reflexivity].
  apply Nat.ltb_lt in Hi. pose proof (strlen_le_length h).
  rewrite (Hfree i) by lia.
  destruct (Hcmp Hi) as [Hstar Htag]. cbn [skipn]. rewrite Hstar, Htag.
  cbn [orb]. apply IH; [lia | tauto |].
  intros k Hk. apply Hfree. lia.
Qed.

Lemma tokens_from_plain (rest cur : cstring) :
  Forall (fun c => is_separator c = false) rest ->
  tokens_from rest cur
  = match rev cur ++ rest with
    | [] => []
    | _ :: _ => [rev cur ++ rest]
    end.
Proof.
  revert cur. induction rest as [|c rest IH]; intros cur Hfree.
  - cbn [tokens_from]. rewrite app_nil_r.
    destruct cur as [|x cur]; [reflexivity|].
    destruct (rev (x :: cur)) eqn:E; [|reflexivity].
    apply (f_equal (@length ascii)) in E. rewrite length_rev in E. discriminate.
  - apply Forall_cons_iff in Hfree as [Hc Hrest].
    cbn [tokens_from]. rewrite Hc, (IH _ Hrest). cbn [rev].
    now rewrite <- app_assoc.
Qed.

(** The part of the claim that holds: a value none of whose members is the
    wildcard or the entity tag is refused. *)
Lemma uh_file_if_match_without_member (P : Platform) (s : stat_t) (cl : client)
  (h : list ascii) :
  hdr cl HDR_IF_MATCH = Some h ->
  member_matches h (uh_file_mktag s) = false ->
  exists h',
    uh_file_if_match s cl
    = Some (false,
            with_sent (with_hdr cl (set_hdr (hdr cl) HDR_IF_MATCH h'))
              (sent cl ++ [HttpHeader 412 "Precondition Failed"])).
Proof.
  intros Hhdr Hmember.
  destruct (existsb is_separator (cstr h)) eqn:Esep.
  - apply (@uh_file_if_match_with_separator P s cl h); [assumption|].
    apply existsb_exists in Esep. exact Esep.
  - assert (Hfree : Forall (fun c => is_separator c = false) (cstr h)).
    { rewrite Forall_forall. intros c Hc.
      destruct (is_separator c) eqn:E; [|reflexivity].
      assert (existsb is_separator (cstr h) = true)
        by (apply existsb_exists; eauto).
      congruence. }
    exists h.
    unfold uh_file_if_match, bind, uh_file_header. rewrite Hhdr.
    unfold run_match_loop.
    rewrite match_loop_no_match; [reflexivity | lia | |].
    + intros Hlen. unfold member_matches, tokens in Hmember.
      rewrite (tokens_from_plain _ Hfree) in Hmember. cbn [rev app] in Hmember.
      unfold strlen in Hlen.
      destruct (cstr h) as [|c rest] eqn:E; [cbn in Hlen; lia|].
      cbn [existsb] in Hmember. rewrite orb_false_r in Hmember.
      apply orb_false_iff in Hmember as [Hstar Htag].
      unfold strcmp_eq. rewrite E.
      rewrite (cstr_nonul (uh_file_mktag_nonul P s)).
      split; assumption.
    + intros k _ Hk. rewrite <- char_at_cstr by exact Hk.
      rewrite Forall_forall in Hfree. apply Hfree.
      unfold char_at. apply nth_In. exact Hk.
Qed.

(** C7, the code where the claim fails: as soon as the If-Match value holds
    a comma or space - so for every list of more than one member, whatever
    the members are - uh_file_if_match answers 412. *)
Theorem if_match_list_gives_412 :
  forall (P : Platform) (s : stat_t) (cl : client) (h : list ascii),
    hdr cl HDR_IF_MATCH = Some h ->
    has_separator h ->
    exists h',
      uh_file_if_match s cl
      = Some (false,
              with_sent (with_hdr cl (set_hdr (hdr cl) HDR_IF_MATCH h'))
                (sent cl ++ [HttpHeader 412 "Precondition Failed"])).
Proof.
  intros P s cl h Hhdr Hsep.
  destruct (@uh_file_if_match_with_separator P s cl h Hhdr Hsep) as [h' Hrun].
  exists h'. exact Hrun.
Qed.

Lemma if_match_list_gives_412_witness :
  member_matches (lit "abc, *") (@uh_file_mktag Demo.lp64 Demo.guide) = true /\
  exists h',
    @uh_file_if_match Demo.lp64 Demo.guide
      (Demo.request UH_HTTP_MSG_GET Demo.match_any_of_two [])
    = Some (false,
            with_sent
              (with_hdr (Demo.request UH_HTTP_MSG_GET Demo.match_any_of_two [])
                 (set_hdr Demo.match_any_of_two HDR_IF_MATCH h'))
              [HttpHeader 412 "Precondition Failed"]).
Proof.
  split; [vm_compute; reflexivity|].
  apply (@if_match_list_gives_412 Demo.lp64 Demo.guide
           (Demo.request UH_HTTP_MSG_GET Demo.match_any_of_two [])
           (lit "abc, *")).
  - reflexivity.
  - exists ","%char. split; [|reflexivity]. vm_compute. tauto.
Defined.

Lemma if_match_wildcard_passes (P : Platform) (s : stat_t) (cl : client)
  (h : list ascii) :
  hdr cl HDR_IF_MATCH = Some h ->
  cstr h = lit "*" ->
  uh_file_if_match s cl
  = Some (true, with_hdr cl (set_hdr (hdr cl) HDR_IF_MATCH h)).
Proof.
  intros Hhdr Hstar.
  unfold uh_file_if_match, bind, uh_file_header. rewrite Hhdr.
  unfold run_match_loop. cbn [match_loop]. unfold strlen. rewrite Hstar.
  cbn [lit list_ascii_of_string length Nat.ltb Nat.leb].
  assert (Hc : char_at h 0 = "*"%char).
  { rewrite <- char_at_cstr by (unfold strlen; rewrite Hstar; cbn; lia).
    now rewrite Hstar. }
  rewrite Hc. cbn [is_separator Ascii.eqb Bool.eqb orb skipn].
  unfold strcmp_eq. rewrite Hstar. reflexivity.
Qed.

(** ** Entity tags *)

Lemma uh_file_mktag_pure (P : Platform) (s1 s2 : stat_t) :
  st_ino s1 = st_ino s2 -> st_size s1 = st_size s2 ->
  st_mtime s1 = st_mtime s2 ->
  uh_file_mktag s1 = uh_file_mktag s2.
Proof.
  intros Hi Hs Hm. unfold uh_file_mktag, tag_text. now rewrite Hi, Hs, Hm.
Qed.

(** C4, the code where the claim fails: [sizeof(buf)] in uh_file_mktag is
    the size of a pointer, so the tag is the first 7 characters of the
    quoted triplet (3 on a 32-bit machine).  For inode 0x1234568 the tag is
    the quote and [123456]; a change of size and modification time, or of
    the last digit of the inode, leaves it as it is. *)
Theorem uh_file_mktag_cut_to_pointer_size :
  tag_text Demo.guide = dquote :: lit "1234568-1-2ebc98a1" ++ [dquote] /\
  @uh_file_mktag Demo.lp64 Demo.guide = dquote :: lit "123456" /\
  @uh_file_mktag Demo.lp64 Demo.guide_grown = @uh_file_mktag Demo.lp64 Demo.guide /\
  @uh_file_mktag Demo.lp64 Demo.notes = @uh_file_mktag Demo.lp64 Demo.guide /\
  @uh_file_mktag Demo.ilp32 Demo.guide = dquote :: lit "12".
Proof. repeat split; vm_compute; reflexivity. Qed.

(** ** file_write_cb *)

Lemma write_loop_retries_eintr (rd : read_step) (rest : list read_step) (pending : Z) :
  (pending < 256)%Z -> (rd_ret rd < 0)%Z -> rd_errno rd = EINTR ->
  write_loop (rd :: rest) pending = write_loop rest pending.
Proof.
  intros Hp Hr He. cbn [write_loop].
  apply Z.ltb_lt in Hp, Hr. rewrite Hp, Hr, He. reflexivity.
Qed.

Lemma write_loop_ends_at_zero (rd : read_step) (rest : list read_step) (pending : Z) :
  (pending < 256)%Z -> rd_ret rd = 0%Z ->
  write_loop (rd :: rest) pending = Some ([RequestDone], pending, rest).
Proof.
  intros Hp Hr. cbn [write_loop].
  apply Z.ltb_lt in Hp. rewrite Hp, Hr. reflexivity.
Qed.

(** C9, the code where the claim fails: a read that fails with an error
    other than EINTR does not end the transfer.  Its negative return value
    goes to uh_chunk_write as the length, and the loop reads again. *)
Theorem write_loop_writes_after_read_error :
  forall (rd : read_step) (rest : list read_step) (pending : Z),
    (pending < 256)%Z ->
    (rd_ret rd < 0)%Z ->
    rd_errno rd <> EINTR ->
    write_loop (rd :: rest) pending
    = match write_loop rest (rd_pending rd) with
      | Some (evs, pending', rest') =>
          Some (ChunkWrite (rd_ret rd) :: evs, pending', rest')
      | None => None
      end.
Proof.
  intros rd rest pending Hp Hr He. cbn [write_loop].
  apply Z.ltb_lt in Hp. rewrite Hp.
  apply Z.eqb_neq in He. rewrite He, andb_false_r.
  assert (Hz : (rd_ret rd =? 0)%Z = false) by (apply Z.eqb_neq; lia).
  rewrite Hz. reflexivity.
Qed.

Lemma write_loop_writes_after_read_error_witness :
  write_loop [Demo.failed_read; Demo.end_of_file] 0
  = Some ([ChunkWrite (-1); RequestDone], 0%Z, []).
Proof.
  rewrite (@write_loop_writes_after_read_error Demo.failed_read
             [Demo.end_of_file] 0%Z).
  - reflexivity.
  - reflexivity.
  - reflexivity.
  - discriminate.
Defined.

(** ** Directory listings *)

Section Listing.
Context {P : Platform}.

Lemma is_self_entry_spec (name : cstring) :
  is_self_entry name = list_eqb (cstr name) (lit ".").
Proof.
  unfold is_self_entry, char_at, dot.
  destruct name as [|c0 [|c1 rest]]; cbn [nth cstr].
  - reflexivity.
  - destruct (is_nul c0) eqn:E0.
    + unfold is_nul in E0. apply Ascii.eqb_eq in E0. subst c0. reflexivity.
    + reflexivity.
  - destruct (is_nul c0) eqn:E0.
    + unfold is_nul in E0. apply Ascii.eqb_eq in E0. subst c0. reflexivity.
    + destruct (is_nul c1); reflexivity.
Qed.

Lemma list_entries_from_cons (f : dirent) (files : list dirent)
  (path local_path : cstring) (l : list_locals) :
  list_entries_from (f :: files) path local_path l
  = line_of path local_path l f
    ++ list_entries_from files path local_path (locals_after local_path l f).
Proof.
  cbn [list_entries_from]. unfold line_of, locals_after.
  rewrite <- is_self_entry_spec.
  destruct (is_self_entry (d_name f)); [reflexivity|].
  destruct (stat (cstr local_path ++ cstr (d_name f))) as [s|]; [|reflexivity].
  destruct (has_bit (d_type f) DT_DIR); cbn [mode];
    destruct (has_bit (st_mode s) _); reflexivity.
Qed.

Lemma list_entries_from_app (pre post : list dirent) (path local_path : cstring) :
  forall l,
    list_entries_from (pre ++ post) path local_path l
    = list_entries_from pre path local_path l
      ++ list_entries_from post path local_path
           (fold_left (locals_after local_path) pre l).
Proof.
  induction pre as [|f pre IH]; intros l; [reflexivity|].
  cbn [app fold_left]. rewrite !list_entries_from_cons, IH.
  now rewrite app_assoc.
Qed.

End Listing.

Lemma entry_line_rendered (P : Platform) (path name : cstring)
  (l : list_locals) (s : stat_t) :
  exists fmt args,
    entry_line path name l s = ChunkPrintf fmt args /\
    rendered_head fmt args
    = linked_entry (cstr path) (cstr name) (cstr (suffix l))
        (cstr (uh_file_unix2date (st_mtime s))) (cstr (type l)).
Proof.
  eexists. eexists. split; [reflexivity|].
  unfold linked_entry. cbn. reflexivity.
Qed.

(** C10: in every listing, an entry contributes its line according to
    [line_of], wherever it stands: the only test on the name is the one for
    the self-reference [.], which gives no line.  Every other entry - the
    parent entry [..] like any other name - is printed when [stat] succeeds
    and the permission bit checked for it is set, and what is printed for it
    is an ordinary linked entry: a list item with an anchor that leads to
    the listing's path followed by the name and the suffix and that shows
    the name, then the suffix, the date of modification and the type. *)
Theorem only_self_entry_excluded_by_name :
  forall (P : Platform) (pre post : list dirent) (f : dirent)
         (path local_path : cstring),
    let l := fold_left (locals_after local_path) pre list_locals_init in
    let l' := locals_after local_path l f in
    list_entries (pre ++ f :: post) path local_path
    = list_entries pre path local_path
      ++ line_of path local_path l f
      ++ list_entries_from post path local_path l' /\
    (cstr (d_name f) = lit "." -> line_of path local_path l f = []) /\
    forall s,
      cstr (d_name f) <> lit "." ->
      stat (cstr local_path ++ cstr (d_name f)) = Some s ->
      has_bit (st_mode s) (mode l') = true ->
      exists fmt args,
        line_of path local_path l f = [ChunkPrintf fmt args] /\
        In (ChunkPrintf fmt args) (list_entries (pre ++ f :: post) path local_path) /\
        rendered_head fmt args
        = linked_entry (cstr path) (cstr (d_name f)) (cstr (suffix l'))
            (cstr (uh_file_unix2date (st_mtime s))) (cstr (type l')).
Proof.
  intros P pre post f path local_path l l'.
  assert (Heq : list_entries (pre ++ f :: post) path local_path
                = list_entries pre path local_path
                  ++ line_of path local_path l f
                  ++ list_entries_from post path local_path l').
  { unfold list_entries. rewrite list_entries_from_app.
    now rewrite list_entries_from_cons. }
  split; [exact Heq|]. split.
  - intros Hname. unfold line_of. now rewrite Hname.
  - intros s Hname Hstat Hperm.
    destruct (entry_line_rendered P path (d_name f) l' s)
      as (fmt & args & Hline & Htext).
    exists fmt, args.
    assert (Hof : line_of path local_path l f = [ChunkPrintf fmt args]).
    { unfold line_of. apply list_eqb_neq in Hname. rewrite Hname.
      rewrite Hstat. fold l'. rewrite Hperm. now rewrite Hline. }
    split; [exact Hof|]. split; [|exact Htext].
    rewrite Heq, Hof. apply in_or_app. right. now left.
Qed.

Lemma only_self_entry_excluded_by_name_witness :
  @scandir Demo.lp64 (lit "/www/docs/")
  = Some ({| d_name := lit "."; d_type := DT_DIR |} :: Demo.parent_entry
          :: Demo.docs_entries) /\
  exists fmt args,
    In (ChunkPrintf fmt args)
       (@list_entries Demo.lp64
          ({| d_name := lit "."; d_type := DT_DIR |} :: Demo.parent_entry
           :: Demo.docs_entries)
          (lit "/docs/") (lit "/www/docs/")) /\
    rendered_head fmt args
    = lit "<li><strong><a href='/docs/../'>..</a>/</strong><br /><small>modified: Sun, 06 Nov 1994 08:49:37 GMT<br />directory - ".
Proof.
  split; [reflexivity|].
  destruct (@only_self_entry_excluded_by_name Demo.lp64
              [{| d_name := lit "."; d_type := DT_DIR |}] Demo.docs_entries
              Demo.parent_entry (lit "/docs/") (lit "/www/docs/"))
    as (_ & _ & Hline).
  destruct (Hline Demo.www) as (fmt & args & _ & Hin & Htext).
  - discriminate.
  - reflexivity.
  - reflexivity.
  - exists fmt, args. split; [exact Hin|]. rewrite Htext.
    vm_compute. reflexivity.
Defined.

(** * Further properties *)

(** ** canonpath as normalisation of segments *)

Lemma pop_segment_plain (seg rest : list ascii) :
  Forall plain seg -> pop_segment (rev seg ++ slash :: rest) = rest.
Proof.
  intros H. apply Forall_rev in H.
  induction H as [|c r [Hc _] _ IH]; cbn [app pop_segment].
  - now rewrite Ascii.eqb_refl.
  - apply Ascii.eqb_neq in Hc. now rewrite Hc.
Qed.

Lemma written_cons (s : cstring) (kept : list cstring) :
  written (s :: kept) = rev s ++ slash :: written kept.
Proof.
  unfold written. cbn [rev]. rewrite map_app, concat_app. cbn [map concat].
  rewrite app_nil_r, rev_app_distr. cbn [rev]. now rewrite <- app_assoc.
Qed.

Lemma segments_head (segs : list cstring) :
  slash_or_nul (char_at (concat (map (cons slash) segs)) 0) = true.
Proof. destruct segs; reflexivity. Qed.

Lemma good_segment_cases (s : cstring) :
  list_eqb s [] = false -> list_eqb s (lit ".") = false ->
  list_eqb s (lit "..") = false -> good_segment s = true.
Proof. intros H1 H2 H3. unfold good_segment. now rewrite H1, H2, H3. Qed.

Lemma normalize_proper (segs : list cstring) :
  Forall (Forall plain) segs ->
  forall kept, Forall proper kept -> Forall proper (normalize segs kept).
Proof.
  induction 1 as [|s segs Hs _ IH]; intros kept Hkept; cbn [normalize];
    [assumption|].
  destruct (list_eqb s []) eqn:E0; cbn [orb]; [now apply IH|].
  destruct (list_eqb s (lit ".")) eqn:E1; [now apply IH|].
  destruct (list_eqb s (lit "..")) eqn:E2.
  - apply IH. destruct kept; [constructor|]. now inversion Hkept.
  - apply IH. constructor; [|assumption].
    split; [assumption | now apply good_segment_cases].
Qed.

Lemma canon_finish_written (kept : list cstring) :
  Forall proper kept -> canon_finish (written kept) = path_of kept.
Proof.
  intros Hkept. destruct kept as [|s kept]; [reflexivity|].
  unfold written, path_of.
  assert (Hrev : Forall proper (rev (s :: kept))) by now apply Forall_rev.
  assert (Hne : rev (s :: kept) <> []).
  { intros E. apply (f_equal (@length cstring)) in E.
    rewrite length_rev in E. discriminate. }
  apply canon_finish_rev.
  - destruct (rev (s :: kept)); [contradiction | discriminate].
  - right. exact (last_segments Hrev Hne []).
Qed.

Lemma canon_finish_trailing_slash (kept : list cstring) :
  Forall proper kept -> canon_finish (slash :: written kept) = path_of kept.
Proof.
  intros Hkept. destruct kept as [|k kept]; [reflexivity|].
  assert (Hne : written (k :: kept) <> []).
  { rewrite written_cons. inversion Hkept as [|? ? [_ Hk] _]; subst.
    destruct (rev k); discriminate. }
  cbn [canon_finish]. destruct (written (k :: kept)) as [|x r] eqn:E;
    [contradiction|].
  rewrite Ascii.eqb_refl, <- E. unfold written, path_of.
  now rewrite rev_involutive.
Qed.

Section CanonpathNormalises.
Context {P : Platform}.

Lemma canon_loop_normalises (segs : list cstring) :
  Forall (Forall plain) segs ->
  forall off kept,
    Forall proper kept ->
    off + length (concat (map (cons slash) segs)) <= PATH_MAX - 2 ->
    canon_finish (canon_loop off (concat (map (cons slash) segs)) (written kept))
    = path_of (normalize segs kept).
Proof.
  induction 1 as [|s segs Hs Hsegs IH]; intros off kept Hkept Hlen.
  - cbn [map concat canon_loop normalize]. now apply canon_finish_written.
  - cbn [map concat normalize] in *. rewrite <- app_comm_cons in *.
    cbn [length] in Hlen. rewrite length_app in Hlen.
    assert (Hoff : (off <? PATH_MAX - 2) = true) by (apply Nat.ltb_lt; lia).
    pose proof (segments_head segs) as Hhead.
    destruct (list_eqb s []) eqn:E0; cbn [orb].
    { apply list_eqb_eq in E0. subst s. cbn [app length] in *.
      destruct segs as [|s' segs].
      - cbn [map concat canon_loop normalize]. rewrite Hoff.
        change (is_nul slash) with false. cbn [orb negb].
        rewrite Ascii.eqb_refl. cbn [negb].
        now apply canon_finish_trailing_slash.
      - cbn [map concat app] in *.
        cbn [canon_loop]. rewrite Hoff.
        change (is_nul slash) with false. cbn [orb negb].
        rewrite !Ascii.eqb_refl. cbn [negb].
        apply (IH (S off) kept Hkept). cbn [length] in *. lia. }
    destruct (list_eqb s (lit ".")) eqn:E1.
    { apply list_eqb_eq in E1. subst s.
      cbn [lit list_ascii_of_string app length] in *.
      cbn [canon_loop]. rewrite Hoff.
      change (is_nul slash) with false. cbn [orb negb].
      rewrite Ascii.eqb_refl. cbn [negb].
      change (Ascii.eqb "."%char slash) with false. cbv iota.
      change (Ascii.eqb "."%char dot) with true. cbv iota.
      rewrite Hhead. apply (IH (off + 2) kept Hkept). lia. }
    destruct (list_eqb s (lit "..")) eqn:E2.
    { apply list_eqb_eq in E2. subst s.
      cbn [lit list_ascii_of_string app length] in *.
      cbn [canon_loop]. rewrite Hoff.
      change (is_nul slash) with false. cbn [orb negb].
      rewrite Ascii.eqb_refl. cbn [negb].
      change (Ascii.eqb "."%char slash) with false. cbv iota.
      change (Ascii.eqb "."%char dot) with true. cbv iota.
      change (slash_or_nul (char_at ("."%char :: concat (map (cons slash) segs)) 0))
        with false. cbv iota.
      rewrite Hhead. cbn [andb].
      assert (Hpop : pop_segment (written kept) = written (tl kept)).
      { destruct kept as [|k kept]; [reflexivity|].
        rewrite written_cons. apply pop_segment_plain.
        inversion Hkept as [|? ? [Hk _] _]; subst. exact Hk. }
      rewrite Hpop. apply IH; [|lia].
      destruct kept; [constructor | now inversion Hkept]. }
    assert (Hgood : good_segment s = true) by now apply good_segment_cases.
    rewrite canon_loop_keeps_slash by (assumption || lia).
    rewrite canon_loop_copy by (assumption || lia).
    rewrite <- written_cons.
    apply IH; [|lia]. constructor; [|assumption]. now split.
Qed.

End CanonpathNormalises.

Lemma split_slash_app_plain (s rest r0 : cstring) (rs : list cstring) :
  Forall plain s ->
  split_slash rest = r0 :: rs ->
  split_slash (s ++ rest) = (s ++ r0) :: rs.
Proof.
  intros Hs Hrest. induction Hs as [|c s [Hc _] _ IH]; [assumption|].
  cbn [app split_slash]. apply Ascii.eqb_neq in Hc. now rewrite Hc, IH.
Qed.

Lemma split_slash_segments (segs : list cstring) :
  Forall (Forall plain) segs ->
  split_slash (concat (map (cons slash) segs)) = [] :: segs.
Proof.
  induction 1 as [|s segs Hs _ IH]; [reflexivity|].
  cbn [map concat]. rewrite <- app_comm_cons. cbn [split_slash].
  rewrite Ascii.eqb_refl. f_equal.
  rewrite (split_slash_app_plain _ Hs IH). now rewrite app_nil_r.
Qed.

Lemma path_of_canonical (kept : list cstring) :
  Forall proper kept -> is_canonical (path_of kept) = true.
Proof.
  intros Hkept. destruct kept as [|k kept]; [reflexivity|].
  assert (Hrev : Forall proper (rev (k :: kept))) by now apply Forall_rev.
  assert (Hne : rev (k :: kept) <> []).
  { intros E. apply (f_equal (@length cstring)) in E.
    rewrite length_rev in E. discriminate. }
  change (path_of (k :: kept)) with (concat (map (cons slash) (rev (k :: kept)))).
  revert Hrev Hne. generalize (rev (k :: kept)). intros segs Hsegs Hne.
  assert (Hplain : Forall (Forall plain) segs).
  { rewrite Forall_forall in *. intros s Hs. now apply Hsegs. }
  unfold is_canonical. rewrite (split_slash_segments Hplain).
  assert (Hgood : forallb good_segment segs = true).
  { apply forallb_forall. rewrite Forall_forall in Hsegs.
    intros s Hs. now apply Hsegs. }
  rewrite Hgood. cbn [list_eqb orb andb].
  assert (Hnn : nonul_b (concat (map (cons slash) segs)) = true).
  { unfold nonul_b. apply forallb_forall. intros c Hc.
    apply in_concat in Hc as [seg [Hseg Hc]].
    apply in_map_iff in Hseg as [s [<- Hs]].
    destruct Hc as [<- | Hc]; [reflexivity|].
    rewrite Forall_forall in Hplain. specialize (Hplain _ Hs).
    rewrite Forall_forall in Hplain. destruct (Hplain _ Hc) as [_ Hnul].
    now rewrite (is_nul_false Hnul). }
  rewrite Hnn. cbn [andb].
  destruct segs as [|s segs]; [now contradiction Hne|].
  cbn [map concat]. rewrite <- app_comm_cons.
  cbn [list_eqb negb]. now rewrite orb_true_r.
Qed.

Section CanonpathLength.
Context {P : Platform}.

Lemma pop_segment_length (res : list ascii) :
  length (pop_segment res) <= length res.
Proof.
  induction res as [|c res IH]; cbn; [lia|].
  destruct (Ascii.eqb c slash); lia.
Qed.

Lemma canon_loop_length (n : nat) :
  forall cpy, length cpy <= n ->
  forall off res,
    length res <= off -> length res <= PATH_MAX - 2 ->
    length (canon_loop off cpy res) <= Nat.min (off + length cpy) (PATH_MAX - 2).
Proof.
  induction n as [|n IH]; intros cpy Hn off res Hoff Hmax.
  - destruct cpy; [cbn; lia | cbn in Hn; lia].
  - destruct cpy as [|c0 t1]; [cbn; lia|].
    cbn [length] in Hn. cbn [canon_loop].
    destruct (is_nul c0 || negb (off <? PATH_MAX - 2)) eqn:Estop;
      [cbn [length]; lia|].
    apply orb_false_iff in Estop as [_ Elt].
    apply negb_false_iff, Nat.ltb_lt in Elt.
    assert (Hcopy : length (canon_loop (S off) t1 (c0 :: res))
                    <= Nat.min (off + length (c0 :: t1)) (PATH_MAX - 2)).
    { pose proof (IH t1 ltac:(lia) (S off) (c0 :: res)) as Hrec.
      cbn [length] in *. specialize (Hrec ltac:(lia) ltac:(lia)). lia. }
    destruct (negb (Ascii.eqb c0 slash)); [exact Hcopy|].
    destruct t1 as [|c1 t2]; [exact Hcopy|].
    cbn [length] in *.
    destruct (Ascii.eqb c1 slash).
    { pose proof (IH (c1 :: t2) ltac:(cbn [length]; lia) (S off) res) as Hrec.
      cbn [length] in *. specialize (Hrec ltac:(lia) ltac:(lia)). lia. }
    destruct (Ascii.eqb c1 dot); [|exact Hcopy].
    destruct (slash_or_nul (char_at t2 0)).
    { pose proof (IH t2 ltac:(lia) (off + 2) res) as Hrec.
      specialize (Hrec ltac:(lia) ltac:(lia)). lia. }
    destruct t2 as [|c2 t3]; [exact Hcopy|].
    cbn [length] in *.
    destruct (Ascii.eqb c2 dot && slash_or_nul (char_at t3 0)); [|exact Hcopy].
    pose proof (pop_segment_length res) as Hpop.
    pose proof (IH t3 ltac:(lia) (off + 3) (pop_segment res)) as Hrec.
    specialize (Hrec ltac:(lia) ltac:(lia)). lia.
Qed.

Lemma canon_finish_length (res : list ascii) :
  length (canon_finish res) <= Nat.max 1 (length res).
Proof.
  destruct res as [|c [|x r]]; cbn [canon_finish]; [cbn; lia | cbn; lia|].
  destruct (Ascii.eqb c slash); rewrite length_rev; cbn [length]; lia.
Qed.

Lemma canon_rewrite_length (path : cstring) :
  length (canon_rewrite path)
  <= Nat.max 1 (Nat.min (length path) (PATH_MAX - 2)).
Proof.
  unfold canon_rewrite.
  pose proof (canon_finish_length (canon_loop 0 path [])).
  pose proof (@canon_loop_length (length path) path (le_n _) 0 []
                (Nat.le_0_l _) (Nat.le_0_l _)).
  cbn [Nat.add] in *. lia.
Qed.

Lemma canon_rewrite_normalises (p : cstring) (segs : list cstring) :
  nonul p ->
  length p <= PATH_MAX - 2 ->
  split_slash p = [] :: segs ->
  canon_rewrite p = path_of (normalize segs []) /\
  Forall proper (normalize segs []).
Proof.
  intros Hnn Hlen Hsplit.
  pose proof (split_slash_plain Hnn) as Hplain. rewrite Hsplit in Hplain.
  apply Forall_cons_iff in Hplain as [_ Hplain].
  pose proof (join_split_slash p) as Hjoin. rewrite Hsplit in Hjoin.
  cbn [join_slash app] in Hjoin.
  split; [|now apply normalize_proper].
  unfold canon_rewrite. rewrite <- Hjoin.
  apply (canon_loop_normalises Hplain 0 (kept := [])); [constructor|].
  rewrite Hjoin. cbn. lia.
Qed.

End CanonpathLength.

(** X1: in default mode, for an absolute path of at most [PATH_MAX - 2]
    characters, canonpath computes the normalisation of the path's
    segments: empty segments (repeated or trailing separators) and [.]
    are dropped, each [..] removes the segment kept before it (none at the
    root), and the segments left are joined behind separators; the root is
    the result when none is left. *)
Theorem canonpath_normalises_segments :
  forall (P : Platform) (p : cstring) (segs : list cstring),
    no_symlinks conf = false ->
    nonul p ->
    length p <= PATH_MAX - 2 ->
    split_slash p = [] :: segs ->
    canonpath p = (true, path_of (normalize segs [])).
Proof.
  intros P p segs Hmode Hnn Hlen Hsplit. unfold canonpath. rewrite Hmode.
  now destruct (canon_rewrite_normalises Hnn Hlen Hsplit) as [-> _].
Qed.

Lemma canonpath_normalises_segments_witness :
  split_slash (lit "/www/./docs//../index.html/")
  = [] :: map lit ["www"; "."; "docs"; EmptyString; ".."; "index.html"; EmptyString]%string /\
  @canonpath Demo.lp64 (lit "/www/./docs//../index.html/")
  = (true, lit "/www/index.html").
Proof.
  split; [reflexivity|].
  apply (@canonpath_normalises_segments Demo.lp64
           (lit "/www/./docs//../index.html/")
           (map lit ["www"; "."; "docs"; EmptyString; ".."; "index.html"; EmptyString]%string)).
  - reflexivity.
  - apply nonul_b_spec. reflexivity.
  - apply Nat.leb_le. vm_compute. reflexivity.
  - reflexivity.
Defined.

(** X2: in default mode the result of canonpath for an absolute path of at
    most [PATH_MAX - 2] characters is canonical - no [.] or [..] segment, no
    repeated or trailing separator - and canonpath applied to its own
    result returns it unchanged. *)
Theorem canonpath_idempotent :
  forall (P : Platform) (p : cstring) (rest : cstring),
    no_symlinks conf = false ->
    nonul p ->
    length p <= PATH_MAX - 2 ->
    p = slash :: rest ->
    is_canonical (snd (canonpath p)) = true /\
    canonpath (snd (canonpath p)) = canonpath p.
Proof.
  intros P p rest Hmode Hnn Hlen Habs.
  assert (Hsplit : exists segs, split_slash p = [] :: segs).
  { subst p. cbn [split_slash]. rewrite Ascii.eqb_refl. eauto. }
  destruct Hsplit as [segs Hsplit].
  destruct (canon_rewrite_normalises Hnn Hlen Hsplit) as [Heq Hproper].
  unfold canonpath. rewrite Hmode. cbn [snd].
  pose proof (canon_rewrite_length p) as Hbound.
  assert (Hcan : is_canonical (canon_rewrite p) = true).
  { rewrite Heq. now apply path_of_canonical. }
  split; [exact Hcan|].
  rewrite (canon_rewrite_canonical _ Hcan); [reflexivity|].
  subst p. cbn [length] in *. lia.
Qed.

Lemma canonpath_idempotent_witness :
  @canonpath Demo.lp64 (snd (@canonpath Demo.lp64 (lit "/www/./docs//../index.html/")))
  = @canonpath Demo.lp64 (lit "/www/./docs//../index.html/").
Proof.
  apply (@canonpath_idempotent Demo.lp64 (lit "/www/./docs//../index.html/")
           (lit "www/./docs//../index.html/")).
  - reflexivity.
  - apply nonul_b_spec. reflexivity.
  - apply Nat.leb_le. vm_compute. reflexivity.
  - reflexivity.
Defined.

(** X3: in default mode the result of canonpath is never longer than its
    input (one character for an empty input) and never longer than
    [PATH_MAX - 2] characters, whatever the input: [path_resolved] is not
    overrun and there is room for the separator that uh_path_lookup
    appends. *)
Theorem canonpath_result_fits :
  forall (P : Platform) (path : cstring),
    no_symlinks conf = false ->
    length (snd (canonpath path))
    <= Nat.max 1 (Nat.min (length path) (PATH_MAX - 2)).
Proof.
  intros P path Hmode. unfold canonpath. rewrite Hmode. cbn [snd].
  apply canon_rewrite_length.
Qed.

Lemma canonpath_result_fits_witness :
  length (snd (@canonpath Demo.lp64 Demo.long_path)) <= 4094.
Proof.
  pose proof (@canonpath_result_fits Demo.lp64 Demo.long_path eq_refl) as H.
  assert (Hmax : Nat.leb (Nat.max 1 (Nat.min (length Demo.long_path)
                                       (@PATH_MAX Demo.lp64 - 2))) 4094 = true)
    by (vm_compute; reflexivity).
  apply Nat.leb_le in Hmax. exact (Nat.le_trans _ _ _ H Hmax).
Defined.

(** ** What uh_path_lookup returns *)





Section LookupFacts.
Context {P : Platform}.


Lemma try_index_first (dir : cstring) (len : Z) (index_files : list cstring) :
  match snd (try_index dir len index_files) with
  | Some s =>
      exists pre idx post,
        index_files = pre ++ idx :: post /\
        Forall (index_skipped dir len) pre /\
        ~ ((0 <= len)%Z /\ (len < Z.of_nat (strlen idx))%Z) /\
        stat (dir ++ cstr idx) = Some s /\
        has_bit (st_mode s) S_IFREG = true /\
        fst (try_index dir len index_files) = dir ++ cstr idx
  | None =>
      Forall (index_skipped dir len) index_files /\
      fst (try_index dir len index_files) = dir
  end.
Proof.
  induction index_files as [|idx rest IH]; cbn [try_index].
  - cbn. split; [constructor | reflexivity].
  - assert (Hskip : forall (Hidx : index_skipped dir len idx),
               match snd (try_index dir len rest) with
               | Some s =>
                   exists pre idx0 post,
                     idx :: rest = pre ++ idx0 :: post /\
                     Forall (index_skipped dir len) pre /\
                     ~ ((0 <= len)%Z /\ (len < Z.of_nat (strlen idx0))%Z) /\
                     stat (dir ++ cstr idx0) = Some s /\
                     has_bit (st_mode s) S_IFREG = true /\
                     fst (try_index dir len rest) = dir ++ cstr idx0
               | None =>
                   Forall (index_skipped dir len) (idx :: rest) /\
                   fst (try_index dir len rest) = dir
               end).
    { intros Hidx. destruct (snd (try_index dir len rest)) as [s|].
      - destruct IH as (pre & idx0 & post & -> & Hpre & Hfit & Hstat & Hreg & Hfst).
        exists (idx :: pre), idx0, post. repeat split; auto.
      - destruct IH as [Hall Hfst]. split; [constructor|]; assumption. }
    destruct ((0 <=? len)%Z && (len <? Z.of_nat (strlen idx))%Z) eqn:Elong.
    { apply Hskip. left. apply andb_true_iff in Elong as [H1 H2].
      apply Z.leb_le in H1. apply Z.ltb_lt in H2. now split. }
    destruct (stat (dir ++ cstr idx)) as [s|] eqn:Estat.
    + destruct (has_bit (st_mode s) S_IFREG) eqn:Ereg.
      * cbn [snd fst]. exists [], idx, rest. repeat split; auto.
        intros [H1 H2]. apply Z.leb_le in H1. apply Z.ltb_lt in H2.
        rewrite H1, H2 in Elong. discriminate.
      * apply Hskip. right. now rewrite Estat.
    + apply Hskip. right. now rewrite Estat.
Qed.

End LookupFacts.

(** The tests on [st_mode] and [d_type] are tests of one bit: the mode of a
    socket (0140755) passes the one for S_IFREG, that of a block device
    (060644) the one for S_IFDIR, and DT_BLK and DT_SOCK the one for
    DT_DIR. *)
Example bit_tests_are_not_type_tests :
  has_bit 49645 S_IFREG = true /\ has_bit 24996 S_IFDIR = true /\
  has_bit 6 DT_DIR = true /\ has_bit 12 DT_DIR = true.
Proof. repeat split. Qed.


Section LookupShape.
Context {P : Platform}.

Lemma uh_path_lookup_shape (index_files : list cstring) (url : option cstring) :
  match lr_ret (uh_path_lookup index_files url) with
  | None => lr_events (uh_path_lookup index_files url) = []
  | Some pi =>
      if redirected pi then
        lr_events (uh_path_lookup index_files url)
        = [HttpHeader 302 "Found";
           location_header (lr_path_phys (uh_path_lookup index_files url)) (query pi);
           RequestDone] /\
        has_bit (st_mode (pstat pi)) S_IFREG = false /\
        has_bit (st_mode (pstat pi)) S_IFDIR = true /\
        last (lr_path_phys (uh_path_lookup index_files url)) NUL = slash
      else
        lr_events (uh_path_lookup index_files url) = [] /\
        root pi = Some droot /\
        name pi = Some (skipn (length droot)
                          (lr_path_phys (uh_path_lookup index_files url))) /\
        (has_bit (st_mode (pstat pi)) S_IFREG = true \/
         (has_bit (st_mode (pstat pi)) S_IFDIR = true /\
          info pi = None /\
          last (lr_path_phys (uh_path_lookup index_files url)) NUL = slash))
  end.
Proof.
  unfold uh_path_lookup.
  destruct url as [url|]; [|reflexivity].
  destruct (decode_url url) as [[uh_buf q]|]; [|reflexivity].
  destruct (canon_stage uh_buf) as [path_phys path_info].
  destruct (within_docroot path_phys); [|reflexivity]. cbn [negb].
  destruct (stat path_phys) as [s|]; [|reflexivity].
  destruct (has_bit (st_mode s) S_IFREG) eqn:Ereg.
  - cbn. repeat split; auto.
  - destruct (has_bit (st_mode s) S_IFDIR) eqn:Edir; [|reflexivity]. cbn [negb].
    destruct path_info; [|reflexivity].
    destruct (ends_with_slash uh_buf); cbn [negb].
    + pose proof (try_index_first (ensure_trailing_slash path_phys)
                    (Z.of_nat PATH_MAX
                     - Z.of_nat (length (ensure_trailing_slash path_phys)) - 1)
                    index_files) as Hidx.
      destruct (try_index _ _ index_files) as [final found].
      cbn [fst snd] in Hidx. cbn.
      repeat split; auto.
      destruct found as [s'|].
      * destruct Hidx as (pre & idx & post & _ & _ & _ & _ & Hreg' & _).
        now left.
      * destruct Hidx as [_ ->]. right. repeat split; auto.
        apply ensure_trailing_slash_last.
    + cbn. repeat split; auto. apply ensure_trailing_slash_last.
Qed.

End LookupShape.






(** ** The query string *)

Lemma strchr_absent (path : cstring) (c : ascii) :
  ~ In c path -> strchr path c = None.
Proof.
  induction path as [|x path IH]; intros Hnot; [reflexivity|].
  cbn [strchr]. destruct (is_nul x); [reflexivity|].
  destruct (Ascii.eqb x c) eqn:E.
  - apply Ascii.eqb_eq in E. subst x. exfalso. apply Hnot. now left.
  - rewrite IH; [reflexivity|]. intros H. apply Hnot. now right.
Qed.

Lemma strchr_first (path rest : cstring) (c : ascii) :
  nonul path -> ~ In c path -> c <> NUL ->
  strchr (path ++ c :: rest) c = Some (length path).
Proof.
  intros Hnn Hnot Hc. induction Hnn as [|x path Hx _ IH]; cbn [app strchr length].
  - rewrite (is_nul_false Hc), Ascii.eqb_refl. reflexivity.
  - rewrite (is_nul_false Hx).
    destruct (Ascii.eqb x c) eqn:E.
    + apply Ascii.eqb_eq in E. subst x. exfalso. apply Hnot. now left.
    + rewrite IH; [reflexivity|]. intros H. apply Hnot. now right.
Qed.

Section QueryString.
Context {P : Platform}.

Lemma decode_url_with_query (path q : cstring) :
  path <> [] -> nonul path -> ~ In question path ->
  decode_url path
  = option_map (fun d => (droot ++ d, None))
      (uh_urldecode (UH_BUF_SIZE - length droot - 1) path) /\
  decode_url (path ++ question :: q)
  = option_map (fun d => (droot ++ d,
                          if is_nul (char_at q 0) then None else Some (cstr q)))
      (uh_urldecode (UH_BUF_SIZE - length droot - 1) path).
Proof.
  intros Hne Hnn Hnot. unfold decode_url. fold droot. split.
  - rewrite (@strchr_absent path question Hnot), (cstr_nonul Hnn).
    now destruct (uh_urldecode _ path).
  - rewrite (@strchr_first path q question Hnn Hnot) by discriminate.
    assert (Hpos : (0 <? length path) = true).
    { apply Nat.ltb_lt. destruct path; [contradiction | cbn; lia]. }
    rewrite Hpos, firstn_app, firstn_all, Nat.sub_diag. cbn [firstn].
    rewrite app_nil_r.
    assert (Hat : char_at (path ++ question :: q) (S (length path)) = char_at q 0).
    { unfold char_at. rewrite app_nth2 by lia.
      replace (S (length path) - length path) with 1 by lia. reflexivity. }
    assert (Hskip : skipn (S (length path)) (path ++ question :: q) = q).
    { rewrite skipn_app, skipn_all2 by lia.
      replace (S (length path) - length path) with 1 by lia. reflexivity. }
    rewrite Hat, Hskip. now destruct (uh_urldecode _ path).
Qed.

End QueryString.

(** X8: the query string has no part in what is looked up.  For a non-empty
    path without [?], a url with a query string resolves to the same
    physical path as the bare path, with the same root, name, path info,
    redirect flag and stat record, whatever the query string holds. *)
Theorem query_string_does_not_change_the_lookup :
  forall (P : Platform) (index_files : list cstring) (path q : cstring),
    path <> [] ->
    nonul path ->
    ~ In question path ->
    let with_query := uh_path_lookup index_files (Some (path ++ question :: q)) in
    let bare := uh_path_lookup index_files (Some path) in
    lr_path_phys with_query = lr_path_phys bare /\
    option_map (fun pi => (root pi, phys pi, name pi, info pi,
                           redirected pi, pstat pi)) (lr_ret with_query)
    = option_map (fun pi => (root pi, phys pi, name pi, info pi,
                             redirected pi, pstat pi)) (lr_ret bare).
Proof.
  intros P index_files path q Hne Hnn Hnot.
  destruct (decode_url_with_query q Hne Hnn Hnot) as [Hbare Hquery].
  cbv zeta. unfold uh_path_lookup. rewrite Hbare, Hquery.
  destruct (uh_urldecode _ path) as [d|]; cbn [option_map]; [|now split].
  destruct (canon_stage (droot ++ d)) as [path_phys path_info].
  destruct (within_docroot path_phys); cbn [negb]; [|now split].
  destruct (stat path_phys) as [s|]; [|now split].
  destruct (has_bit (st_mode s) S_IFREG); [now split|].
  destruct (has_bit (st_mode s) S_IFDIR); cbn [negb]; [|now split].
  destruct path_info; [|now split].
  destruct (ends_with_slash (droot ++ d)); cbn [negb]; [|now split].
  destruct (try_index _ _ index_files) as [final found]. now split.
Qed.

Lemma query_string_does_not_change_the_lookup_witness :
  lr_path_phys (@uh_path_lookup Demo.lp64 Demo.index_names
                  (Some (lit "/docs/guide.txt" ++ question :: lit "../../etc")))
  = lr_path_phys (@uh_path_lookup Demo.lp64 Demo.index_names
                    (Some (lit "/docs/guide.txt"))).
Proof.
  apply (@query_string_does_not_change_the_lookup Demo.lp64 Demo.index_names
           (lit "/docs/guide.txt") (lit "../../etc")).
  - discriminate.
  - apply nonul_b_spec. reflexivity.
  - vm_compute. intuition discriminate.
Defined.

(** ** Dispatch *)



(** ** Requests that are not served from a file *)

Section NotServed.
Context {P : Platform}.

Lemma __handle_file_request_unresolved (index_files : list cstring)
  (handlers : list dispatch_handler) (tb : hdr_table) (url : option cstring)
  (cl : client) :
  lr_ret (uh_path_lookup index_files url) = None ->
  __handle_file_request index_files handlers tb url cl = Some (false, cl).
Proof.
  intros Hret. pose proof (uh_path_lookup_shape index_files url) as Hshape.
  rewrite Hret in Hshape.
  unfold __handle_file_request, bind, emit_all, ret. rewrite Hshape, Hret.
  destruct cl. cbn. now rewrite app_nil_r.
Qed.

End NotServed.

(** X11: when no URL handler takes the request and neither the url nor the
    configured error document resolves, uh_handle_request answers with
    exactly one 404 Not Found for the url and sends nothing else. *)
Theorem unresolved_request_gets_404 :
  forall (P : Platform) (index_files : list cstring)
         (handlers : list dispatch_handler) (tb : hdr_table) (url : cstring)
         (cl : client),
    dispatch_find handlers (Some url) None = Some None ->
    lr_ret (uh_path_lookup index_files (Some url)) = None ->
    lr_ret (uh_path_lookup index_files (error_handler conf)) = None ->
    uh_handle_request index_files handlers tb url cl
    = Some (tt, with_sent cl (sent cl ++ [ClientError 404 "Not Found" (Some url)])).
Proof.
  intros P index_files handlers tb url cl Hdisp Hurl Herr.
  unfold uh_handle_request. rewrite Hdisp. unfold bind at 1.
  rewrite (__handle_file_request_unresolved _ handlers tb _ cl Hurl).
  unfold bind at 1.
  rewrite (__handle_file_request_unresolved _ handlers tb _ cl Herr).
  reflexivity.
Qed.

Lemma unresolved_request_gets_404_witness :
  @uh_handle_request Demo.lp64 Demo.index_names [] no_headers
    (lit "/../etc/passwd") (Demo.request UH_HTTP_MSG_GET no_headers [])
  = Some (tt, with_sent (Demo.request UH_HTTP_MSG_GET no_headers [])
                [ClientError 404 "Not Found" (Some (lit "/../etc/passwd"))]).
Proof.
  apply (@unresolved_request_gets_404 Demo.lp64 Demo.index_names [] no_headers
           (lit "/../etc/passwd") (Demo.request UH_HTTP_MSG_GET no_headers [])).
  - reflexivity.
  - vm_compute. reflexivity.
  - reflexivity.
Defined.

(** X12: when the url resolves to a file or directory and the
    authorization check refuses it, __handle_file_request reports the
    request as handled after sending only what the authorization check
    sent: no dispatch handler runs and nothing is served from the file. *)
Theorem denied_request_serves_nothing :
  forall (P : Platform) (index_files : list cstring)
         (handlers : list dispatch_handler) (tb : hdr_table)
         (url : option cstring) (cl : client) (pi : path_info)
         (challenge : list event),
    lr_ret (uh_path_lookup index_files url) = Some pi ->
    redirected pi = false ->
    uh_auth_check (match tb HDR_AUTHORIZATION with
                   | Some a => with_auth pi (Some (cstr a))
                   | None => pi
                   end) = (false, challenge) ->
    __handle_file_request index_files handlers tb url cl
    = Some (true, with_sent cl (sent cl ++ challenge)).
Proof.
  intros P index_files handlers tb url cl pi challenge Hret Hredir Hauth.
  pose proof (uh_path_lookup_shape index_files url) as Hshape.
  rewrite Hret, Hredir in Hshape. destruct Hshape as [Hevents _].
  unfold __handle_file_request, bind, emit_all, ret.
  rewrite Hevents, Hret, Hredir, Hauth.
  destruct cl. cbn. now rewrite app_nil_r.
Qed.

Lemma denied_request_serves_nothing_witness :
  @__handle_file_request Demo.guarded Demo.index_names [] no_headers
    (Some (lit "/docs/guide.txt")) (Demo.request UH_HTTP_MSG_GET no_headers [])
  = Some (true, with_sent (Demo.request UH_HTTP_MSG_GET no_headers [])
                  [HttpHeader 401 "Authorization Required"]).
Proof.
  apply (@denied_request_serves_nothing Demo.guarded Demo.index_names []
           no_headers (Some (lit "/docs/guide.txt"))
           (Demo.request UH_HTTP_MSG_GET no_headers []) Demo.guide_info
           [HttpHeader 401 "Authorization Required"]).
  - vm_compute. reflexivity.
  - reflexivity.
  - reflexivity.
Defined.

(** ** The write callback *)

Lemma write_loop_trace (rds : list read_step) :
  forall pending evs pending' rest,
    write_loop rds pending = Some (evs, pending', rest) ->
    exists used,
      rds = used ++ rest /\
      (((256 <= pending')%Z /\
        evs = map (fun rd => ChunkWrite (rd_ret rd))
                (filter (fun rd => negb (interrupted rd)) used)) \/
       (exists body last,
           used = body ++ [last] /\ rd_ret last = 0%Z /\
           evs = map (fun rd => ChunkWrite (rd_ret rd))
                   (filter (fun rd => negb (interrupted rd)) body)
                 ++ [RequestDone])).
Proof.
  induction rds as [|rd rds IH]; intros pending evs pending' rest Hrun;
    cbn [write_loop] in Hrun.
  - destruct (pending <? 256)%Z eqn:Ep; [discriminate|].
    injection Hrun as <- <- <-. exists []. split; [reflexivity|]. left.
    apply Z.ltb_ge in Ep. split; [lia | reflexivity].
  - destruct (pending <? 256)%Z eqn:Ep.
    + destruct ((rd_ret rd <? 0)%Z && (rd_errno rd =? EINTR)%Z) eqn:Eint;
        fold (interrupted rd) in Eint.
      * destruct (IH _ _ _ _ Hrun) as (used & -> & Hcase).
        exists (rd :: used). split; [reflexivity|].
        cbn [filter]. rewrite Eint. cbn [negb].
        destruct Hcase as [Hfull | (body & last & -> & Hz & ->)];
          [now left|].
        right. exists (rd :: body), last. split; [reflexivity|].
        split; [assumption|]. cbn [filter]. now rewrite Eint.
      * destruct (rd_ret rd =? 0)%Z eqn:Ez.
        -- injection Hrun as <- <- <-. exists [rd]. split; [reflexivity|].
           right. exists [], rd. apply Z.eqb_eq in Ez. auto.
        -- destruct (write_loop rds (rd_pending rd)) as [[[evs0 p0] rest0]|] eqn:Erec;
             [|discriminate].
           injection Hrun as <- <- <-.
           destruct (IH _ _ _ _ Erec) as (used & -> & Hcase).
           exists (rd :: used). split; [reflexivity|].
           cbn [filter]. rewrite Eint. cbn [negb map].
           destruct Hcase as [[Hp ->] | (body & last & -> & Hz & ->)];
             [now left|].
           right. exists (rd :: body), last. split; [reflexivity|].
           split; [assumption|]. cbn [filter]. rewrite Eint. reflexivity.
    + injection Hrun as <- <- <-. exists []. split; [reflexivity|]. left.
      apply Z.ltb_ge in Ep. split; [lia | reflexivity].
Qed.

Lemma chunk_writes_body_events (l : list read_step) :
  forallb is_body_event (map (fun rd => ChunkWrite (rd_ret rd)) l) = true.
Proof. induction l as [|rd l IH]; [reflexivity | exact IH]. Qed.

Lemma write_loop_body_events (rds : list read_step) :
  forall pending evs pending' rest,
    write_loop rds pending = Some (evs, pending', rest) ->
    forallb is_body_event evs = true.
Proof.
  intros pending evs pending' rest Hrun.
  destruct (write_loop_trace _ _ Hrun) as (used & _ & Hcase).
  destruct Hcase as [[_ ->] | (body & last & _ & _ & ->)].
  - apply chunk_writes_body_events.
  - rewrite forallb_app, chunk_writes_body_events. reflexivity.
Qed.

(** X13: when the loop of file_write_cb returns it has consumed a prefix of
    the coming reads, and it stopped for one of two reasons only: the
    stream holds 256 bytes or more, or the last read consumed returned 0
    and the request was ended.  Up to there it has handed the result of
    every read that was not an interrupted one to uh_chunk_write, in the
    order of the reads. *)
Theorem write_loop_stops_at_eof_or_backpressure :
  forall (rds : list read_step) (pending : Z) (evs : list event)
         (pending' : Z) (rest : list read_step),
    write_loop rds pending = Some (evs, pending', rest) ->
    exists used,
      rds = used ++ rest /\
      (((256 <= pending')%Z /\
        evs = map (fun rd => ChunkWrite (rd_ret rd))
                (filter (fun rd => negb (interrupted rd)) used)) \/
       (exists body last,
           used = body ++ [last] /\ rd_ret last = 0%Z /\
           evs = map (fun rd => ChunkWrite (rd_ret rd))
                   (filter (fun rd => negb (interrupted rd)) body)
                 ++ [RequestDone])).
Proof. intros rds pending evs pending' rest. apply write_loop_trace. Qed.

Lemma write_loop_stops_at_eof_or_backpressure_witness :
  write_loop [Demo.data_read; Demo.interrupted_read; Demo.data_read;
              Demo.end_of_file; Demo.data_read] 0
  = Some ([ChunkWrite 100; ChunkWrite 100; RequestDone], 100%Z, [Demo.data_read]) /\
  exists used,
    [Demo.data_read; Demo.interrupted_read; Demo.data_read;
     Demo.end_of_file; Demo.data_read] = used ++ [Demo.data_read].
Proof.
  split; [reflexivity|].
  destruct (@write_loop_stops_at_eof_or_backpressure
              [Demo.data_read; Demo.interrupted_read; Demo.data_read;
               Demo.end_of_file; Demo.data_read] 0%Z
              [ChunkWrite 100; ChunkWrite 100; RequestDone] 100%Z
              [Demo.data_read] eq_refl) as [used [Hused _]].
  exists used. exact Hused.
Defined.

(** ** The file handle *)

Lemma tidy_any_fails (checks : list (M bool)) :
  Forall tidy_check checks ->
  forall cl, exists (failed : bool) (tb : hdr_table) (evs : list event),
    any_fails checks cl
    = Some (failed, with_sent (with_hdr cl tb) (sent cl ++ evs)) /\
    forallb is_header_event evs = true.
Proof.
  induction 1 as [|check rest Hcheck _ IH]; intros cl.
  - exists false, (hdr cl), []. split; [|reflexivity].
    cbn [any_fails]. unfold ret. now rewrite client_eta.
  - destruct (Hcheck cl) as (ok & tb & evs & Hrun & Hevs).
    cbn [any_fails]. unfold or_not, bind. rewrite Hrun.
    destruct ok.
    + destruct (IH (with_sent (with_hdr cl tb) (sent cl ++ evs)))
        as (failed & tb' & evs' & Hrest & Hevs').
      exists failed, tb', (evs ++ evs'). split.
      * rewrite Hrest. destruct cl. cbn. now rewrite app_assoc.
      * rewrite forallb_app, Hevs, Hevs'. reflexivity.
    + exists true, tb, evs. split; [reflexivity | assumption].
Qed.

Section FileHandle.
Context {P : Platform}.

Ltac tidy_with ok tb evs :=
  exists ok, tb, evs; split; [|reflexivity].

Lemma if_modified_since_tidy (s : stat_t) : tidy_check (uh_file_if_modified_since s).
Proof.
  intros cl. unfold uh_file_if_modified_since, bind, uh_file_header.
  destruct (hdr cl HDR_IF_MODIFIED_SINCE) as [h|].
  - destruct (uh_file_date2unix h >=? st_mtime s)%Z.
    + tidy_with false (hdr cl) (events_304 s).
      rewrite uh_file_response_304_run. destruct cl. reflexivity.
    + tidy_with true (hdr cl) (@nil event). unfold ret. now rewrite client_eta.
  - tidy_with true (hdr cl) (@nil event). unfold ret. now rewrite client_eta.
Qed.

Lemma if_range_tidy (s : stat_t) : tidy_check (uh_file_if_range s).
Proof.
  intros cl. unfold uh_file_if_range, bind, uh_file_header.
  destruct (hdr cl HDR_IF_RANGE) as [h|].
  - tidy_with false (hdr cl) events_412. destruct cl. reflexivity.
  - tidy_with true (hdr cl) (@nil event). unfold ret. now rewrite client_eta.
Qed.

Lemma if_unmodified_since_tidy (s : stat_t) :
  tidy_check (uh_file_if_unmodified_since s).
Proof.
  intros cl. unfold uh_file_if_unmodified_since, bind, uh_file_header.
  destruct (hdr cl HDR_IF_UNMODIFIED_SINCE) as [h|].
  - destruct (uh_file_date2unix h <=? st_mtime s)%Z.
    + tidy_with false (hdr cl) events_412. destruct cl. reflexivity.
    + tidy_with true (hdr cl) (@nil event). unfold ret. now rewrite client_eta.
  - tidy_with true (hdr cl) (@nil event). unfold ret. now rewrite client_eta.
Qed.

Lemma if_match_tidy (s : stat_t) : tidy_check (uh_file_if_match s).
Proof.
  intros cl. unfold uh_file_if_match, bind, uh_file_header.
  destruct (hdr cl HDR_IF_MATCH) as [h|].
  - destruct (run_match_loop_returns HDR_IF_MATCH (uh_file_mktag s) h cl)
      as [found [h' [_ ->]]].
    destruct found.
    + tidy_with true (set_hdr (hdr cl) HDR_IF_MATCH h') (@nil event).
      destruct cl. cbn. now rewrite app_nil_r.
    + tidy_with false (set_hdr (hdr cl) HDR_IF_MATCH h') events_412.
      destruct cl. reflexivity.
  - tidy_with true (hdr cl) (@nil event). unfold ret. now rewrite client_eta.
Qed.

Lemma if_none_match_tidy (s : stat_t) : tidy_check (uh_file_if_none_match s).
Proof.
  intros cl. unfold uh_file_if_none_match, bind, uh_file_header.
  destruct (hdr cl HDR_IF_NONE_MATCH) as [h|].
  - destruct (run_match_loop_returns HDR_IF_NONE_MATCH (uh_file_mktag s) h cl)
      as [found [h' [_ ->]]].
    destruct found.
    + unfold get_method. cbn [method with_hdr].
      destruct (method cl) eqn:Em.
      * tidy_with false (set_hdr (hdr cl) HDR_IF_NONE_MATCH h') (events_304 s).
        rewrite uh_file_response_304_run. destruct cl. reflexivity.
      * tidy_with false (set_hdr (hdr cl) HDR_IF_NONE_MATCH h') events_412.
        destruct cl. reflexivity.
      * tidy_with false (set_hdr (hdr cl) HDR_IF_NONE_MATCH h') (events_304 s).
        rewrite uh_file_response_304_run. destruct cl. reflexivity.
    + tidy_with true (set_hdr (hdr cl) HDR_IF_NONE_MATCH h') (@nil event).
      destruct cl. cbn. now rewrite app_nil_r.
  - tidy_with true (hdr cl) (@nil event). unfold ret. now rewrite client_eta.
Qed.

Lemma preconditions_fail_tidy (s : stat_t) (cl : client) :
  exists (failed : bool) (tb : hdr_table) (evs : list event),
    preconditions_fail s cl
    = Some (failed, with_sent (with_hdr cl tb) (sent cl ++ evs)) /\
    forallb is_header_event evs = true.
Proof.
  change (preconditions_fail s) with (any_fails (checks_in_order s)).
  apply tidy_any_fails. repeat constructor.
  - apply if_modified_since_tidy.
  - apply if_match_tidy.
  - apply if_range_tidy.
  - apply if_unmodified_since_tidy.
  - apply if_none_match_tidy.
Qed.

End FileHandle.

Lemma uh_file_data_outcome :
  forall (P : Platform) (pi : path_info) (fd : Z) (cl cl' : client),
    uh_file_data pi fd cl = Some (tt, cl') ->
    (exists hdrs,
        forallb is_header_event hdrs = true /\
        sent cl' = sent cl ++ hdrs ++ [RequestDone; CloseFd fd] /\
        file_fd cl' = file_fd cl /\ reads cl' = reads cl /\
        data_bytes cl' = data_bytes cl) \/
    (method cl <> UH_HTTP_MSG_HEAD /\
     file_fd cl' = Some fd /\
     exists hdrs body,
       forallb is_header_event hdrs = true /\
       forallb is_body_event body = true /\
       sent cl' = sent cl ++ hdrs ++ body).
Proof.
  intros P pi fd cl cl' H. unfold uh_file_data, bind in H.
  destruct (preconditions_fail_tidy (pstat pi) cl)
    as (failed & tb & evs & Hrun & Hevs).
  rewrite Hrun in H. destruct failed.
  - cbn in H. injection H as <-. left. exists evs.
    split; [assumption|]. cbn. rewrite <- !app_assoc. auto.
  - unfold send_file, uh_file_response_200, bind in H. cbn [emit] in H.
    rewrite uh_file_response_ok_hdrs_run in H.
    cbn [emit get_method method with_sent with_hdr sent] in H.
    destruct (method cl) eqn:Em.
    + unfold install_write_cb, file_write_cb in H.
      cbn [reads data_bytes with_transfer with_sent with_hdr sent file_fd] in H.
      destruct (write_loop (reads cl) (data_bytes cl)) as [[[wevs pend] rest]|] eqn:Ew;
        [|discriminate H].
      injection H as <-. right. split; [discriminate|].
      split; [reflexivity|].
      exists (evs ++ file_head_events pi), wevs. split; [|split].
      * rewrite forallb_app, Hevs. reflexivity.
      * exact (write_loop_body_events _ _ Ew).
      * cbn [sent with_transfer with_sent]. unfold file_head_events.
        rewrite <- !app_assoc. reflexivity.
    + unfold install_write_cb, file_write_cb in H.
      cbn [reads data_bytes with_transfer with_sent with_hdr sent file_fd] in H.
      destruct (write_loop (reads cl) (data_bytes cl)) as [[[wevs pend] rest]|] eqn:Ew;
        [|discriminate H].
      injection H as <-. right. split; [discriminate|].
      split; [reflexivity|].
      exists (evs ++ file_head_events pi), wevs. split; [|split].
      * rewrite forallb_app, Hevs. reflexivity.
      * exact (write_loop_body_events _ _ Ew).
      * cbn [sent with_transfer with_sent]. unfold file_head_events.
        rewrite <- !app_assoc. reflexivity.
    + injection H as <-. left.
      exists (evs ++ file_head_events pi). split; [|split].
      * rewrite forallb_app, Hevs. reflexivity.
      * cbn [sent with_transfer with_sent]. unfold file_head_events.
        rewrite <- !app_assoc. reflexivity.
      * auto.
Qed.

(** X14: when uh_file_data returns, it has done one of two things with the
    descriptor it was given.  Either it sent header lines only, ended the
    request and closed the descriptor, once and last, leaving the transfer
    state of the client alone: no read, no body.  Or the request is not a
    HEAD, the descriptor is stored in the client for the write callback, and
    what was sent is header lines followed by what file_write_cb sends;
    the descriptor is not closed.  A HEAD request always takes the first
    way. *)
Theorem uh_file_data_closes_or_keeps_descriptor :
  forall (P : Platform) (pi : path_info) (fd : Z) (cl cl' : client),
    uh_file_data pi fd cl = Some (tt, cl') ->
    (exists hdrs,
        forallb is_header_event hdrs = true /\
        sent cl' = sent cl ++ hdrs ++ [RequestDone; CloseFd fd] /\
        file_fd cl' = file_fd cl /\ reads cl' = reads cl /\
        data_bytes cl' = data_bytes cl) \/
    (method cl <> UH_HTTP_MSG_HEAD /\
     file_fd cl' = Some fd /\
     exists hdrs body,
       forallb is_header_event hdrs = true /\
       forallb is_body_event body = true /\
       sent cl' = sent cl ++ hdrs ++ body).
Proof.
  intros P pi fd cl cl'. apply uh_file_data_outcome.
Qed.

Lemma uh_file_data_closes_or_keeps_descriptor_witness :
  let cl := Demo.request UH_HTTP_MSG_GET no_headers
              [Demo.data_read; Demo.end_of_file] in
  let cl' := Demo.after (@uh_file_data Demo.lp64 Demo.guide_info 3) cl in
  @uh_file_data Demo.lp64 Demo.guide_info 3 cl = Some (tt, cl') /\
  file_fd cl' = Some 3%Z /\
  ((exists hdrs,
       forallb is_header_event hdrs = true /\
       sent cl' = sent cl ++ hdrs ++ [RequestDone; CloseFd 3] /\
       file_fd cl' = file_fd cl /\ reads cl' = reads cl /\
       data_bytes cl' = data_bytes cl) \/
   (method cl <> UH_HTTP_MSG_HEAD /\
    file_fd cl' = Some 3%Z /\
    exists hdrs body,
      forallb is_header_event hdrs = true /\
      forallb is_body_event body = true /\
      sent cl' = sent cl ++ hdrs ++ body)).
Proof.
  intros cl cl'.
  assert (Hrun : @uh_file_data Demo.lp64 Demo.guide_info 3 cl = Some (tt, cl'))
    by (vm_compute; reflexivity).
  split; [exact Hrun|]. split; [vm_compute; reflexivity|].
  exact (@uh_file_data_closes_or_keeps_descriptor Demo.lp64 Demo.guide_info 3
           cl cl' Hrun).
Defined.

(** ** Entity tags in conditional requests *)

Lemma separator_index_dec (h : list ascii) :
  (exists k, k < strlen h /\ is_separator (char_at h k) = true) \/
  (forall k, k < strlen h -> is_separator (char_at h k) = false).
Proof.
  unfold strlen. induction h as [|c h IH].
  - right. cbn. intros k Hk. lia.
  - cbn [cstr]. destruct (is_nul c) eqn:Ec.
    + right. cbn. intros k Hk. lia.
    + destruct (is_separator c) eqn:Es.
      * left. exists 0. cbn. split; [lia | assumption].
      * destruct IH as [(k & Hk & Hs) | Hnone].
        -- left. exists (S k). cbn. split; [lia | assumption].
        -- right. intros [|k] Hk; cbn; [assumption|].
           apply Hnone. cbn in Hk. lia.
Qed.

Lemma separator_index_has (h : list ascii) (k : nat) :
  k < strlen h -> is_separator (char_at h k) = true -> has_separator h.
Proof.
  intros Hk Hs. exists (char_at h k). split; [|assumption].
  rewrite <- (char_at_cstr _ Hk). apply nth_In. exact Hk.
Qed.

Lemma wildcard_separator_free : separator_free (lit "*").
Proof. repeat constructor. Qed.

(** The token loop compares the whole value, and nothing else: it finds a
    match exactly when the value is the wildcard or the tag. *)
Lemma match_loop_whole_value (tag : cstring) (h : list ascii) :
  separator_free tag ->
  exists h',
    match_loop (S (length h)) tag h 0 0 = Some (whole_value_matches tag h, h').
Proof.
  intros Htag. unfold whole_value_matches.
  pose proof (strlen_le_length h) as Hlen.
  destruct (separator_index_dec h) as [(k & Hk & Hs) | Hnone].
  - pose proof (separator_index_has _ Hk Hs) as Hsep.
    rewrite (strcmp_separator Hsep wildcard_separator_free).
    rewrite (strcmp_separator Hsep Htag).
    rewrite andb_false_r.
    apply match_loop_with_separator.
    + lia.
    + exact (strcmp_separator Hsep wildcard_separator_free).
    + exact (strcmp_separator Hsep Htag).
    + exists k. repeat split; [lia | assumption | assumption].
  - exists h. destruct (strlen h) as [|n] eqn:En.
    + cbn [match_loop]. rewrite En. reflexivity.
    + cbn [Nat.eqb negb andb].
      destruct (strcmp_eq h (lit "*") || strcmp_eq h tag) eqn:Ecmp.
      * cbn [match_loop]. rewrite En. cbn [Nat.ltb Nat.leb].
        rewrite (Hnone 0) by lia. cbn [skipn]. now rewrite Ecmp.
      * apply orb_false_iff in Ecmp.
        apply match_loop_no_match; [lia | tauto |].
        intros j _ Hj. apply Hnone. lia.
Qed.

Lemma run_match_loop_whole_value (idx : file_hdr) (tag : cstring)
  (h : list ascii) (cl : client) :
  separator_free tag ->
  exists h',
    run_match_loop idx tag h cl
    = Some (whole_value_matches tag h, with_hdr cl (set_hdr (hdr cl) idx h')).
Proof.
  intros Htag. destruct (match_loop_whole_value h Htag) as [h' Hloop].
  exists h'. unfold run_match_loop. rewrite Hloop. reflexivity.
Qed.

Lemma if_none_match_by_whole_value (P : Platform) (s : stat_t) (cl : client)
  (h : list ascii) :
  hdr cl HDR_IF_NONE_MATCH = Some h ->
  exists h',
    uh_file_if_none_match s cl
    = Some (negb (whole_value_matches (uh_file_mktag s) h),
            with_sent (with_hdr cl (set_hdr (hdr cl) HDR_IF_NONE_MATCH h'))
              (sent cl ++
               if whole_value_matches (uh_file_mktag s) h then
                 match method cl with
                 | UH_HTTP_MSG_GET | UH_HTTP_MSG_HEAD => events_304 s
                 | _ => events_412
                 end
               else [])).
Proof.
  intros Hhdr.
  destruct (run_match_loop_whole_value HDR_IF_NONE_MATCH h cl
              (uh_file_mktag_no_separator P s)) as [h' Hrun].
  exists h'. unfold uh_file_if_none_match, bind, uh_file_header.
  rewrite Hhdr, Hrun.
  destruct (whole_value_matches (uh_file_mktag s) h).
  - unfold get_method. cbn [method with_hdr negb].
    destruct (method cl); try rewrite uh_file_response_304_run;
      destruct cl; reflexivity.
  - destruct cl. cbn. now rewrite app_nil_r.
Qed.

(** X15: uh_file_if_none_match compares the whole header value, not its
    tokens: it fails exactly when the value is non-empty and is, as one
    string, [*] or the entity tag of the file.  It then answers 304 to GET
    and HEAD and 412 to any other method; on every other value it passes
    and sends nothing. *)
Theorem if_none_match_compares_whole_value :
  forall (P : Platform) (s : stat_t) (cl : client) (h : list ascii),
    hdr cl HDR_IF_NONE_MATCH = Some h ->
    exists h',
      uh_file_if_none_match s cl
      = Some (negb (whole_value_matches (uh_file_mktag s) h),
              with_sent (with_hdr cl (set_hdr (hdr cl) HDR_IF_NONE_MATCH h'))
                (sent cl ++
                 if whole_value_matches (uh_file_mktag s) h then
                   match method cl with
                   | UH_HTTP_MSG_GET | UH_HTTP_MSG_HEAD => events_304 s
                   | _ => events_412
                   end
                 else [])).
Proof. intros P s cl h. apply if_none_match_by_whole_value. Qed.

Lemma if_none_match_compares_whole_value_witness :
  exists h',
    @uh_file_if_none_match Demo.lp64 Demo.guide
      (Demo.request UH_HTTP_MSG_POST
         (set_hdr no_headers HDR_IF_NONE_MATCH (lit "*")) [])
    = Some (false,
            with_sent
              (with_hdr
                 (Demo.request UH_HTTP_MSG_POST
                    (set_hdr no_headers HDR_IF_NONE_MATCH (lit "*")) [])
                 (set_hdr (set_hdr no_headers HDR_IF_NONE_MATCH (lit "*"))
                    HDR_IF_NONE_MATCH h'))
              events_412).
Proof.
  exact (@if_none_match_compares_whole_value Demo.lp64 Demo.guide
           (Demo.request UH_HTTP_MSG_POST
              (set_hdr no_headers HDR_IF_NONE_MATCH (lit "*")) [])
           (lit "*") eq_refl).
Defined.

(** X16: uh_file_if_match, too, compares the whole header value: it passes
    exactly when the value is non-empty and is, as one string, [*] or the
    entity tag of the file, and answers 412 on every other value. *)
Theorem if_match_compares_whole_value :
  forall (P : Platform) (s : stat_t) (cl : client) (h : list ascii),
    hdr cl HDR_IF_MATCH = Some h ->
    exists h',
      uh_file_if_match s cl
      = Some (whole_value_matches (uh_file_mktag s) h,
              with_sent (with_hdr cl (set_hdr (hdr cl) HDR_IF_MATCH h'))
                (sent cl ++
                 if whole_value_matches (uh_file_mktag s) h then []
                 else events_412)).
Proof.
  intros P s cl h Hhdr.
  destruct (run_match_loop_whole_value HDR_IF_MATCH h cl
              (uh_file_mktag_no_separator P s)) as [h' Hrun].
  exists h'. unfold uh_file_if_match, bind, uh_file_header.
  rewrite Hhdr, Hrun.
  destruct (whole_value_matches (uh_file_mktag s) h).
  - destruct cl. cbn. now rewrite app_nil_r.
  - destruct cl. reflexivity.
Qed.

Lemma if_match_compares_whole_value_witness :
  exists h',
    @uh_file_if_match Demo.lp64 Demo.guide
      (Demo.request UH_HTTP_MSG_GET
         (set_hdr no_headers HDR_IF_MATCH (lit "W/*")) [])
    = Some (false,
            with_sent
              (with_hdr
                 (Demo.request UH_HTTP_MSG_GET
                    (set_hdr no_headers HDR_IF_MATCH (lit "W/*")) [])
                 (set_hdr (set_hdr no_headers HDR_IF_MATCH (lit "W/*"))
                    HDR_IF_MATCH h'))
              events_412).
Proof.
  exact (@if_match_compares_whole_value Demo.lp64 Demo.guide
           (Demo.request UH_HTTP_MSG_GET
              (set_hdr no_headers HDR_IF_MATCH (lit "W/*")) [])
           (lit "W/*") eq_refl).
Defined.

(** ** Validators sent back by the client *)

Section Validators.
Context {P : Platform}.

Lemma uh_file_mktag_not_empty (s : stat_t) :
  2 <= PTR_SIZE -> 0 < strlen (uh_file_mktag s).
Proof.
  intros Hptr. unfold strlen.
  rewrite (cstr_nonul (uh_file_mktag_nonul P s)).
  unfold uh_file_mktag, tag_text.
  destruct (PTR_SIZE - 1) as [|n] eqn:En; [lia|].
  cbn. lia.
Qed.

Lemma own_tag_matches (s : stat_t) (h : list ascii) :
  2 <= PTR_SIZE ->
  cstr h = uh_file_mktag s ->
  whole_value_matches (uh_file_mktag s) h = true.
Proof.
  intros Hptr Hh. unfold whole_value_matches.
  pose proof (uh_file_mktag_not_empty s Hptr) as Hlen.
  assert (Hcmp : strcmp_eq h (uh_file_mktag s) = true).
  { unfold strcmp_eq. rewrite Hh.
    rewrite (cstr_nonul (uh_file_mktag_nonul P s)). apply list_eqb_refl. }
  rewrite Hcmp, orb_true_r, andb_true_r.
  unfold strlen in *. rewrite Hh.
  rewrite (cstr_nonul (uh_file_mktag_nonul P s)) in Hlen.
  destruct (length (uh_file_mktag s)); [lia | reflexivity].
Qed.

Lemma absent_header_passes (check : M bool) (cl : client) :
  check (with_sent cl []) = Some (true, with_sent cl []) ->
  failure_of check cl = None.
Proof. intros H. unfold failure_of. now rewrite H. Qed.

End Validators.

(** X17: the entity tag comes back.  On a machine whose pointers have two
    bytes or more, a GET or HEAD request whose only conditional header is
    If-None-Match, carrying the tag that uh_file_mktag gives for the file,
    is answered by uh_file_data with 304 Not Modified and the headers of
    the file - the same ETag among them -, no body, and the descriptor
    closed. *)
Theorem own_etag_in_if_none_match_gives_304 :
  forall (P : Platform) (pi : path_info) (fd : Z) (cl : client) (h : list ascii),
    2 <= PTR_SIZE ->
    method cl = UH_HTTP_MSG_GET \/ method cl = UH_HTTP_MSG_HEAD ->
    hdr cl HDR_IF_MODIFIED_SINCE = None ->
    hdr cl HDR_IF_MATCH = None ->
    hdr cl HDR_IF_RANGE = None ->
    hdr cl HDR_IF_UNMODIFIED_SINCE = None ->
    hdr cl HDR_IF_NONE_MATCH = Some h ->
    cstr h = uh_file_mktag (pstat pi) ->
    exists cl',
      uh_file_data pi fd cl = Some (tt, cl') /\
      sent cl' = sent cl ++ events_304 (pstat pi) ++ [RequestDone; CloseFd fd] /\
      In (UstreamPrintf (lit "ETag: %s" ++ CRLF) [ArgStr (cstr h)])
        (events_304 (pstat pi)).
Proof.
  intros P pi fd cl h Hptr Hmethod Hims Him Hir Hius Hinm Htag.
  pose proof (uh_file_data_by_first_failure P pi fd cl) as H.
  cbn [first_failure checks_in_order] in H.
  rewrite (@absent_header_passes (uh_file_if_modified_since (pstat pi)) cl) in H
    by (unfold uh_file_if_modified_since, bind, uh_file_header;
        cbn [hdr with_sent]; now rewrite Hims).
  rewrite (@absent_header_passes (uh_file_if_match (pstat pi)) cl) in H
    by (unfold uh_file_if_match, bind, uh_file_header;
        cbn [hdr with_sent]; now rewrite Him).
  rewrite (@absent_header_passes (uh_file_if_range (pstat pi)) cl) in H
    by (unfold uh_file_if_range, bind, uh_file_header;
        cbn [hdr with_sent]; now rewrite Hir).
  rewrite (@absent_header_passes (uh_file_if_unmodified_since (pstat pi)) cl) in H
    by (unfold uh_file_if_unmodified_since, bind, uh_file_header;
        cbn [hdr with_sent]; now rewrite Hius).
  assert (Hfail : failure_of (uh_file_if_none_match (pstat pi)) cl
                  = Some (events_304 (pstat pi))).
  { unfold failure_of.
    destruct (@if_none_match_by_whole_value P (pstat pi) (with_sent cl []) h Hinm)
      as [h' ->].
    rewrite (own_tag_matches (pstat pi) h Hptr Htag).
    cbn [negb sent with_sent with_hdr method app].
    destruct Hmethod as [-> | ->]; reflexivity. }
  rewrite Hfail in H. destruct H as [_ (cl' & Hrun & Hsent)].
  exists cl'. split; [exact Hrun|]. split; [exact Hsent|].
  rewrite Htag. unfold events_304, ok_hdrs_events. cbn. auto.
Qed.

Lemma own_etag_in_if_none_match_gives_304_witness :
  exists cl',
    @uh_file_data Demo.lp64 Demo.guide_info 3
      (Demo.request UH_HTTP_MSG_GET
         (set_hdr no_headers HDR_IF_NONE_MATCH
            (@uh_file_mktag Demo.lp64 Demo.guide)) []) = Some (tt, cl') /\
    status_codes (sent cl') = [304%Z].
Proof.
  destruct (@own_etag_in_if_none_match_gives_304 Demo.lp64 Demo.guide_info 3
              (Demo.request UH_HTTP_MSG_GET
                 (set_hdr no_headers HDR_IF_NONE_MATCH
                    (@uh_file_mktag Demo.lp64 Demo.guide)) [])
              (@uh_file_mktag Demo.lp64 Demo.guide))
    as (cl' & Hrun & Hsent & _).
  - vm_compute. lia.
  - left. reflexivity.
  - reflexivity.
  - reflexivity.
  - reflexivity.
  - reflexivity.
  - reflexivity.
  - vm_compute. reflexivity.
  - exists cl'. split; [exact Hrun|]. rewrite Hsent. reflexivity.
Defined.

(** X18: the modification date comes back.  Where strptime with timegm
    reads the date that strftime writes for the modification time of the
    file, a request that carries in If-Modified-Since the date sent as
    Last-Modified is answered by uh_file_data with 304 Not Modified,
    whatever its method and its other headers are: this check runs
    first. *)
Theorem own_date_in_if_modified_since_gives_304 :
  forall (P : Platform) (pi : path_info) (fd : Z) (cl : client) (h : list ascii),
    strptime_timegm (cstr (uh_file_unix2date (st_mtime (pstat pi))))
    = Some (st_mtime (pstat pi)) ->
    hdr cl HDR_IF_MODIFIED_SINCE = Some h ->
    cstr h = cstr (uh_file_unix2date (st_mtime (pstat pi))) ->
    exists cl',
      uh_file_data pi fd cl = Some (tt, cl') /\
      sent cl' = sent cl ++ events_304 (pstat pi) ++ [RequestDone; CloseFd fd] /\
      In (UstreamPrintf (lit "Last-Modified: %s" ++ CRLF)
            [ArgStr (uh_file_unix2date (st_mtime (pstat pi)))])
        (events_304 (pstat pi)).
Proof.
  intros P pi fd cl h Hclock Hims Hdate.
  pose proof (uh_file_data_by_first_failure P pi fd cl) as H.
  cbn [first_failure checks_in_order] in H.
  assert (Hfail : failure_of (uh_file_if_modified_since (pstat pi)) cl
                  = Some (events_304 (pstat pi))).
  { unfold failure_of, uh_file_if_modified_since, bind, uh_file_header.
    cbn [hdr with_sent]. rewrite Hims.
    unfold uh_file_date2unix. rewrite Hdate, Hclock.
    assert (Hge : (st_mtime (pstat pi) >=? st_mtime (pstat pi))%Z = true)
      by (apply Z.geb_le; lia).
    rewrite Hge, uh_file_response_304_run. reflexivity. }
  rewrite Hfail in H. destruct H as [_ (cl' & Hrun & Hsent)].
  exists cl'. split; [exact Hrun|]. split; [exact Hsent|].
  unfold events_304, ok_hdrs_events. cbn. auto.
Qed.

Lemma own_date_in_if_modified_since_gives_304_witness :
  exists cl',
    @uh_file_data Demo.lp64 Demo.guide_info 3
      (Demo.request UH_HTTP_MSG_POST
         (set_hdr no_headers HDR_IF_MODIFIED_SINCE
            (lit "Sun, 06 Nov 1994 08:49:37 GMT")) []) = Some (tt, cl') /\
    status_codes (sent cl') = [304%Z].
Proof.
  destruct (@own_date_in_if_modified_since_gives_304 Demo.lp64 Demo.guide_info 3
              (Demo.request UH_HTTP_MSG_POST
                 (set_hdr no_headers HDR_IF_MODIFIED_SINCE
                    (lit "Sun, 06 Nov 1994 08:49:37 GMT")) [])
              (lit "Sun, 06 Nov 1994 08:49:37 GMT"))
    as (cl' & Hrun & Hsent & _).
  - vm_compute. reflexivity.
  - reflexivity.
  - vm_compute. reflexivity.
  - exists cl'. split; [exact Hrun|]. rewrite Hsent. reflexivity.
Defined.

(** ** MIME types *)

Section Mime.
Context {P : Platform}.

Lemma extn_scan_none (path extn : cstring) (i : nat) :
  (forall j, j <= i -> starts_extension (char_at path j) = false) ->
  extn_scan path extn i = false.
Proof.
  induction i as [|i IH]; intros Hfree; cbn [extn_scan].
  - fold (starts_extension (char_at path 0)). now rewrite (Hfree 0) by lia.
  - fold (starts_extension (char_at path (S i))).
    rewrite (Hfree (S i)) by lia. cbn [andb]. apply IH.
    intros j Hj. apply Hfree. lia.
Qed.

Lemma extn_scan_single (path extn : cstring) (n : nat) :
  starts_extension (char_at path n) = true ->
  forall i,
    n <= i ->
    (forall j, j <= i -> j <> n -> starts_extension (char_at path j) = false) ->
    extn_scan path extn i = strcasecmp_eq (skipn (S n) path) extn.
Proof.
  intros Hn. induction i as [|i IH]; intros Hle Hfree.
  - assert (n = 0) by lia. subst n. cbn [extn_scan].
    fold (starts_extension (char_at path 0)). rewrite Hn. cbn [andb].
    now destruct (strcasecmp_eq (skipn 1 path) extn).
  - cbn [extn_scan]. fold (starts_extension (char_at path (S i))).
    destruct (Nat.eq_dec n (S i)) as [-> | Hne].
    + rewrite Hn. cbn [andb].
      destruct (strcasecmp_eq (skipn (S (S i)) path) extn); [reflexivity|].
      apply extn_scan_none. intros j Hj. apply Hfree; lia.
    + rewrite (Hfree (S i)) by lia. cbn [andb]. apply IH; [lia|].
      intros j Hj. apply Hfree. lia.
Qed.

Lemma char_at_plain (s : cstring) (j : nat) :
  Forall (fun c => starts_extension c = false) s ->
  starts_extension (char_at s j) = false.
Proof.
  intros Hs. unfold char_at.
  destruct (Nat.lt_ge_cases j (length s)) as [Hj | Hj].
  - rewrite Forall_forall in Hs. apply Hs. now apply nth_In.
  - now rewrite nth_overflow.
Qed.

Lemma mime_scan_plain (path : cstring) (table : list (cstring * cstring)) :
  Forall (fun c => starts_extension c = false) (cstr path) ->
  mime_scan path table = lit "application/octet-stream".
Proof.
  intros Hfree. induction table as [|[extn mime] table IH]; [reflexivity|].
  cbn [mime_scan]. destruct (strlen path) as [|k]; [exact IH|].
  rewrite extn_scan_none; [exact IH|].
  intros j _. now apply char_at_plain.
Qed.

Lemma mime_scan_extension (path stem ext : cstring) (c : ascii)
  (table : list (cstring * cstring)) :
  cstr path = stem ++ c :: ext ->
  starts_extension c = true ->
  Forall (fun x => starts_extension x = false) stem ->
  Forall (fun x => starts_extension x = false) ext ->
  mime_scan path table = type_of_extension ext table.
Proof.
  intros Hpath Hc Hstem Hext. unfold type_of_extension.
  assert (Hscan : forall extn,
             extn_scan (cstr path) extn (length stem + length ext)
             = strcasecmp_eq ext extn).
  { intros extn.
    rewrite (@extn_scan_single (cstr path) extn (length stem)).
    - rewrite Hpath. f_equal.
      clear. induction stem as [|x stem IH]; [reflexivity | exact IH].
    - rewrite Hpath. unfold char_at. rewrite app_nth2 by lia.
      now rewrite Nat.sub_diag.
    - lia.
    - intros j Hj Hne. rewrite Hpath. unfold char_at.
      destruct (Nat.lt_ge_cases j (length stem)) as [Hlt | Hge].
      + rewrite app_nth1 by assumption. exact (@char_at_plain stem j Hstem).
      + rewrite app_nth2 by assumption.
        destruct (j - length stem) as [|m] eqn:Em; [lia|].
        cbn [nth]. exact (@char_at_plain ext m Hext). }
  assert (Hlen : strlen path = S (length stem + length ext)).
  { unfold strlen. rewrite Hpath, length_app. cbn [length]. lia. }
  induction table as [|[extn mime] table IH]; [reflexivity|].
  cbn [mime_scan find fst]. rewrite Hlen, Hscan.
  destruct (strcasecmp_eq ext extn); [reflexivity | exact IH].
Qed.

End Mime.

(** X19: a name with no [.] and no [/] in it has no extension for
    uh_file_mime_lookup: whatever the table of types holds, the type is
    application/octet-stream. *)
Theorem name_without_extension_is_octet_stream :
  forall (P : Platform) (path : cstring),
    Forall (fun c => starts_extension c = false) (cstr path) ->
    uh_file_mime_lookup path = lit "application/octet-stream".
Proof. intros P path. apply mime_scan_plain. Qed.

Lemma name_without_extension_is_octet_stream_witness :
  @uh_file_mime_lookup Demo.lp64 (lit "README") = lit "application/octet-stream".
Proof.
  apply (@name_without_extension_is_octet_stream Demo.lp64 (lit "README")).
  repeat constructor.
Defined.

(** X20: for a name made of a stem, one [.] or [/], and an extension, with
    no further [.] or [/] in either part, uh_file_mime_lookup gives the type
    of the first entry of the table whose extension is that extension,
    letter case aside, and application/octet-stream when there is none.
    The separator may be a [/]: the last segment of a path without a dot is
    taken as an extension. *)
Theorem mime_type_of_first_matching_extension :
  forall (P : Platform) (path stem ext : cstring) (c : ascii),
    cstr path = stem ++ c :: ext ->
    starts_extension c = true ->
    Forall (fun x => starts_extension x = false) stem ->
    Forall (fun x => starts_extension x = false) ext ->
    uh_file_mime_lookup path = type_of_extension ext uh_mime_types.
Proof.
  intros P path stem ext c. unfold uh_file_mime_lookup.
  apply mime_scan_extension.
Qed.

Lemma mime_type_of_first_matching_extension_witness :
  @uh_file_mime_lookup Demo.lp64 (lit "/html") = lit "text/html".
Proof.
  apply (@mime_type_of_first_matching_extension Demo.lp64 (lit "/html") []
           (lit "html") slash).
  - reflexivity.
  - reflexivity.
  - constructor.
  - repeat constructor.
Defined.

(** ** Sorted listings *)

Lemma dirent_cmp_mixed (alphasort : dirent -> dirent -> Z) (a b : dirent) :
  is_dir a = false -> is_dir b = true -> dirent_cmp alphasort a b = 1%Z.
Proof.
  unfold is_dir, dirent_cmp. intros -> ->. reflexivity.
Qed.

Section SortedListing.
Context {P : Platform}.

Lemma locals_after_directory (local_path : cstring) (l : list_locals) (f : dirent) :
  is_dir f = true -> locals_after local_path l f = l.
Proof.
  unfold is_dir, locals_after. intros ->.
  destruct (is_self_entry (d_name f)); [reflexivity|].
  now destruct (stat _).
Qed.

Lemma line_of_file (path local_path : cstring) (l l0 : list_locals) (f : dirent) :
  is_dir f = false ->
  line_of path local_path l f = line_of path local_path l0 f.
Proof.
  unfold is_dir, line_of, locals_after. intros ->.
  rewrite is_self_entry_spec.
  destruct (list_eqb (cstr (d_name f)) (lit ".")); [reflexivity|].
  now destruct (stat _).
Qed.

Lemma list_entries_from_sorted (alphasort : dirent -> dirent -> Z)
  (path local_path : cstring) (files : list dirent) :
  StronglySorted (fun a b => (dirent_cmp alphasort a b <= 0)%Z) files ->
  forall l,
    l = list_locals_init \/ Forall (fun f => is_dir f = false) files ->
    list_entries_from files path local_path l
    = flat_map (line_of path local_path list_locals_init) files.
Proof.
  induction 1 as [|f files Hsorted IH Hf]; intros l Hl; [reflexivity|].
  rewrite list_entries_from_cons. cbn [flat_map]. f_equal.
  - destruct Hl as [-> | Hfiles]; [reflexivity|].
    apply line_of_file. now apply Forall_inv in Hfiles.
  - apply IH. destruct (is_dir f) eqn:Edir.
    + rewrite locals_after_directory by assumption.
      destruct Hl as [-> | Hfiles]; [now left|].
      right. now apply Forall_inv_tail in Hfiles.
    + right. rewrite Forall_forall in *. intros g Hg.
      destruct (is_dir g) eqn:Eg; [|reflexivity].
      specialize (Hf g Hg). rewrite (@dirent_cmp_mixed alphasort f g Edir Eg) in Hf.
      lia.
Qed.

End SortedListing.

(** X21: list_entries keeps the suffix, the permission bit and the type of
    the last file it met for the entries that follow.  On a list that is
    sorted by dirent_cmp - which is what uh_file_dirlist asks of scandir -
    this cannot show: every entry is printed as it would be at the head of
    the list, a directory with a slash, the type [directory] and the
    execute bit checked. *)
Theorem sorted_listing_prints_each_entry_alone :
  forall (P : Platform) (alphasort : dirent -> dirent -> Z)
         (files : list dirent) (path local_path : cstring),
    StronglySorted (fun a b => (dirent_cmp alphasort a b <= 0)%Z) files ->
    list_entries files path local_path
    = flat_map (line_of path local_path list_locals_init) files.
Proof.
  intros P alphasort files path local_path Hsorted.
  unfold list_entries.
  apply (@list_entries_from_sorted P alphasort path local_path files Hsorted).
  now left.
Qed.

Lemma sorted_listing_prints_each_entry_alone_witness :
  @list_entries Demo.lp64 (Demo.parent_entry :: Demo.docs_entries)
    (lit "/docs/") (lit "/www/docs/")
  = flat_map (@line_of Demo.lp64 (lit "/docs/") (lit "/www/docs/") list_locals_init)
      (Demo.parent_entry :: Demo.docs_entries).
Proof.
  apply (@sorted_listing_prints_each_entry_alone Demo.lp64 Demo.alphasort).
  repeat constructor; vm_compute; discriminate.
Defined.

(** X22: dirent_cmp puts every entry whose [d_type] has the DT_DIR bit
    before every entry whose [d_type] lacks it, whatever alphasort says of
    the two names, and it is an ordering where alphasort is one: on three
    entries on which alphasort is transitive, dirent_cmp is transitive.
    The test is the code's [d_type & DT_DIR], a test of one bit: DT_BLK and
    DT_SOCK have it too, so that a block device or a socket is ordered
    among the directories. *)
Theorem dirent_cmp_directory_bit_first :
  forall (alphasort : dirent -> dirent -> Z) (a b c : dirent),
    (is_dir a = true -> is_dir b = false ->
     dirent_cmp alphasort a b = (-1)%Z /\ dirent_cmp alphasort b a = 1%Z) /\
    (((alphasort a b <= 0)%Z -> (alphasort b c <= 0)%Z -> (alphasort a c <= 0)%Z) ->
     (dirent_cmp alphasort a b <= 0)%Z -> (dirent_cmp alphasort b c <= 0)%Z ->
     (dirent_cmp alphasort a c <= 0)%Z).
Proof.
  intros alphasort a b c. unfold is_dir, dirent_cmp. split.
  - intros -> ->. split; reflexivity.
  - intros Htrans.
    destruct (has_bit (d_type a) DT_DIR), (has_bit (d_type b) DT_DIR),
      (has_bit (d_type c) DT_DIR); cbn; try assumption; lia.
Qed.

Lemma dirent_cmp_directory_bit_first_witness :
  (dirent_cmp Demo.alphasort
     {| d_name := lit "archive"; d_type := DT_DIR |}
     {| d_name := lit "guide.txt"; d_type := 8 |} = (-1)%Z /\
   dirent_cmp Demo.alphasort
     {| d_name := lit "guide.txt"; d_type := 8 |}
     {| d_name := lit "archive"; d_type := DT_DIR |} = 1%Z) /\
  (dirent_cmp Demo.alphasort
     {| d_name := lit "archive"; d_type := DT_DIR |}
     {| d_name := lit "notes.txt"; d_type := 8 |} <= 0)%Z.
Proof.
  destruct (@dirent_cmp_directory_bit_first Demo.alphasort
              {| d_name := lit "archive"; d_type := DT_DIR |}
              {| d_name := lit "guide.txt"; d_type := 8 |}
              {| d_name := lit "notes.txt"; d_type := 8 |})
    as [Hfirst Htrans].
  split.
  - apply Hfirst; reflexivity.
  - apply Htrans.
    + intros _ _. vm_compute. discriminate.
    + vm_compute. discriminate.
    + vm_compute. discriminate.
Defined.

(** ** What a file request may send *)

Lemma headers_no_error (evs : list event) :
  forallb is_header_event evs = true -> existsb is_client_error evs = false.
Proof.
  induction evs as [|e evs IH]; [reflexivity|].
  cbn [forallb existsb]. intros H. apply andb_true_iff in H as [He Hevs].
  rewrite (IH Hevs). now destruct e.
Qed.

Lemma body_no_error (evs : list event) :
  forallb is_body_event evs = true -> existsb is_client_error evs = false.
Proof.
  induction evs as [|e evs IH]; [reflexivity|].
  cbn [forallb existsb]. intros H. apply andb_true_iff in H as [He Hevs].
  rewrite (IH Hevs). now destruct e.
Qed.

Section FileRequest.
Context {P : Platform}.

Lemma list_entries_from_no_error (files : list dirent) (path local_path : cstring) :
  forall l,
    existsb is_client_error (list_entries_from files path local_path l) = false.
Proof.
  induction files as [|f files IH]; intros l; [reflexivity|].
  rewrite list_entries_from_cons, existsb_app, IH, orb_false_r.
  unfold line_of.
  destruct (list_eqb (cstr (d_name f)) (lit ".")); [reflexivity|].
  destruct (stat _) as [s|]; [|reflexivity].
  now destruct (has_bit (st_mode s) _).
Qed.

Lemma uh_file_dirlist_run (pi : path_info) (cl : client) :
  uh_file_dirlist pi cl = Some (tt, with_sent cl (sent cl ++ dirlist_events pi)).
Proof.
  unfold uh_file_dirlist, dirlist_events, uh_file_response_200, bind.
  cbn [emit]. rewrite uh_file_response_ok_hdrs_run.
  destruct (scandir (or_empty (phys pi))) as [[|f files]|];
    unfold ret, emit_all, emit; destruct cl;
    cbn [sent with_sent method hdr data_bytes file_fd reads];
    rewrite <- !app_assoc; reflexivity.
Qed.

Lemma uh_file_dirlist_no_error (pi : path_info) (cl : client) :
  exists evs,
    uh_file_dirlist pi cl = Some (tt, with_sent cl (sent cl ++ evs)) /\
    existsb is_client_error evs = false.
Proof.
  exists (dirlist_events pi). split; [apply uh_file_dirlist_run|].
  unfold dirlist_events.
  cbn [existsb is_client_error orb ok_hdrs_events app].
  rewrite existsb_app.
  destruct (scandir (or_empty (phys pi))) as [[|f files]|]; try reflexivity.
  unfold list_entries. rewrite list_entries_from_no_error. reflexivity.
Qed.

Lemma uh_file_request_outcome (url : option cstring) (pi : path_info)
  (tb : hdr_table) (cl cl' : client) :
  uh_file_request url pi tb cl = Some (tt, cl') ->
  if servable pi then
    exists evs, sent cl' = sent cl ++ evs /\ existsb is_client_error evs = false
  else sent cl' = sent cl ++ [ClientError 403 "Forbidden" url].
Proof.
  unfold uh_file_request, servable. cbv zeta.
  destruct (has_bit (st_mode (pstat pi)) S_IROTH); cbn [negb andb].
  2: { intros H. injection H as <-. reflexivity. }
  destruct (has_bit (st_mode (pstat pi)) S_IFREG).
  - destruct (open_rdonly (or_empty (phys pi)) <? 0)%Z; cbn [negb].
    { intros H. injection H as <-. reflexivity. }
    unfold bind, set_headers.
    destruct (uh_file_data pi (open_rdonly (or_empty (phys pi))) (with_hdr cl tb))
      as [[[] cl1]|] eqn:Edata; [|discriminate].
    intros H. injection H as <-. cbn [sent with_hdr].
    destruct (@uh_file_data_outcome P _ _ _ _ Edata)
      as [(hdrs & Hh & Hsent & _) | (_ & _ & hdrs & body & Hh & Hb & Hsent)];
      rewrite Hsent; cbn [sent with_hdr]; eexists; (split; [reflexivity|]);
      rewrite existsb_app.
    + now rewrite (headers_no_error _ Hh).
    + now rewrite (headers_no_error _ Hh), (body_no_error _ Hb).
  - destruct (has_bit (st_mode (pstat pi)) S_IFDIR); cbn [andb].
    2: { intros H. injection H as <-. reflexivity. }
    destruct (no_dirlists conf); cbn [negb].
    { intros H. injection H as <-. reflexivity. }
    destruct (uh_file_dirlist_no_error pi cl) as (evs & Hrun & Hevs).
    rewrite Hrun. intros H. injection H as <-. exists evs.
    split; [reflexivity | assumption].
Qed.

End FileRequest.

(** X23: uh_file_request answers 403 Forbidden, and sends nothing else,
    exactly when the resolved path is not servable: the S_IROTH bit is not
    set in its mode; or the S_IFREG bit is set and open fails; or the
    S_IFREG bit is not set and either the S_IFDIR bit is not set or listings
    are turned off.  These are tests of single bits of [st_mode], as the
    code makes them, not of the file type: the mode of a socket has the
    S_IFREG bit and that of a block device the S_IFDIR bit.  For a servable
    path with the S_IFREG bit it runs uh_file_data on the opened descriptor
    between setting and clearing the header table, and whenever that
    returns, no client error is among what was sent.  For a servable path
    without the S_IFREG bit it does what uh_file_dirlist does, which
    returns and sends no client error. *)
Theorem uh_file_request_forbidden_or_served :
  forall (P : Platform) (url : option cstring) (pi : path_info)
         (tb : hdr_table) (cl : client),
    (servable pi = false ->
     uh_file_request url pi tb cl
     = Some (tt, with_sent cl (sent cl ++ [ClientError 403 "Forbidden" url]))) /\
    (servable pi = true ->
     has_bit (st_mode (pstat pi)) S_IFREG = true ->
     uh_file_request url pi tb cl
     = (set_headers tb ;;;
        uh_file_data pi (open_rdonly (or_empty (phys pi))) ;;;
        set_headers no_headers) cl /\
     forall cl',
       uh_file_request url pi tb cl = Some (tt, cl') ->
       exists evs,
         sent cl' = sent cl ++ evs /\ existsb is_client_error evs = false) /\
    (servable pi = true ->
     has_bit (st_mode (pstat pi)) S_IFREG = false ->
     uh_file_request url pi tb cl = uh_file_dirlist pi cl /\
     exists evs,
       uh_file_dirlist pi cl = Some (tt, with_sent cl (sent cl ++ evs)) /\
       existsb is_client_error evs = false).
Proof.
  intros P url pi tb cl. split; [|split].
  - intros Hs. unfold uh_file_request, servable in *. cbv zeta in *.
    destruct (has_bit (st_mode (pstat pi)) S_IROTH); cbn [negb andb] in *;
      [|reflexivity].
    destruct (has_bit (st_mode (pstat pi)) S_IFREG).
    + destruct (open_rdonly (or_empty (phys pi)) <? 0)%Z; cbn [negb] in *;
        [reflexivity | discriminate].
    + destruct (has_bit (st_mode (pstat pi)) S_IFDIR); cbn [andb] in *;
        [|reflexivity].
      destruct (no_dirlists conf); cbn [negb] in *; [reflexivity | discriminate].
  - intros Hs Hreg. split.
    + unfold uh_file_request, servable in *. cbv zeta in *. rewrite Hreg in *.
      destruct (has_bit (st_mode (pstat pi)) S_IROTH); cbn [negb andb] in *;
        [|discriminate].
      destruct (open_rdonly (or_empty (phys pi)) <? 0)%Z; cbn [negb] in *;
        [discriminate | reflexivity].
    + intros cl' Hrun.
      pose proof (@uh_file_request_outcome P url pi tb cl cl' Hrun) as Hout.
      now rewrite Hs in Hout.
  - intros Hs Hreg. split; [|apply uh_file_dirlist_no_error].
    unfold uh_file_request, servable in *. cbv zeta in *. rewrite Hreg in *.
    destruct (has_bit (st_mode (pstat pi)) S_IROTH); cbn [negb andb] in *;
      [|discriminate].
    destruct (has_bit (st_mode (pstat pi)) S_IFDIR); cbn [andb] in *;
      [|discriminate].
    destruct (no_dirlists conf); cbn [negb] in *; [discriminate | reflexivity].
Qed.

Lemma uh_file_request_forbidden_or_served_witness :
  @servable Demo.lp64 Demo.vault_info = false /\
  @uh_file_request Demo.lp64 (Some (lit "/docs/vault/")) Demo.vault_info
    no_headers (Demo.request UH_HTTP_MSG_GET no_headers [])
  = Some (tt, with_sent (Demo.request UH_HTTP_MSG_GET no_headers [])
                [ClientError 403 "Forbidden" (Some (lit "/docs/vault/"))]) /\
  @servable Demo.lp64 Demo.guide_info = true /\
  forall cl',
    @uh_file_request Demo.lp64 (Some (lit "/docs/guide.txt")) Demo.guide_info
      no_headers (Demo.request UH_HTTP_MSG_HEAD no_headers []) = Some (tt, cl') ->
    exists evs, sent cl' = evs /\ existsb is_client_error evs = false.
Proof.
  split; [reflexivity|]. split.
  - apply (@uh_file_request_forbidden_or_served Demo.lp64
             (Some (lit "/docs/vault/")) Demo.vault_info no_headers
             (Demo.request UH_HTTP_MSG_GET no_headers [])).
    reflexivity.
  - split; [vm_compute; reflexivity|].
    apply (@uh_file_request_forbidden_or_served Demo.lp64
             (Some (lit "/docs/guide.txt")) Demo.guide_info no_headers
             (Demo.request UH_HTTP_MSG_HEAD no_headers [])).
    + vm_compute. reflexivity.
    + reflexivity.
Defined.

(** ** Registration order *)

(** X24: uh_dispatch_add puts a handler behind those registered before it:
    a handler that dispatch_find finds in the list is still the one found
    after a registration, and the new handler is asked only when none of the
    earlier ones takes the request. *)
Theorem uh_dispatch_add_keeps_precedence :
  forall (d : dispatch_handler) (handlers : list dispatch_handler)
         (url : option cstring) (pi : option path_info),
    dispatch_find (uh_dispatch_add d handlers) url pi
    = match dispatch_find handlers url pi with
      | Some None => dispatch_find [d] url pi
      | found => found
      end.
Proof.
  intros d handlers url pi. unfold uh_dispatch_add.
  induction handlers as [|d0 handlers IH]; [reflexivity|].
  cbn [app dispatch_find].
  destruct pi as [p|].
  - destruct (check_url d0); [exact IH|].
    destruct (check_path d0) as [chk|]; [|reflexivity].
    destruct (chk p url); [reflexivity | exact IH].
  - destruct (check_path d0); [exact IH|].
    destruct (check_url d0) as [chk|]; [|reflexivity].
    destruct url as [u|]; [|reflexivity].
    destruct (chk u); [reflexivity | exact IH].
Qed.

(** ** Dates that do not parse *)

(** X25: a date that strptime does not read counts as the epoch in
    uh_file_date2unix.  So uh_file_if_modified_since lets a request with
    such a date pass, sending nothing, for every file modified after the
    epoch - and answers 304 Not Modified for a file whose modification time
    is the epoch or before it. *)
Theorem unparsable_if_modified_since :
  forall (P : Platform) (s : stat_t) (cl : client) (h : list ascii),
    hdr cl HDR_IF_MODIFIED_SINCE = Some h ->
    strptime_timegm (cstr h) = None ->
    uh_file_if_modified_since s cl
    = if (0 <? st_mtime s)%Z then Some (true, cl)
      else Some (false, with_sent cl (sent cl ++ events_304 s)).
Proof.
  intros P s cl h Hhdr Hparse.
  unfold uh_file_if_modified_since, bind, uh_file_header. rewrite Hhdr.
  unfold uh_file_date2unix. rewrite Hparse.
  destruct (0 <? st_mtime s)%Z eqn:Epos.
  - apply Z.ltb_lt in Epos.
    assert (Hge : (0 >=? st_mtime s)%Z = false)
      by (rewrite Z.geb_leb; apply Z.leb_gt; lia).
    now rewrite Hge.
  - apply Z.ltb_ge in Epos.
    assert (Hge : (0 >=? st_mtime s)%Z = true)
      by (rewrite Z.geb_leb; apply Z.leb_le; lia).
    rewrite Hge. now rewrite uh_file_response_304_run.
Qed.

Lemma unparsable_if_modified_since_witness :
  @uh_file_if_modified_since Demo.lp64 Demo.guide
    (Demo.request UH_HTTP_MSG_GET
       (set_hdr no_headers HDR_IF_MODIFIED_SINCE (lit "yesterday")) [])
  = Some (true,
          Demo.request UH_HTTP_MSG_GET
            (set_hdr no_headers HDR_IF_MODIFIED_SINCE (lit "yesterday")) []).
Proof.
  apply (@unparsable_if_modified_since Demo.lp64 Demo.guide
           (Demo.request UH_HTTP_MSG_GET
              (set_hdr no_headers HDR_IF_MODIFIED_SINCE (lit "yesterday")) [])
           (lit "yesterday")).
  - reflexivity.
  - vm_compute. reflexivity.
Defined.

(** ** The three ways out of uh_handle_request *)

Section WaysOut.
Context {P : Platform}.
Variable index_files : list cstring.
Variable handlers : list dispatch_handler.

Lemma __handle_file_request_false (tb : hdr_table) (url : option cstring)
  (cl cl' : client) :
  __handle_file_request index_files handlers tb url cl = Some (false, cl') ->
  lr_ret (uh_path_lookup index_files url) = None /\ cl' = cl.
Proof.
  destruct (lr_ret (uh_path_lookup index_files url)) as [pi|] eqn:Hret.
  - unfold __handle_file_request, bind, emit_all, ret. rewrite Hret.
    destruct (redirected pi); [discriminate|].
    destruct (uh_auth_check _) as [ok evs].
    destruct ok; cbn [negb]; [|discriminate].
    destruct (dispatch_find handlers url _) as [[d|]|]; [| |discriminate].
    + destruct (handle_request d url _ _) as [[[] c]|]; discriminate.
    + destruct (uh_file_request url _ tb _) as [[[] c]|]; discriminate.
  - rewrite (__handle_file_request_unresolved index_files handlers tb url cl Hret).
    intros H. injection H as <-. split; reflexivity.
Qed.

End WaysOut.

(** X26: when no URL handler takes the request and uh_handle_request
    returns, it has left in one of three ways.  The url resolved and the
    request was handled for it; or the url did not resolve, the configured
    error document did, and the request was handled for that document; or
    neither resolved and the one thing sent is the 404 Not Found for the
    url.  The error document is looked up only after the url has failed,
    and the 404 is sent only after both have. *)
Theorem uh_handle_request_ways_out :
  forall (P : Platform) (index_files : list cstring)
         (handlers : list dispatch_handler) (tb : hdr_table) (url : cstring)
         (cl cl' : client),
    dispatch_find handlers (Some url) None = Some None ->
    uh_handle_request index_files handlers tb url cl = Some (tt, cl') ->
    __handle_file_request index_files handlers tb (Some url) cl = Some (true, cl') \/
    (lr_ret (uh_path_lookup index_files (Some url)) = None /\
     __handle_file_request index_files handlers tb (error_handler conf) cl
     = Some (true, cl')) \/
    (lr_ret (uh_path_lookup index_files (Some url)) = None /\
     lr_ret (uh_path_lookup index_files (error_handler conf)) = None /\
     cl' = with_sent cl (sent cl ++ [ClientError 404 "Not Found" (Some url)])).
Proof.
  intros P index_files handlers tb url cl cl' Hdisp.
  unfold uh_handle_request. rewrite Hdisp. unfold bind at 1.
  destruct (__handle_file_request index_files handlers tb (Some url) cl)
    as [[served cl1]|] eqn:Eurl; [|discriminate].
  destruct served.
  - intros H. injection H as <-. now left.
  - destruct (__handle_file_request_false _ _ _ _ _ Eurl) as [Hurl ->].
    unfold bind at 1.
    destruct (__handle_file_request index_files handlers tb (error_handler conf) cl)
      as [[served cl2]|] eqn:Eerr; [|discriminate].
    destruct served.
    + intros H. injection H as <-. right. left. now split.
    + destruct (__handle_file_request_false _ _ _ _ _ Eerr) as [Herr ->].
      intros H. injection H as <-. right. right. auto.
Qed.

Lemma uh_handle_request_ways_out_witness :
  let cl := Demo.request UH_HTTP_MSG_HEAD no_headers [] in
  let cl' := Demo.after
               (@uh_handle_request Demo.lp64 Demo.index_names [] no_headers
                  (lit "/docs/guide.txt")) cl in
  @uh_handle_request Demo.lp64 Demo.index_names [] no_headers
    (lit "/docs/guide.txt") cl = Some (tt, cl') /\
  status_codes (sent cl') = [200%Z] /\
  (@__handle_file_request Demo.lp64 Demo.index_names [] no_headers
     (Some (lit "/docs/guide.txt")) cl = Some (true, cl') \/
   (lr_ret (@uh_path_lookup Demo.lp64 Demo.index_names
              (Some (lit "/docs/guide.txt"))) = None /\
    @__handle_file_request Demo.lp64 Demo.index_names [] no_headers
      (error_handler (@conf Demo.lp64)) cl = Some (true, cl')) \/
   (lr_ret (@uh_path_lookup Demo.lp64 Demo.index_names
              (Some (lit "/docs/guide.txt"))) = None /\
    lr_ret (@uh_path_lookup Demo.lp64 Demo.index_names
              (error_handler (@conf Demo.lp64))) = None /\
    cl' = with_sent cl
            (sent cl ++ [ClientError 404 "Not Found" (Some (lit "/docs/guide.txt"))]))).
Proof.
  intros cl cl'.
  assert (Hrun : @uh_handle_request Demo.lp64 Demo.index_names [] no_headers
                   (lit "/docs/guide.txt") cl = Some (tt, cl'))
    by (vm_compute; reflexivity).
  split; [exact Hrun|]. split; [vm_compute; reflexivity|].
  exact (@uh_handle_request_ways_out Demo.lp64 Demo.index_names [] no_headers
           (lit "/docs/guide.txt") cl cl' eq_refl Hrun).
Defined.

(** ** What uh_path_lookup leaves in path_phys *)

Section Inside.
Context {P : Platform}.





End Inside.



